(** * WAMM_Map tools: the gazetteer generator and the GeoJSON name backfiller

    A shallow embedding of [Tools_and_scripts/gaz.py] and
    [Tools_and_scripts/geojson_add_names.py], and the properties of the
    tree builder, the sorter/numberer, the renderer, the menu-tree exporter
    and the name backfiller that the specification states.

    Modelling conventions.
    - Python [str] is [string]: a sequence of 8-bit characters read as code
      points, compared by code point as Python compares strings.
    - The scripts are read as Python 3.  A CSV record (a [dict] produced
      by [csv.DictReader]) maps the column headings to cells; a cell is a
      string, or [None] where the line was too short for the column.
      Indexing a key that is not there raises [KeyError], [.get(k, '')]
      defaults to the empty string, and a string method called on [None]
      raises [AttributeError].  The list that [csv.DictReader] stores under
      the key [None] for a line that is too long is left out: no lookup of
      the scripts reads it.
    - Python objects that are shared and mutated live in a store: divisions
      in an arena indexed by [nat] (index 0 is the module-level [ROOT]),
      record dictionaries in a heap indexed by [nat].  A [Division] holds
      the indices of its children and the index of its record, so aliasing
      of records between divisions and the persistence of [ROOT] between
      calls are visible.
    - An uncaught Python exception is the [Raise] result. *)

From stdpp Require Import gmap strings list fin_maps pretty.
From Stdlib Require Import Ascii Sorting.Sorted.




(** ** Python string primitives *)

Module Text.

(** [str.isspace] on the code points below 256. *)
Definition is_space (c : ascii) : bool :=
  let n := nat_of_ascii c in
  (Nat.leb 9 n && Nat.leb n 13) || (Nat.leb 28 n && Nat.leb n 32)
  || Nat.eqb n 133 || Nat.eqb n 160.

Definition is_empty (s : string) : bool :=
  match s with EmptyString => true | String _ _ => false end.

Fixpoint lstrip (s : string) : string :=
  match s with
  | EmptyString => EmptyString
  | String c s' => if is_space c then lstrip s' else s
  end.

Fixpoint rstrip (s : string) : string :=
  match s with
  | EmptyString => EmptyString
  | String c s' =>
      let r := rstrip s' in
      if is_space c && is_empty r then EmptyString else String c r
  end.

(** [s.strip()] *)
Definition strip (s : string) : string := rstrip (lstrip s).

(** One step of [s.split()], scanning from the right: the flag tells
    whether the first word of the accumulator is still open, that is,
    whether the character just to the right belongs to it. *)
Definition split_step (c : ascii) (acc : list string * bool) : list string * bool :=
  let '(ws, open) := acc in
  if is_space c then (ws, false)
  else if open then
    match ws with
    | w :: r => (String c w :: r, true)
    | [] => ([String c EmptyString], true)
    end
  else (String c EmptyString :: ws, true).

Fixpoint split_scan (s : string) : list string * bool :=
  match s with
  | EmptyString => ([], false)
  | String c s' => split_step c (split_scan s')
  end.

(** [s.split()]: the maximal runs of non-whitespace characters. *)
Definition split (s : string) : list string := fst (split_scan s).

(** [sep.join(l)] *)
Definition join (sep : string) (l : list string) : string := String.concat sep l.

Fixpoint map_chars (f : ascii -> ascii) (s : string) : string :=
  match s with
  | EmptyString => EmptyString
  | String c s' => String (f c) (map_chars f s')
  end.

(** [s[:n]] for [0 <= n]. *)
Fixpoint take_chars (n : nat) (s : string) : string :=
  match n, s with
  | S n', String c s' => String c (take_chars n' s')
  | _, _ => EmptyString
  end.

(** Python's order on [str]: lexicographic by code point. *)
Definition str_leb (a b : string) : bool := String.leb a b.
Definition str_ltb (a b : string) : bool := String.ltb a b.

(** Python's order on lists (and tuples) of [str]. *)
Fixpoint seq_compare (a b : list string) : comparison :=
  match a, b with
  | [], [] => Eq
  | [], _ :: _ => Lt
  | _ :: _, [] => Gt
  | x :: a', y :: b' =>
      match String.compare x y with
      | Eq => seq_compare a' b'
      | c => c
      end
  end.

Definition seq_leb (a b : list string) : bool :=
  match seq_compare a b with Gt => false | _ => true end.

Definition seq_ltb (a b : list string) : bool :=
  match seq_compare a b with Lt => true | _ => false end.

(** [sorted(l, key=...)]: Python's sort is stable, so its result is the
    unique stable sorted arrangement, which insertion from the right
    computes.  [le x y] says that the key of [x] is not greater than the
    key of [y]. *)
Fixpoint insert_sorted {A} (le : A -> A -> bool) (x : A) (l : list A) : list A :=
  match l with
  | [] => [x]
  | y :: l' => if le x y then x :: l else y :: insert_sorted le x l'
  end.

Definition sorted {A} (le : A -> A -> bool) (l : list A) : list A :=
  foldr (insert_sorted le) [] l.

End Text.

(** ** Results of computations that may raise *)

Inductive error : Type :=
  | KeyError (k : string)              (* a record lacks column [k] *)
  | IndexKeyError (p : list string)    (* the rank index lacks path [p] *)
  | IndexError                         (* list index out of range *)
  | AttributeError.                    (* a string method called on [None] *)

Inductive result (A : Type) : Type :=
  | Ok (a : A)
  | Raise (e : error).
Arguments Ok {A} a.
Arguments Raise {A} e.

#[global] Instance result_ret : MRet result := fun A a => Ok a.
#[global] Instance result_bind : MBind result := fun A B f m =>
  match m with
  | Ok a => f a
  | Raise e => Raise e
  end.

(** ** gaz.py *)

Module Gaz.
Import Text.

(** [Level = namedtuple('Level', ['name', 'abbr', 'key'])] *)
Record Level := mkLevel {
  level_name : string;
  level_abbr : string;
  level_key : string
}.

(** [Division = namedtuple('Division', ['name', 'path', 'children', 'row'])];
    [children] holds arena indices, [row] a heap index. *)
Record Division := mkDivision {
  name : string;
  path : list string;
  children : list nat;
  row : nat
}.

(** A cell of a CSV record: a string, or [None] where the line of the file
    was too short for the column ([restval] of [csv.DictReader]). *)
Abbreviation cell := (option string).

(** A CSV record: the [dict] of one line. *)
Abbreviation csv_row := (gmap string (option string)).

Record store := mkStore {
  divs : list Division;
  heap : list csv_row
}.

(** [ROOT = Division(name='', path=(), children=[], row={})] *)
Definition ROOT : Division :=
  {| name := ""; path := []; children := []; row := 0 |}.

Definition root_id : nat := 0.

(** The store when the module has just been loaded. *)
Definition initial_store : store :=
  {| divs := [ROOT]; heap := [∅] |}.

Definition DEFAULT_LEVELS : list Level :=
  [ mkLevel "District" "D" "loc_adm1";
    mkLevel "Chiefdom" "C" "loc_adm2";
    mkLevel "Section" "S" "loc_adm3";
    mkLevel "Village" "V" "VILLAGE_NAME" ].

Definition get (ds : list Division) (id : nat) : Division :=
  default ROOT (ds !! id).

Definition is_markup (c : ascii) : bool :=
  match c with
  | "<"%char | ">"%char | "&"%char | "_"%char => true
  | _ => false
  end.

(** [re.sub(r'[<>&_]', ' ', s)] *)
Definition sub_markup (s : string) : string :=
  map_chars (fun c => if is_markup c then " "%char else c) s.

(** [normalize_name]; the argument is [None] or a string. *)
Definition normalize_name (nm : option string) : string :=
  let s := default "" nm in
  if bool_decide (strip s = "OTHER") then "(other)"
  else join " " (split (sub_markup s)).

(** The receiver of a string method ([v.strip()], [v.split()]): [None]
    has no such method. *)
Definition cell_str (v : cell) : result string :=
  match v with
  | Some s => Ok s
  | None => Raise AttributeError
  end.

(** [row[level.key].strip() or None] *)
Definition level_value (r : csv_row) (lv : Level) : result (option string) :=
  match r !! level_key lv with
  | None => Raise (KeyError (level_key lv))
  | Some v => s ← cell_str v; let s := strip s in Ok (if is_empty s then None else Some s)
  end.

(** [names = [row[level.key].strip() or None for level in levels]] *)
Fixpoint row_names (levels : list Level) (r : csv_row)
  : result (list (option string)) :=
  match levels with
  | [] => Ok []
  | lv :: ls =>
      v ← level_value r lv;
      vs ← row_names ls r;
      Ok (v :: vs)
  end.

(** The inner [for child in node.children] loop with its [break]: the
    first child of that name, never at the last level.  The levels of a
    schema are distinct objects, so [level is not levels[-1]] compares
    positions. *)
Definition find_child (ds : list Division) (node : nat) (nm : string) (leaf : bool)
  : option nat :=
  if leaf then None
  else List.find (fun c => bool_decide (name (get ds c) = nm)) (children (get ds node)).

Definition append_child (c : nat) (d : Division) : Division :=
  {| name := name d; path := path d; children := children d ++ [c]; row := row d |}.

(** The [else] branch of the search: create the division, append it to
    its parent's children and to the list of its level. *)
Definition create_child (ds : list Division) (dl : list (list nat))
    (node i : nat) (nm : string) (rid : nat)
  : nat * list Division * list (list nat) :=
  let c := length ds in
  let child := {| name := nm; path := path (get ds node) ++ [nm];
                  children := []; row := rid |} in
  (c, alter (append_child c) node (ds ++ [child]), alter (fun l => l ++ [c]) i dl).

(** The loop over [enumerate(zip(levels, names))], from position [i] and
    parent [node]; [n] is [len(levels)]. *)
Fixpoint descend (n i : nat) (names : list (option string)) (rid node : nat)
    (ds : list Division) (dl : list (list nat))
  : list Division * list (list nat) :=
  match names with
  | [] => (ds, dl)
  | nm :: rest =>
      let nm' := normalize_name nm in
      if is_empty nm' then (ds, dl)
      else
        match find_child ds node nm' (bool_decide (S i = n)) with
        | Some c => descend n (S i) rest rid c ds dl
        | None =>
            let '(c, ds', dl') := create_child ds dl node i nm' rid in
            descend n (S i) rest rid c ds' dl'
        end
  end.

(** One iteration of [for row in csv.DictReader(file)]. *)
Definition read_row (levels : list Level) (r : csv_row)
    (st : store) (dl : list (list nat)) : result (store * list (list nat)) :=
  names ← row_names levels r;
  let rid := length (heap st) in
  let '(ds', dl') := descend (length levels) 0 names rid root_id (divs st) dl in
  Ok ({| divs := ds'; heap := heap st ++ [r] |}, dl').

Fixpoint read_rows (levels : list Level) (rows : list csv_row)
    (st : store) (dl : list (list nat)) : result (store * list (list nat)) :=
  match rows with
  | [] => Ok (st, dl)
  | r :: rs =>
      '(st', dl') ← read_row levels r st dl;
      read_rows levels rs st' dl'
  end.

(** [read_divisions(file, levels)], run on the store [st]. *)
Definition read_divisions (st : store) (rows : list csv_row)
    (levels : list Level) : result (store * list (list nat)) :=
  read_rows levels rows st (replicate (length levels) []).

(** *** Well-formed stores

    What the tree builder maintains, for a schema of [n] levels: the root
    has the empty path; a child is a division other than the root whose
    path is its parent's path followed by its own name; the children of a
    division above the level before the last have pairwise distinct names;
    every division other than the root is on the list of its level and
    is the child of a division; the divisions on the list of a level
    before the last have pairwise distinct paths. *)
Record wf (n : nat) (ds : list Division) (dl : list (list nat)) : Prop := mkWf {
  wf_root : 0 < length ds /\ path (get ds root_id) = [];
  wf_child : forall p c, c ∈ children (get ds p) ->
    0 < c < length ds /\ path (get ds c) = path (get ds p) ++ [name (get ds c)];
  wf_nodup : forall p, S (length (path (get ds p))) < n ->
    NoDup ((fun c => name (get ds c)) <$> children (get ds p));
  wf_listed : forall id, 0 < id < length ds ->
    exists i l, length (path (get ds id)) = S i /\ dl !! i = Some l /\ id ∈ l;
  wf_lists : forall i l id, dl !! i = Some l -> id ∈ l ->
    0 < id < length ds /\ length (path (get ds id)) = S i;
  wf_length : length dl = n;
  wf_parent : forall id, 0 < id < length ds -> exists q, id ∈ children (get ds q);
  wf_paths : forall i l, dl !! i = Some l -> S i < n ->
    NoDup ((fun id => path (get ds id)) <$> l)
}.

(** The builder only adds: a division keeps its name, its path and its
    record, and its children are only appended to. *)
Definition div_le (d d' : Division) : Prop :=
  name d = name d' /\ path d = path d' /\ row d = row d'
  /\ children d `prefix_of` children d'.

Definition grows (ds ds' : list Division) : Prop :=
  forall id d, ds !! id = Some d -> exists d', ds' !! id = Some d' /\ div_le d d'.

(** *** Sorting and numbering *)

(** The key of the first [sort_divisions] (line 137): the path itself. *)
Definition path_key (d : Division) : list string := path d.

(** ['~' if item in ['OTHER', '(other)'] else item] *)
Definition other_last (item : string) : string :=
  if bool_decide (item = "OTHER") || bool_decide (item = "(other)") then "~" else item.

(** The key of the site-specific [sort_divisions] (line 194), which is the
    one in force once the module is loaded. *)
Definition sort_key (d : Division) : list string := other_last <$> path d.

Definition key_le (key : Division -> list string) (ds : list Division) (a b : nat) : bool :=
  seq_leb (key (get ds a)) (key (get ds b)).

Definition sort_divisions_by (key : Division -> list string)
    (ds : list Division) (ids : list nat) : list nat :=
  sorted (key_le key ds) ids.

Definition sort_divisions : list Division -> list nat -> list nat :=
  sort_divisions_by sort_key.

(** [for j, division in enumerate(sorted_divisions):
       indexes[division.path] = j + 1], from position [j]. *)
Fixpoint number_divisions (ds : list Division) (j : nat) (ids : list nat)
    (indexes : gmap (list string) nat) : gmap (list string) nat :=
  match ids with
  | [] => indexes
  | d :: rest => number_divisions ds (S j) rest (<[path (get ds d) := S j]> indexes)
  end.

Fixpoint sort_and_number_loop (ds : list Division) (dls sorted_lists : list (list nat))
    (indexes : gmap (list string) nat) : list (list nat) * gmap (list string) nat :=
  match dls with
  | [] => (sorted_lists, indexes)
  | divisions :: rest =>
      let sorted_divisions := sort_divisions ds divisions in
      sort_and_number_loop ds rest (sorted_lists ++ [sorted_divisions])
        (number_divisions ds 0 sorted_divisions indexes)
  end.

Definition sort_and_number_divisions (ds : list Division) (dls : list (list nat))
  : list (list nat) * gmap (list string) nat :=
  sort_and_number_loop ds dls [] ∅.

(** *** Site-specific fix-up of a record *)

(** [fit_length(text, max_length)], for [3 <= max_length]. *)
Definition fit_length (text : string) (max_length : nat) : string :=
  if Nat.ltb max_length (String.length text)
  then take_chars (max_length - 3) text +:+ "..."
  else text.

(** [row.get(k, '')] *)
Definition row_get (r : csv_row) (k : string) : cell :=
  default (Some "") (r !! k).

(** [str(v)] of a cell, as [str.format] renders it. *)
Definition cell_format (v : cell) : string :=
  match v with
  | Some s => s
  | None => "None"
  end.

(** [{child.row[k]}], as the templates index and render a cell. *)
Definition row_index (r : csv_row) (k : string) : result string :=
  match r !! k with
  | Some v => Ok (cell_format v)
  | None => Raise (KeyError k)
  end.

(** The effect of the site-specific [fix_up_division] (line 177) on the
    record of the division. *)
Definition fix_up_row (r : csv_row) : result csv_row :=
  alt ← cell_str (row_get r "ALT_VILLAGE_NAME");
  let alt := strip alt in
  let others := if is_empty alt then [] else [fit_length alt 24] in
  hist ← cell_str (row_get r "HISTORICAL_NAME");
  let hist := strip hist in
  let others := if is_empty hist then others
                else others ++ [fit_length hist 24 +:+ " (old)"] in
  let r := <["VILLAGE_OTHER_NAMES" := Some (join "<br>" others)]> r in
  chief ← cell_str (row_get r "CHIEF_NAME");
  let chief_words := split chief in
  let chief_words :=
    match chief_words with
    | w :: rest => if bool_decide (w = "Chief") then rest else chief_words
    | [] => chief_words
    end in
  let chief_words :=
    if Nat.ltb 2 (length chief_words) && Nat.ltb 20 (String.length (join " " chief_words))
    then take 2 chief_words ++ ["<br>&nbsp;&nbsp;&nbsp;&nbsp;"] ++ drop 2 chief_words
    else chief_words in
  Ok (<["CHIEF_NAME" := Some (join " " chief_words)]> r).

(** [fix_up_division(division)]: the record is updated in place, so every
    division that shares it sees the update.  The record of a division is
    always one of the heap. *)
Definition fix_up_division (d : Division) (hp : list csv_row) : result (list csv_row) :=
  match hp !! row d with
  | Some r => r' ← fix_up_row r; Ok (<[row d := r']> hp)
  | None => Ok hp
  end.

(** *** Templates *)

Definition dq : string := String "034"%char EmptyString.

Definition ITEM_TEMPLATE (level : Level) (child : Division) (index : nat) : string :=
  "
  <div class=" +:+ dq +:+ "item" +:+ dq +:+ ">
    " +:+ name child +:+ " &mdash; " +:+ level_abbr level +:+ pretty index +:+ "
  </div>
".

(** The cells that [LEAF_ITEM_TEMPLATE] reads from the record of the child,
    in the order in which [format] looks them up. *)
Definition leaf_cells (r : csv_row) : result (string * string * string * string) :=
  c1 ← row_index r "VILLAGE_NAME";
  c2 ← row_index r "VILLAGE_OTHER_NAMES";
  c3 ← row_index r "CHIEF_NAME";
  c4 ← row_index r "VILLAGE_NAME_MEANING";
  Ok (c1, c2, c3, c4).

Definition leaf_item_text (cells : string * string * string * string) : string :=
  let '(c1, c2, c3, c4) := cells in
  "
    <tr class=" +:+ dq +:+ "item" +:+ dq +:+ ">
      <td class=" +:+ dq +:+ "name" +:+ dq +:+ ">" +:+ c1 +:+ "</td>
      <td>" +:+ c2 +:+ "</td>
      <td>" +:+ c3 +:+ "</td>
      <td class=" +:+ dq +:+ "wrap" +:+ dq +:+ ">" +:+ c4 +:+ "</td>
    </tr>
".

(** The site-specific [LEAF_ITEM_TEMPLATE] (line 163), formatted on the
    record [r] of the child. *)
Definition LEAF_ITEM_TEMPLATE (r : csv_row) : result string :=
  cells ← leaf_cells r;
  Ok (leaf_item_text cells).

Definition LISTING_TEMPLATE (items : string) : string :=
  "
  <div class=" +:+ dq +:+ "listing" +:+ dq +:+ ">
    " +:+ items +:+ "
  </div>
".

Definition LEAF_LISTING_TEMPLATE (items : string) : string :=
  "
  <table cellpadding=" +:+ dq +:+ "0" +:+ dq +:+ " cellspacing=" +:+ dq +:+ "0" +:+ dq
    +:+ " class=" +:+ dq +:+ "listing" +:+ dq +:+ ">
    <tr class=" +:+ dq +:+ "headings" +:+ dq +:+ ">
      <th class=" +:+ dq +:+ "name" +:+ dq +:+ ">Village name</th>
      <th>Other names</th>
      <th>Village chief</th>
      <th>Meaning of village name</th>
    </tr>
    " +:+ items +:+ "
  </table>
".

Definition ANCESTOR_TEMPLATE (level : Level) (nm : string) : string :=
  "
  <div class=" +:+ dq +:+ "ancestor" +:+ dq +:+ ">
    " +:+ level_name level +:+ ": <span class=" +:+ dq +:+ "name" +:+ dq +:+ ">" +:+ nm +:+ "</span>
  </div>
".

Definition PAGE_TEMPLATE (level : Level) (division : Division) (index : nat)
    (ancestors listing : string) : string :=
  "
<div class=" +:+ dq +:+ "page" +:+ dq +:+ ">
  <div class=" +:+ dq +:+ "number" +:+ dq +:+ ">
    " +:+ level_abbr level +:+ pretty index +:+ "
  </div>
  <div class=" +:+ dq +:+ "ancestors" +:+ dq +:+ ">
    " +:+ ancestors +:+ "
  </div>
  <div class=" +:+ dq +:+ "title" +:+ dq +:+ ">
    " +:+ level_name level +:+ ": <span class=" +:+ dq +:+ "name" +:+ dq +:+ ">"
      +:+ name division +:+ "</span>
  </div>
  " +:+ listing +:+ "
</div>
".

Definition CONTENT_ITEM_TEMPLATE (level : Level) (count : nat) : string :=
  "
  <div>" +:+ level_name level +:+ " pages: " +:+ level_abbr level +:+ "1 &ndash; "
    +:+ level_abbr level +:+ pretty count +:+ "</div>
".

(** *** The gazetteer renderer *)

(** What the renderer substituted into an item and a page, kept next to
    the text so that properties of the rendering can be stated. *)
Record Item := mkItem {
  item_child : nat;
  item_index : nat;
  item_text : string
}.

Record Page := mkPage {
  page_division : nat;
  page_index : nat;
  page_items : list Item;
  page_text : string
}.

(** [indexes[p]] *)
Definition index_of (indexes : gmap (list string) nat) (p : list string) : result nat :=
  match indexes !! p with
  | Some j => Ok j
  | None => Raise (IndexKeyError p)
  end.

(** The body of [for child in sort_divisions(division.children)]; [leaf]
    tells whether [item_template] is [LEAF_ITEM_TEMPLATE] by now. *)
Definition render_item (ds : list Division) (indexes : gmap (list string) nat)
    (leaf : bool) (child_level : Level) (c : nat) (hp : list csv_row)
  : result (list csv_row * Item) :=
  let child := get ds c in
  hp ← fix_up_division child hp;
  index ← index_of indexes (path child);
  text ← (if leaf then LEAF_ITEM_TEMPLATE (default ∅ (hp !! row child))
          else Ok (ITEM_TEMPLATE child_level child index));
  Ok (hp, mkItem c index text).

Fixpoint render_items (ds : list Division) (indexes : gmap (list string) nat)
    (leaf : bool) (child_level : Level) (cs : list nat) (hp : list csv_row)
  : result (list csv_row * list Item) :=
  match cs with
  | [] => Ok (hp, [])
  | c :: rest =>
      '(hp, item) ← render_item ds indexes leaf child_level c hp;
      '(hp, items) ← render_items ds indexes leaf child_level rest hp;
      Ok (hp, item :: items)
  end.

(** [zip(levels, division.path[:-1])] through [ANCESTOR_TEMPLATE]. *)
Definition render_ancestors (levels : list Level) (p : list string) : string :=
  join "" (zip_with ANCESTOR_TEMPLATE levels (take (length p - 1) p)).

(** The body of [for division in divisions]. *)
Definition render_page (levels : list Level) (ds : list Division)
    (indexes : gmap (list string) nat) (leaf : bool) (level child_level : Level)
    (d : nat) (hp : list csv_row)
  : result (list csv_row * Page) :=
  let division := get ds d in
  '(hp, items) ← render_items ds indexes leaf child_level
                   (sort_divisions ds (children division)) hp;
  index ← index_of indexes (path division);
  let listing := (if leaf then LEAF_LISTING_TEMPLATE else LISTING_TEMPLATE)
                   (join "" (item_text <$> items)) in
  Ok (hp, mkPage d index items
            (PAGE_TEMPLATE level division index
               (render_ancestors levels (path division)) listing)).

Fixpoint render_pages (levels : list Level) (ds : list Division)
    (indexes : gmap (list string) nat) (leaf : bool) (level child_level : Level)
    (divisions : list nat) (hp : list csv_row)
  : result (list csv_row * list Page) :=
  match divisions with
  | [] => Ok (hp, [])
  | d :: rest =>
      '(hp, page) ← render_page levels ds indexes leaf level child_level d hp;
      '(hp, pages) ← render_pages levels ds indexes leaf level child_level rest hp;
      Ok (hp, page :: pages)
  end.

(** The loop over [zip(levels, levels[1:], division_lists)] from position
    [i]; [leaf] tells whether the leaf templates have been switched on. *)
Fixpoint render_levels (all_levels : list Level) (ds : list Division)
    (indexes : gmap (list string) nat) (i : nat) (leaf : bool)
    (levels child_levels : list Level) (dls : list (list nat))
    (hp : list csv_row)
  : result (list csv_row * list Page) :=
  match levels, child_levels, dls with
  | level :: ls, child_level :: cls, divisions :: rest =>
      let leaf := leaf || bool_decide (S (S i) = length all_levels) in
      '(hp, pages) ← render_pages all_levels ds indexes leaf level child_level divisions hp;
      '(hp, more) ← render_levels all_levels ds indexes (S i) leaf ls cls rest hp;
      Ok (hp, pages ++ more)
  | _, _, _ => Ok (hp, [])
  end.

(** The cover's contents: [zip(levels[:-1], division_lists)]. *)
Definition render_contents (levels : list Level) (dls : list (list nat)) : string :=
  join "" (zip_with (fun level divisions => CONTENT_ITEM_TEMPLATE level (length divisions))
             (take (length levels - 1) levels) dls).

(** [write_gazetteer]: the pages and the contents that go into
    [DOCUMENT_TEMPLATE], and the heap of records after the fix-ups.  The
    last substitution, which adds the stylesheet, the title, the file name
    and the modification time of the source file, is not modelled. *)
Definition write_gazetteer (st : store) (levels : list Level) (dls : list (list nat))
    (indexes : gmap (list string) nat)
  : result (list csv_row * list Page * string) :=
  '(hp, pages) ← render_levels levels (divs st) indexes 0 false
                   levels (tail levels) dls (heap st);
  Ok (hp, pages, render_contents levels dls).

(** *** Rank lookups of the renderer *)

(** The rank index has an entry for the path of division [id]. *)
Definition covered (ds : list Division) (indexes : gmap (list string) nat) (id : nat) : Prop :=
  is_Some (indexes !! path (get ds id)).

(** The computation does not fail on a lookup in the rank index. *)
Definition no_index_error {A} (r : result A) : Prop :=
  forall p, r ≠ Raise (IndexKeyError p).

(** *** The menu-tree exporter *)

(** One column; [penultimate] is [divisions is division_lists[-2]]. *)
Definition menu_column (ds : list Division) (penultimate : bool) (d : nat) : list string :=
  let division := get ds d in
  let names := (fun c => name (get ds c)) <$> sort_divisions ds (children division) in
  let names := if penultimate && negb (bool_decide ("(other)" ∈ names))
               then names ++ ["(other)"] else names in
  join "/" (path division) :: names.

(** The columns of [for divisions in [[ROOT]] + division_lists[:-1]]; the
    lists are distinct objects, so the list at position [k] of the
    concatenation is [division_lists[-2]] exactly when [k + 1] is the
    number of lists.  [division_lists[-2]] is evaluated for the root
    already and raises when there are fewer than two lists. *)
Definition menu_columns (ds : list Division) (dls : list (list nat))
  : result (list (list string)) :=
  if Nat.ltb (length dls) 2 then Raise IndexError
  else Ok (concat (imap (fun k divisions =>
                           menu_column ds (bool_decide (S k = length dls)) <$> divisions)
                     ([root_id] :: take (length dls - 1) dls))).

(** [transpose(rows)], for at least one column; a cell is [None] where the
    column was padded.  With no column at all [max] raises [ValueError],
    which [write_csv_menu_tree] never meets: the column of [ROOT] is always
    there. *)
Definition transpose (columns : list (list string)) : list (list (option string)) :=
  let width := max_list (length <$> columns) in
  (fun k => (fun column : list string => column !! k) <$> columns) <$> seq 0 width.

(** [write_csv_menu_tree]: the rows handed to the CSV writer. *)
Definition write_csv_menu_tree (ds : list Division) (dls : list (list nat))
  : result (list (list (option string))) :=
  columns ← menu_columns ds dls;
  Ok (transpose columns).

(** *** The pipeline of [main] *)

Record Output := mkOutput {
  out_store : store;
  out_lists : list (list nat);
  out_indexes : gmap (list string) nat
}.

(** [read_divisions] followed by [sort_and_number_divisions], on the store
    [st]; [main] runs it once, on [initial_store]. *)
Definition build_on (st : store) (rows : list csv_row) (levels : list Level)
  : result Output :=
  '(st', dl) ← read_divisions st rows levels;
  let '(sorted_lists, indexes) := sort_and_number_divisions (divs st') dl in
  Ok (mkOutput st' sorted_lists indexes).

Definition build (rows : list csv_row) (levels : list Level) : result Output :=
  build_on initial_store rows levels.

(** *** Observations on the output, and example inputs *)

(** The name, the path and the children of a division: all of it but the
    record. *)
Definition shape (d : Division) : string * list string * list nat :=
  (name d, path d, children d).

Definition same_shape (ds ds' : list Division) : Prop :=
  shape <$> ds = shape <$> ds'.

(** Two records carry the same value in the column of every level. *)
Definition agree_on (levels : list Level) (r r' : csv_row) : Prop :=
  forall lv, lv ∈ levels -> r !! level_key lv = r' !! level_key lv.

(** The paths of the divisions on each list. *)
Definition paths_of (ds : list Division) (dls : list (list nat)) : list (list (list string)) :=
  (fun l : list nat => (fun id => path (get ds id)) <$> l) <$> dls.

(** [indexes[division.path]] for each of the divisions [ids]. *)
Definition ranks_of (ds : list Division) (indexes : gmap (list string) nat) (ids : list nat)
  : list (option nat) :=
  (fun id => indexes !! path (get ds id)) <$> ids.

(** The strings that record [rid] of the heap has in the columns of the
    default levels. *)
Definition level_values (hp : list csv_row) (rid : nat) : option (list string) :=
  r ← hp !! rid; mapM (fun lv => v ← r !! level_key lv; v) DEFAULT_LEVELS.

(** The division of a page, and the children and the ranks on its items. *)
Definition page_summary (p : Page) : nat * list nat * list nat :=
  (page_division p, item_child <$> page_items p, item_index <$> page_items p).

(** The path that the names of a record spell down to level [i]. *)
Definition level_path (names : list (option string)) (i : nat) : list string :=
  normalize_name <$> take (S i) names.

(** Record [r] has a division at every level down to which its names are
    not empty, with these names as its path. *)
Definition reached (levels : list Level) (ds : list Division) (r : csv_row) : Prop :=
  forall names i, row_names levels r = Ok names -> i < length levels ->
    "" ∉ level_path names i ->
    exists id, 0 < id < length ds /\ path (get ds id) = level_path names i.

(** A record with the four columns of the default levels. *)
Definition record (d c s v : string) : csv_row :=
  <["loc_adm1" := Some d]>
    (<["loc_adm2" := Some c]> (<["loc_adm3" := Some s]> {[ "VILLAGE_NAME" := Some v ]})).

Definition with_meaning (m : string) (r : csv_row) : csv_row :=
  <["VILLAGE_NAME_MEANING" := Some m]> r.

Definition two_levels : list Level :=
  [mkLevel "District" "D" "loc_adm1"; mkLevel "Chiefdom" "C" "loc_adm2"].

(** A store with one district and its one chiefdom, and its level lists. *)
Definition small_divs : list Division :=
  [ {| name := ""; path := []; children := [1]; row := 0 |};
    {| name := "A"; path := ["A"]; children := [2]; row := 1 |};
    {| name := "X"; path := ["A"; "X"]; children := []; row := 1 |} ].

Definition small_lists : list (list nat) := [[1]; [2]].

(** A store of one level with a catch-all division and one other. *)
Definition other_divs : list Division :=
  [ {| name := ""; path := []; children := [1; 2]; row := 0 |};
    {| name := "(other)"; path := ["(other)"]; children := []; row := 1 |};
    {| name := "Bo"; path := ["Bo"]; children := []; row := 2 |} ].

End Gaz.

(** ** geojson_add_names.py *)

Module GeoNames.

(** [name_keys = sum([['ADM%d_NAME' % i, 'admin%dName' % i] for i in range(6)], [])]
    followed by [name_keys += ['NAME', 'Name', 'name']]. *)
Definition name_keys : list string :=
  concat ((fun i : nat => ["ADM" +:+ pretty i +:+ "_NAME"; "admin" +:+ pretty i +:+ "Name"])
            <$> seq 0 6)
  ++ ["NAME"; "Name"; "name"].

(** JSON values as [json.load] returns them, with whole numbers only. *)
#[warnings="-register-all"]
Inductive json : Type :=
  | JNull
  | JBool (b : bool)
  | JNum (z : Z)
  | JStr (s : string)
  | JArr (items : list json)
  | JObj (members : list (string * json)).

(** Python's truth value of a JSON value. *)
Definition json_truthy (v : json) : bool :=
  match v with
  | JNull => false
  | JBool b => b
  | JNum z => negb (Z.eqb z 0)
  | JStr s => negb (Text.is_empty s)
  | JArr items => match items with [] => false | _ => true end
  | JObj members => match members with [] => false | _ => true end
  end.

Section Backfill.
(** The backfiller only asks a property value for its truth value. *)
Context {V : Type} (truthy : V -> bool).

(** The truth value of [props.get(key)]. *)
Definition has_truthy (props : gmap string V) (k : string) : bool :=
  match props !! k with
  | Some v => truthy v
  | None => false
  end.

(** [for key in keys: if props.get(key): ...; break]: the key of the
    first hit. *)
Fixpoint first_hit (keys : list string) (props : gmap string V) : option string :=
  match keys with
  | [] => None
  | k :: ks => if has_truthy props k then Some k else first_hit ks props
  end.

(** The body of the loop over the features, on the property mapping. *)
Definition add_name (props : gmap string V) : gmap string V :=
  if negb (bool_decide (props = ∅)) && negb (has_truthy props "name") then
    match first_hit (rev name_keys) props with
    | Some k =>
        match props !! k with
        | Some v => <["name" := v]> props
        | None => props
        end
    | None => props
    end
  else props.

(** A feature: its property mapping, if it has one, and its other members. *)
Record Feature (M : Type) := mkFeature {
  properties : option (gmap string V);
  members : M
}.
Arguments mkFeature {M} _ _.
Arguments properties {M} _.
Arguments members {M} _.

Definition add_feature_name {M} (f : Feature M) : Feature M :=
  match properties f with
  | Some props => mkFeature (Some (add_name props)) (members f)
  | None => f
  end.

(** [for feature in geojson['features']] *)
Definition add_names {M} (features : list (Feature M)) : list (Feature M) :=
  add_feature_name <$> features.
End Backfill.
Arguments mkFeature {V M} _ _.
Arguments properties {V M} _.
Arguments members {V M} _.

(** The priority of the fallback keys as the specification words it:
    "name" > "Name" > "NAME" > the keys of the finest admin level down to
    the coarsest. *)
Definition priority_order : list string :=
  [ "name"; "Name"; "NAME";
    "admin5Name"; "ADM5_NAME"; "admin4Name"; "ADM4_NAME";
    "admin3Name"; "ADM3_NAME"; "admin2Name"; "ADM2_NAME";
    "admin1Name"; "ADM1_NAME"; "admin0Name"; "ADM0_NAME" ].

End GeoNames.

(** ** Observations for the further properties *)

Module Observe.
Import Text Gaz.

(** Every character of [s] satisfies [P]. *)
Fixpoint all_chars (P : ascii -> bool) (s : string) : bool :=
  match s with
  | EmptyString => true
  | String c s' => P c && all_chars P s'
  end.

(** A word as [s.split()] returns them: not empty, no whitespace. *)
Definition is_word (w : string) : bool :=
  negb (is_empty w) && all_chars (fun c => negb (is_space c)) w.

(** The record has every level column, and none of its names is empty
    after normalization: the descent does not [break]. *)
Definition reaches_leaf (levels : list Level) (r : csv_row) : bool :=
  match row_names levels r with
  | Ok names => forallb (fun x => negb (is_empty (normalize_name x))) names
  | Raise _ => false
  end.

(** The division carries a record of the heap other than the root's, and
    its path is the normalized names of that record down to its depth, none
    of them empty. *)
Definition from_record (levels : list Level) (hp : list csv_row)
    (d : Division) : Prop :=
  0 < row d
  /\ exists r names,
       hp !! row d = Some r
       /\ row_names levels r = Ok names
       /\ path d = normalize_name <$> take (length (path d)) names
       /\ "" ∉ path d.

Definition all_from_records (levels : list Level) (hp : list csv_row)
    (ds : list Division) : Prop :=
  forall id d, ds !! id = Some d -> id ≠ 0 -> from_record levels hp d.

(** The rank on an item is the entry of the rank index for its child. *)
Definition item_ranked (ds : list Division) (indexes : gmap (list string) nat)
    (it : Item) : Prop :=
  indexes !! path (get ds (item_child it)) = Some (item_index it).

(** The number of a page is the rank of its division, and its items are
    the children of the division as [sort_divisions] orders them, each with
    its rank. *)
Definition page_faithful (ds : list Division) (indexes : gmap (list string) nat)
    (pg : Page) : Prop :=
  indexes !! path (get ds (page_division pg)) = Some (page_index pg)
  /\ item_child <$> page_items pg = sort_divisions ds (children (get ds (page_division pg)))
  /\ Forall (item_ranked ds indexes) (page_items pg).

(** The cell of column [k], if the record has one, is a string. *)
Definition text_cell (r : csv_row) (k : string) : Prop :=
  r !! k ≠ Some None.

(** The three cells that [fix_up_division] calls a string method on are
    strings, where the record has them. *)
Definition fixable (r : csv_row) : Prop :=
  text_cell r "ALT_VILLAGE_NAME" /\ text_cell r "HISTORICAL_NAME"
  /\ text_cell r "CHIEF_NAME".

(** The two columns that [LEAF_ITEM_TEMPLATE] indexes and that
    [fix_up_division] does not write. *)
Definition has_leaf_columns (r : csv_row) : Prop :=
  is_Some (r !! "VILLAGE_NAME") /\ is_Some (r !! "VILLAGE_NAME_MEANING").

(** Every record but the root's can be fixed up and formatted as a leaf. *)
Definition records_ok (hp : list csv_row) : Prop :=
  forall k r, hp !! k = Some r -> 0 < k -> has_leaf_columns r /\ fixable r.

(** Division [c] can be rendered as an item on a heap of [n] records. *)
Definition renderable (ds : list Division) (indexes : gmap (list string) nat)
    (n : nat) (c : nat) : Prop :=
  covered ds indexes c /\ 0 < row (get ds c) < n.

(** The line break that [fix_up_division] inserts into a long name. *)
Definition line_break : string := "<br>&nbsp;&nbsp;&nbsp;&nbsp;".

(** [if chief_words[:1] == ['Chief']: chief_words[:1] = []] *)
Definition drop_chief (ws : list string) : list string :=
  match ws with
  | w :: rest => if bool_decide (w = "Chief") then rest else ws
  | [] => ws
  end.

(** [if len(chief_words) > 2 and len(' '.join(chief_words)) > 20:
       chief_words[2:2] = ['<br>&nbsp;&nbsp;&nbsp;&nbsp;']] *)
Definition break_long (ws : list string) : list string :=
  if Nat.ltb 2 (length ws) && Nat.ltb 20 (String.length (join " " ws))
  then take 2 ws ++ [line_break] ++ drop 2 ws
  else ws.

(** The string that [row.get(k, '')] is, when it is one. *)
Definition row_text (r : csv_row) (k : string) : string :=
  default "" (row_get r k).

(** The words of the chief's name without a leading "Chief". *)
Definition chief_words (r : csv_row) : list string :=
  drop_chief (split (row_text r "CHIEF_NAME")).

(** The entries of the cell of other names. *)
Definition other_names (r : csv_row) : list string :=
  let alt := strip (row_text r "ALT_VILLAGE_NAME") in
  let others := if is_empty alt then [] else [fit_length alt 24] in
  let hist := strip (row_text r "HISTORICAL_NAME") in
  if is_empty hist then others else others ++ [fit_length hist 24 +:+ " (old)"].

(** The record that the fix-up of [r] leaves, when it returns. *)
Definition fixed_up (r : csv_row) : csv_row :=
  <["CHIEF_NAME" := Some (join " " (break_long (chief_words r)))]>
    (<["VILLAGE_OTHER_NAMES" := Some (join "<br>" (other_names r))]> r).

(** Three records with all the columns of the leaf template; the third
    names a district only. *)
Definition example_rows : list csv_row :=
  [ with_meaning "m1" (record "A" "X" "P" "v1");
    with_meaning "m2" (record "A" "Y" "Q" "v2");
    with_meaning "" (record "B" "" "" "") ].

End Observe.

(** ** The level specifications of [main] in gaz.py *)

Module Args.
Import Text Gaz Observe.

(** [s.split(sep)] for a separator of one character: the pieces between
    the occurrences of [sep], empty ones included. *)
Fixpoint split_on (sep : ascii) (s : string) : list string :=
  match s with
  | EmptyString => [EmptyString]
  | String c s' =>
      if bool_decide (c = sep) then EmptyString :: split_on sep s'
      else match split_on sep s' with
           | w :: ws => String c w :: ws
           | [] => [String c EmptyString]
           end
  end.

(** [for abbr, name, key in [spec.split('/')]], for one element [spec] of
    [args.levels]: the unpacking raises [ValueError], here [None], unless
    there are three pieces. *)
Definition parse_level (spec : string) : option Level :=
  match split_on "/" spec with
  | [abbr; name; key] => Some (mkLevel name abbr key)
  | _ => None
  end.

(** The [levels] of [main], computed from [args.levels], the level
    arguments as [argparse] hands them over: the levels they spell, or
    [DEFAULT_LEVELS] when there are none.  The work of [argparse] on the
    command line, which ends the program on an argument that it takes for
    an option, comes before and is not part of the model. *)
Definition levels_of_args (specs : list string) : option (list Level) :=
  match specs with
  | [] => Some DEFAULT_LEVELS
  | _ => mapM parse_level specs
  end.

(** The argument in abbr/name/key form that stands for a level. *)
Definition unparse_level (lv : Level) : string :=
  level_abbr lv +:+ "/" +:+ level_name lv +:+ "/" +:+ level_key lv.

Definition no_slash (s : string) : bool :=
  all_chars (fun c => negb (bool_decide (c = "/"%char))) s.

End Args.

(** * Properties *)

(** ** The orders on strings and on paths *)

Module OrderFacts.
Import Text.

Lemma ascii_compare_refl (a : ascii) : Ascii.compare a a = Eq.
Proof. unfold Ascii.compare. apply N.compare_refl. Qed.

Lemma ascii_compare_lt_trans (a b c : ascii) :
  Ascii.compare a b = Lt -> Ascii.compare b c = Lt -> Ascii.compare a c = Lt.
Proof.
  unfold Ascii.compare. rewrite !N.compare_lt_iff. apply N.lt_trans.
Qed.

Lemma string_compare_refl (s : string) : String.compare s s = Eq.
Proof.
  induction s as [|c s IH]; simpl; [done|].
  by rewrite ascii_compare_refl.
Qed.

Lemma string_compare_lt_trans (a b c : string) :
  String.compare a b = Lt -> String.compare b c = Lt -> String.compare a c = Lt.
Proof.
  revert b c. induction a as [|x a IH]; intros [|y b] [|z c]; simpl; try done.
  destruct (Ascii.compare x y) eqn:Hxy; try done;
    destruct (Ascii.compare y z) eqn:Hyz; try done; intros H1 H2.
  - apply Ascii.compare_eq_iff in Hxy, Hyz. subst.
    rewrite ascii_compare_refl. eauto.
  - apply Ascii.compare_eq_iff in Hxy. subst. by rewrite Hyz.
  - apply Ascii.compare_eq_iff in Hyz. subst. by rewrite Hxy.
  - by rewrite (ascii_compare_lt_trans x y z).
Qed.

Lemma seq_compare_refl (a : list string) : seq_compare a a = Eq.
Proof.
  induction a as [|x a IH]; simpl; [done|].
  by rewrite string_compare_refl.
Qed.

Lemma seq_compare_eq (a b : list string) : seq_compare a b = Eq -> a = b.
Proof.
  revert b. induction a as [|x a IH]; intros [|y b]; simpl; try done.
  destruct (String.compare x y) eqn:Hxy; try done.
  apply String.compare_eq_iff in Hxy. intros H. f_equal; auto.
Qed.

Lemma seq_compare_antisym (a b : list string) :
  seq_compare a b = CompOpp (seq_compare b a).
Proof.
  revert b. induction a as [|x a IH]; intros [|y b]; simpl; try done.
  rewrite (String.compare_antisym y x).
  destruct (String.compare x y); simpl; auto.
Qed.

Lemma seq_compare_lt_trans (a b c : list string) :
  seq_compare a b = Lt -> seq_compare b c = Lt -> seq_compare a c = Lt.
Proof.
  revert b c. induction a as [|x a IH]; intros [|y b] [|z c]; simpl; try done.
  destruct (String.compare x y) eqn:Hxy; try done;
    destruct (String.compare y z) eqn:Hyz; try done; intros H1 H2.
  - apply String.compare_eq_iff in Hxy, Hyz. subst.
    rewrite string_compare_refl. eauto.
  - apply String.compare_eq_iff in Hxy. subst. by rewrite Hyz.
  - apply String.compare_eq_iff in Hyz. subst. by rewrite Hxy.
  - by rewrite (string_compare_lt_trans x y z).
Qed.

Lemma seq_compare_app (p a b : list string) :
  seq_compare (p ++ a) (p ++ b) = seq_compare a b.
Proof.
  induction p as [|x p IH]; simpl; [done|].
  by rewrite string_compare_refl.
Qed.

Lemma seq_leb_total (a b : list string) : seq_leb a b = false -> seq_leb b a = true.
Proof.
  unfold seq_leb. rewrite (seq_compare_antisym b a).
  by destruct (seq_compare a b).
Qed.

Lemma seq_leb_trans (a b c : list string) :
  seq_leb a b = true -> seq_leb b c = true -> seq_leb a c = true.
Proof.
  unfold seq_leb.
  destruct (seq_compare a b) eqn:Hab; try done;
    destruct (seq_compare b c) eqn:Hbc; try done; intros _ _.
  - apply seq_compare_eq in Hab, Hbc. subst. by rewrite seq_compare_refl.
  - apply seq_compare_eq in Hab. subst. by rewrite Hbc.
  - apply seq_compare_eq in Hbc. subst. by rewrite Hab.
  - by rewrite (seq_compare_lt_trans a b c).
Qed.

Lemma seq_ltb_not_leb (a b : list string) : seq_ltb a b = true -> seq_leb b a = false.
Proof.
  unfold seq_ltb, seq_leb. rewrite (seq_compare_antisym b a).
  by destruct (seq_compare a b).
Qed.

End OrderFacts.

(** ** Python's stable sort *)

Section SortFacts.
Import Text.
Context {A : Type} (le : A -> A -> bool).

Lemma insert_sorted_perm (x : A) (l : list A) : insert_sorted le x l ≡ₚ x :: l.
Proof.
  induction l as [|y l IH]; simpl; [done|].
  destruct (le x y); [done|].
  rewrite IH. apply Permutation_swap.
Qed.

Lemma sorted_perm (l : list A) : sorted le l ≡ₚ l.
Proof.
  induction l as [|x l IH]; simpl; [done|].
  rewrite insert_sorted_perm. by f_equiv.
Qed.

Lemma elem_of_sorted (x : A) (l : list A) : x ∈ sorted le l <-> x ∈ l.
Proof. by rewrite sorted_perm. Qed.

Lemma length_sorted (l : list A) : length (sorted le l) = length l.
Proof. by rewrite sorted_perm. Qed.

Hypothesis le_total : forall x y, le x y = false -> le y x = true.
Hypothesis le_trans : forall x y z, le x y = true -> le y z = true -> le x z = true.

Lemma insert_sorted_sorted (x : A) (l : list A) :
  StronglySorted (fun a b => le a b = true) l ->
  StronglySorted (fun a b => le a b = true) (insert_sorted le x l).
Proof.
  induction 1 as [|y l Hl IH Hy]; simpl.
  - repeat constructor.
  - destruct (le x y) eqn:Hxy.
    + constructor; [by constructor|].
      constructor; [done|].
      eapply Forall_impl; [exact Hy|]. intros z Hz. by eapply le_trans.
    + constructor; [done|].
      rewrite insert_sorted_perm. constructor; [by apply le_total|done].
Qed.

Lemma sorted_sorted (l : list A) :
  StronglySorted (fun a b => le a b = true) (sorted le l).
Proof.
  induction l as [|x l IH]; simpl; [constructor|].
  by apply insert_sorted_sorted.
Qed.

Lemma strongly_sorted_lookup (l : list A) (i j : nat) (a b : A) :
  StronglySorted (fun a b => le a b = true) l ->
  l !! i = Some a -> l !! j = Some b -> i < j -> le a b = true.
Proof.
  intros Hl. revert i j. induction Hl as [|x l Hl IH Hx]; intros i j Hi Hj Hij.
  - done.
  - destruct j as [|j]; [lia|]. destruct i as [|i]; simpl in *.
    + injection Hi as ->. rewrite Forall_forall in Hx.
      apply Hx. by eapply list_elem_of_lookup_2.
    + eapply IH; eauto. lia.
Qed.
End SortFacts.

(** ** The tree builder *)

Import Text Gaz OrderFacts.

Section CreateChild.
Context (ds : list Division) (node : nat) (nm : string) (rid : nat).
Hypothesis node_lt : node < length ds.

Let c := length ds.
Let child : Division :=
  {| name := nm; path := path (get ds node) ++ [nm]; children := []; row := rid |}.
Let ds' := alter (append_child c) node (ds ++ [child]).

Lemma create_length : length ds' = S (length ds).
Proof. unfold ds'. rewrite length_alter, length_app. simpl. lia. Qed.

Lemma create_get_new : get ds' c = child.
Proof.
  unfold get, ds'. rewrite list_lookup_alter_ne by (unfold c; lia).
  rewrite lookup_app_r by (unfold c; lia).
  replace (c - length ds) with 0 by (unfold c; lia). done.
Qed.

Lemma create_get_node : get ds' node = append_child c (get ds node).
Proof.
  unfold get, ds'. rewrite list_lookup_alter_eq.
  rewrite lookup_app_l by done.
  destruct (lookup_lt_is_Some_2 ds node node_lt) as [d Hd]. by rewrite Hd.
Qed.

Lemma create_get_other (x : nat) : x ≠ node -> x ≠ c -> get ds' x = get ds x.
Proof.
  intros Hx Hc. unfold get, ds'. rewrite list_lookup_alter_ne by done.
  destruct (decide (x < length ds)) as [Hlt|Hge].
  - by rewrite lookup_app_l.
  - rewrite lookup_ge_None_2 by (rewrite length_app; simpl; unfold c in Hc; lia).
    by rewrite lookup_ge_None_2 by lia.
Qed.

Lemma create_name (x : nat) : x ≠ c -> name (get ds' x) = name (get ds x).
Proof.
  intros Hc. destruct (decide (x = node)) as [->|Hx].
  - by rewrite create_get_node.
  - by rewrite create_get_other.
Qed.

Lemma create_path (x : nat) : x ≠ c -> path (get ds' x) = path (get ds x).
Proof.
  intros Hc. destruct (decide (x = node)) as [->|Hx].
  - by rewrite create_get_node.
  - by rewrite create_get_other.
Qed.

Lemma create_children (x : nat) :
  children (get ds' x) =
    if decide (x = node) then children (get ds node) ++ [c]
    else if decide (x = c) then [] else children (get ds x).
Proof.
  destruct (decide (x = node)) as [->|Hx].
  - by rewrite create_get_node.
  - destruct (decide (x = c)) as [->|Hc].
    + by rewrite create_get_new.
    + by rewrite create_get_other.
Qed.

Lemma create_grows : grows ds ds'.
Proof.
  intros id d Hd. pose proof (lookup_lt_Some _ _ _ Hd) as Hlt.
  unfold ds'. destruct (decide (id = node)) as [->|Hne].
  - exists (append_child c d). split.
    + rewrite list_lookup_alter_eq. by rewrite lookup_app_l, Hd.
    + repeat split; simpl; try done. by apply prefix_app_r.
  - exists d. split.
    + rewrite list_lookup_alter_ne by done. by rewrite lookup_app_l.
    + repeat split; done.
Qed.
End CreateChild.

Lemma find_child_None ds node nm leaf c :
  find_child ds node nm leaf = None -> leaf = false ->
  c ∈ children (get ds node) -> name (get ds c) ≠ nm.
Proof.
  unfold find_child. intros Hf -> Hc Hn.
  apply list_elem_of_In in Hc.
  pose proof (find_none _ _ Hf c Hc) as H. simpl in H.
  by rewrite bool_decide_eq_false in H.
Qed.

Lemma find_child_Some ds node nm leaf c :
  find_child ds node nm leaf = Some c ->
  c ∈ children (get ds node) /\ name (get ds c) = nm.
Proof.
  unfold find_child. destruct leaf; [done|]. intros Hf.
  apply find_some in Hf as [Hin Hn]. rewrite bool_decide_eq_true in Hn.
  split; [by apply list_elem_of_In|done].
Qed.

Lemma create_child_wf n ds dl node i nm rid :
  wf n ds dl -> node < length ds -> length (path (get ds node)) = i -> i < n ->
  find_child ds node nm (bool_decide (S i = n)) = None ->
  wf n (create_child ds dl node i nm rid).1.2 (create_child ds dl node i nm rid).2.
Proof.
  intros [[Hlen Hroot] Hchild Hnodup Hlisted Hlists Hdl Hparent Hpaths] Hnode Hi Hin Hfind.
  unfold create_child; simpl.
  set (c := length ds).
  set (child := {| name := nm; path := path (get ds node) ++ [nm];
                   children := []; row := rid |}).
  set (ds' := alter (append_child c) node (ds ++ [child])).
  assert (Hlen' : length ds' = S (length ds)) by by apply create_length.
  assert (Hnew : get ds' c = child) by by apply create_get_new.
  assert (Hname : forall x, x ≠ c -> name (get ds' x) = name (get ds x))
    by (intros; by apply create_name).
  assert (Hpath : forall x, x ≠ c -> path (get ds' x) = path (get ds x))
    by (intros; by apply create_path).
  assert (Hch : forall x, children (get ds' x) =
      if decide (x = node) then children (get ds node) ++ [c]
      else if decide (x = c) then [] else children (get ds x))
    by (intros; by apply create_children).
  assert (Hcn : c ≠ node) by (unfold c; lia).
  split.
  - split; [lia|]. rewrite Hpath by (unfold root_id, c; lia). done.
  - intros p x. rewrite Hch. destruct (decide (p = node)) as [->|Hp].
    + rewrite elem_of_app, list_elem_of_singleton. intros [Hx| ->].
      * destruct (Hchild _ _ Hx) as [Hr Hpx].
        split; [lia|]. rewrite !Hpath, Hname by (unfold c; lia). done.
      * split; [unfold c; lia|]. rewrite Hnew, Hpath by done. done.
    + destruct (decide (p = c)) as [->|Hpc]; [by rewrite elem_of_nil|].
      intros Hx. destruct (Hchild _ _ Hx) as [Hr Hpx].
      split; [lia|]. rewrite !Hpath, Hname by (unfold c; lia). done.
  - intros p. rewrite Hch. destruct (decide (p = node)) as [->|Hp].
    + rewrite Hpath by done. intros Hlt.
      rewrite fmap_app. apply NoDup_app. split; [|split].
      * erewrite list_fmap_ext; [apply Hnodup; done|].
        intros k x Hx. simpl. apply Hname.
        apply list_elem_of_lookup_2, Hchild in Hx. unfold c. lia.
      * intros x Hx. simpl. rewrite Hnew. simpl.
        rewrite list_elem_of_singleton. intros ->.
        apply list_elem_of_fmap in Hx as (y & Hy & Hyin).
        assert (y ≠ c) by (apply Hchild in Hyin; unfold c; lia).
        rewrite Hname in Hy by done.
        eapply find_child_None; [exact Hfind| |exact Hyin|done].
        rewrite bool_decide_eq_false. lia.
      * simpl. apply NoDup_singleton.
    + destruct (decide (p = c)) as [->|Hpc]; [intros; constructor|].
      rewrite Hpath by done. intros Hlt.
      erewrite list_fmap_ext; [apply Hnodup; done|].
      intros k x Hx. simpl. apply Hname.
      apply list_elem_of_lookup_2, Hchild in Hx. unfold c. lia.
  - intros id Hid. destruct (decide (id = c)) as [->|Hidc].
    + rewrite Hnew. simpl. exists i.
      destruct (lookup_lt_is_Some_2 dl i) as [l Hl]; [lia|].
      exists (l ++ [c]). split; [rewrite length_app; simpl; lia|]. split.
      * by rewrite list_lookup_alter_eq, Hl.
      * apply elem_of_app. right. by apply list_elem_of_singleton.
    + destruct (Hlisted id) as (j & l & Hj & Hl & Hidl); [lia|].
      rewrite Hpath by done. exists j.
      destruct (decide (i = j)) as [->|Hij].
      * exists (l ++ [c]). split; [done|]. split; [|apply elem_of_app; by left].
        by rewrite list_lookup_alter_eq, Hl.
      * exists l. split; [done|]. split; [|done].
        by rewrite list_lookup_alter_ne.
  - intros j l id Hl Hid.
    destruct (decide (i = j)) as [->|Hij].
    + rewrite list_lookup_alter_eq in Hl.
      destruct (dl !! j) as [l0|] eqn:Hl0; [|done]. simpl in Hl.
      injection Hl as <-. apply elem_of_app in Hid as [Hid|Hid].
      * destruct (Hlists _ _ _ Hl0 Hid) as [Hr Hp].
        split; [lia|]. rewrite Hpath by (unfold c; lia). done.
      * apply list_elem_of_singleton in Hid as ->.
        split; [unfold c; lia|]. rewrite Hnew. simpl.
        rewrite length_app. simpl. lia.
    + rewrite list_lookup_alter_ne in Hl by done.
      destruct (Hlists _ _ _ Hl Hid) as [Hr Hp].
      split; [lia|]. rewrite Hpath by (unfold c; lia). done.
  - by rewrite length_alter.
  - intros id Hid. destruct (decide (id = c)) as [->|Hidc].
    + exists node. rewrite Hch, decide_True by done.
      apply elem_of_app. right. by apply list_elem_of_singleton.
    + destruct (Hparent id) as [q Hq]; [lia|]. exists q. rewrite Hch.
      destruct (decide (q = node)) as [->|Hqn]; [apply elem_of_app; by left|].
      destruct (decide (q = c)) as [->|Hqc]; [|done].
      unfold get in Hq. rewrite lookup_ge_None_2 in Hq by (unfold c; lia).
      by apply elem_of_nil in Hq.
  - intros j l Hl Hj.
    assert (Hold : forall l0, dl !! j = Some l0 ->
              (fun id => path (get ds' id)) <$> l0 = (fun id => path (get ds id)) <$> l0).
    { intros l0 Hl0. apply list_fmap_ext. intros k x Hx. simpl. apply Hpath.
      apply list_elem_of_lookup_2 in Hx. apply (Hlists _ _ _ Hl0) in Hx. unfold c. lia. }
    destruct (decide (i = j)) as [->|Hij].
    + rewrite list_lookup_alter_eq in Hl.
      destruct (dl !! j) as [l0|] eqn:Hl0; [|done]. simpl in Hl. injection Hl as <-.
      rewrite fmap_app, (Hold l0) by done. apply NoDup_app. split; [|split].
      * by eapply Hpaths.
      * intros x Hx. simpl. rewrite Hnew. simpl. rewrite list_elem_of_singleton.
        intros ->. apply list_elem_of_fmap in Hx as (b & Hb & Hbl).
        destruct (Hlists _ _ _ Hl0 Hbl) as [Hbr Hblen].
        destruct (Hparent b Hbr) as [q Hq].
        destruct (Hchild _ _ Hq) as [_ Hbp].
        rewrite Hbp in Hb. apply app_inj_tail in Hb as [Hqp Hbn].
        assert (Hqlt : q < length ds).
        { destruct (decide (q < length ds)) as [|Hge]; [done|].
          unfold get in Hq. rewrite lookup_ge_None_2 in Hq by lia.
          by apply elem_of_nil in Hq. }
        assert (q = node) as ->; [|eapply find_child_None;
          [exact Hfind|rewrite bool_decide_eq_false; lia|exact Hq|done]].
        assert (Hql : length (path (get ds q)) = length (path (get ds node)))
          by by rewrite <- Hqp.
        assert (Hroot0 : length (path (get ds 0)) = 0)
          by exact (f_equal length Hroot).
        destruct (decide (q = 0)) as [->|Hq0];
          destruct (decide (node = 0)) as [->|Hn0]; [done| | |].
        -- destruct (Hlisted node) as (m & ? & Hm & _); [lia|]. lia.
        -- destruct (Hlisted q) as (m & ? & Hm & _); [lia|]. lia.
        -- destruct (Hlisted q) as (m & lq & Hm & Hlq & Hqin); [lia|].
           destruct (Hlisted node) as (m' & ln & Hm' & Hln & Hnin); [lia|].
           assert (m' = m) as -> by lia. assert (ln = lq) as -> by congruence.
           assert (Hnd : NoDup ((fun id => path (get ds id)) <$> lq)).
           { eapply Hpaths; [exact Hlq|lia]. }
           apply list_elem_of_lookup in Hqin as [kq Hkq].
           apply list_elem_of_lookup in Hnin as [kn Hkn].
           assert (kq = kn) as ->; [|congruence].
           eapply NoDup_lookup; [exact Hnd| |].
           ++ by rewrite list_lookup_fmap, Hkq.
           ++ rewrite list_lookup_fmap, Hkn. simpl. congruence.
      * simpl. apply NoDup_singleton.
    + rewrite list_lookup_alter_ne in Hl by done.
      rewrite (Hold l) by done. by eapply Hpaths.
Qed.

Lemma div_le_refl d : div_le d d.
Proof. repeat split; done. Qed.

Lemma div_le_trans d1 d2 d3 : div_le d1 d2 -> div_le d2 d3 -> div_le d1 d3.
Proof.
  intros (?&?&?&?) (?&?&?&?). repeat split; try congruence.
  by etrans.
Qed.

Lemma grows_refl ds : grows ds ds.
Proof. intros id d Hd. exists d. split; [done|apply div_le_refl]. Qed.

Lemma grows_trans ds1 ds2 ds3 : grows ds1 ds2 -> grows ds2 ds3 -> grows ds1 ds3.
Proof.
  intros H12 H23 id d Hd.
  destruct (H12 _ _ Hd) as (d2 & Hd2 & Hle2).
  destruct (H23 _ _ Hd2) as (d3 & Hd3 & Hle3).
  exists d3. split; [done|by eapply div_le_trans].
Qed.

Lemma descend_wf n names : forall i node ds dl rid,
  wf n ds dl -> node < length ds -> length (path (get ds node)) = i ->
  i + length names = n ->
  wf n (descend n i names rid node ds dl).1 (descend n i names rid node ds dl).2
  /\ grows ds (descend n i names rid node ds dl).1.
Proof.
  induction names as [|nm rest IH]; intros i node ds dl rid Hwf Hnode Hi Hn; simpl.
  - split; [done|apply grows_refl].
  - destruct (is_empty (normalize_name nm)); [split; [done|apply grows_refl]|].
    simpl in Hn.
    destruct (find_child ds node (normalize_name nm) (bool_decide (S i = n)))
      as [c|] eqn:Hfind.
    + apply find_child_Some in Hfind as [Hc _].
      destruct (wf_child _ _ _ Hwf _ _ Hc) as [Hr Hp].
      apply IH; [done|lia| |lia].
      rewrite Hp, length_app, Hi. simpl. lia.
    + pose proof (create_child_wf n ds dl node i (normalize_name nm) rid
                    Hwf Hnode Hi ltac:(lia) Hfind) as Hwf'.
      pose proof (create_grows ds node (normalize_name nm) rid) as Hg.
      unfold create_child in *. simpl in *.
      edestruct IH as [Hwf'' Hg'']; [exact Hwf'| | | |split; [exact Hwf''|]].
      * rewrite length_alter, length_app. simpl. lia.
      * rewrite create_get_new by done. simpl. rewrite length_app, Hi. simpl. lia.
      * lia.
      * by eapply grows_trans.
Qed.

Lemma row_names_length levels r names :
  row_names levels r = Ok names -> length names = length levels.
Proof.
  revert names. induction levels as [|lv ls IH]; intros names; simpl.
  - by intros [= <-].
  - destruct (level_value r lv) as [v|e]; simpl; [|done].
    destruct (row_names ls r) as [vs|e]; simpl; [|done].
    intros [= <-]. simpl. by rewrite (IH vs).
Qed.

Lemma read_row_wf levels r st dl st' dl' :
  wf (length levels) (divs st) dl ->
  read_row levels r st dl = Ok (st', dl') ->
  wf (length levels) (divs st') dl' /\ grows (divs st) (divs st').
Proof.
  intros Hwf. unfold read_row.
  destruct (row_names levels r) as [names|e] eqn:Hnames; simpl; [|done].
  destruct (descend_wf (length levels) names 0 root_id (divs st) dl
              (length (heap st)) Hwf) as [Hwf' Hg].
  - apply Hwf.
  - by rewrite (proj2 (wf_root _ _ _ Hwf)).
  - by rewrite (row_names_length _ _ _ Hnames).
  - destruct (descend _ _ _ _ _ _ _) as [ds1 dl1]. by intros [= <- <-].
Qed.

Lemma read_rows_wf levels rows : forall st dl st' dl',
  wf (length levels) (divs st) dl ->
  read_rows levels rows st dl = Ok (st', dl') ->
  wf (length levels) (divs st') dl' /\ grows (divs st) (divs st').
Proof.
  induction rows as [|r rs IH]; intros st dl st' dl' Hwf; simpl.
  - intros [= <- <-]. split; [done|apply grows_refl].
  - destruct (read_row levels r st dl) as [[st1 dl1]|e] eqn:Hrow; simpl; [|done].
    destruct (read_row_wf _ _ _ _ _ _ Hwf Hrow) as [Hwf1 Hg1].
    intros Hrest. destruct (IH _ _ _ _ Hwf1 Hrest) as [Hwf2 Hg2].
    split; [done|by eapply grows_trans].
Qed.

Lemma initial_wf n : wf n (divs initial_store) (replicate n []).
Proof.
  split; simpl.
  - split; [lia|done].
  - intros p c. destruct p as [|[|p]]; unfold get; simpl; by rewrite elem_of_nil.
  - intros p _. destruct p as [|[|p]]; unfold get; simpl; constructor.
  - intros id. lia.
  - intros i l id Hl. apply lookup_replicate in Hl as [-> _]. by rewrite elem_of_nil.
  - by rewrite length_replicate.
  - intros id. lia.
  - intros i l Hl _. apply lookup_replicate in Hl as [-> _]. constructor.
Qed.

Lemma read_divisions_wf rows levels st dl :
  read_divisions initial_store rows levels = Ok (st, dl) ->
  wf (length levels) (divs st) dl.
Proof.
  intros H. eapply read_rows_wf; [|exact H]. apply initial_wf.
Qed.

(** ** The sorter and numberer *)

Lemma number_divisions_keeps ds ids : forall j idx p,
  is_Some (idx !! p) -> is_Some (number_divisions ds j ids idx !! p).
Proof.
  induction ids as [|d rest IH]; intros j idx p Hp; simpl; [done|].
  apply IH. destruct (decide (path (get ds d) = p)) as [->|Hne].
  - rewrite lookup_insert_eq. eauto.
  - by rewrite lookup_insert_ne.
Qed.

Lemma number_divisions_covers ds ids : forall j idx id,
  id ∈ ids -> is_Some (number_divisions ds j ids idx !! path (get ds id)).
Proof.
  induction ids as [|d rest IH]; intros j idx id Hid; simpl.
  - by apply elem_of_nil in Hid.
  - apply elem_of_cons in Hid as [->|Hid]; [|by apply IH].
    apply number_divisions_keeps. rewrite lookup_insert_eq. eauto.
Qed.

Lemma sort_and_number_loop_spec ds dls : forall acc idx,
  (sort_and_number_loop ds dls acc idx).1 = acc ++ (sort_divisions ds <$> dls)
  /\ (forall p, is_Some (idx !! p) ->
        is_Some ((sort_and_number_loop ds dls acc idx).2 !! p))
  /\ (forall l id, l ∈ dls -> id ∈ l ->
        is_Some ((sort_and_number_loop ds dls acc idx).2 !! path (get ds id))).
Proof.
  induction dls as [|l0 rest IH]; intros acc idx; simpl.
  - split; [by rewrite app_nil_r|]. split; [done|].
    intros l id Hl. by apply elem_of_nil in Hl.
  - destruct (IH (acc ++ [sort_divisions ds l0])
                (number_divisions ds 0 (sort_divisions ds l0) idx)) as (H1 & H2 & H3).
    split; [by rewrite H1, <- app_assoc|]. split.
    + intros p Hp. by apply H2, number_divisions_keeps.
    + intros l id Hl Hid. apply elem_of_cons in Hl as [->|Hl]; [|by eapply H3].
      apply H2, number_divisions_covers.
      unfold sort_divisions, sort_divisions_by. by apply elem_of_sorted.
Qed.

(** ** The renderer and the rank index *)

Lemma leaf_template_no_index_error r : no_index_error (LEAF_ITEM_TEMPLATE r).
Proof.
  intros p. unfold LEAF_ITEM_TEMPLATE, leaf_cells, row_index.
  repeat (match goal with |- context [?m !! ?k] => destruct (m !! k) end; simpl; try done).
Qed.

(** The fix-up raises nothing but [AttributeError]. *)
Lemma fix_up_row_error r e : fix_up_row r = Raise e -> e = AttributeError.
Proof.
  unfold fix_up_row, cell_str.
  destruct (row_get r "ALT_VILLAGE_NAME"); simpl; [|by intros [= <-]].
  destruct (row_get r "HISTORICAL_NAME"); simpl; [|by intros [= <-]].
  destruct (row_get _ "CHIEF_NAME"); simpl; [done|by intros [= <-]].
Qed.

Lemma fix_up_division_error d hp e :
  fix_up_division d hp = Raise e -> e = AttributeError.
Proof.
  unfold fix_up_division. destruct (hp !! row d) as [r|]; [|done].
  destruct (fix_up_row r) as [r'|e'] eqn:Hr; simpl; [done|].
  intros [= <-]. by eapply fix_up_row_error.
Qed.

Section Render.
Context (ds : list Division) (indexes : gmap (list string) nat).

Lemma render_item_no_index_error leaf child_level c hp :
  covered ds indexes c -> no_index_error (render_item ds indexes leaf child_level c hp).
Proof.
  intros [j Hj] p. unfold render_item.
  destruct (fix_up_division (get ds c) hp) as [hp'|e] eqn:Hf; simpl.
  2: { apply fix_up_division_error in Hf as ->. done. }
  unfold index_of. rewrite Hj. simpl.
  destruct leaf; [|done].
  pose proof (leaf_template_no_index_error (default ∅ (hp' !! row (get ds c))) p) as H.
  destruct (LEAF_ITEM_TEMPLATE _); simpl; [done|congruence].
Qed.

Lemma render_items_no_index_error leaf child_level cs : forall hp,
  (forall c, c ∈ cs -> covered ds indexes c) ->
  no_index_error (render_items ds indexes leaf child_level cs hp).
Proof.
  induction cs as [|c rest IH]; intros hp Hcs p; simpl; [done|].
  pose proof (render_item_no_index_error leaf child_level c hp
                (Hcs c ltac:(by left)) p) as Hc.
  destruct (render_item _ _ _ _ _ _) as [[hp1 item]|e]; simpl; [|congruence].
  pose proof (IH hp1 (fun x Hx => Hcs x ltac:(by right)) p) as Hr.
  destruct (render_items _ _ _ _ _ _) as [[hp2 items]|e]; simpl; [done|congruence].
Qed.

Lemma render_page_no_index_error levels leaf level child_level d hp :
  covered ds indexes d -> (forall c, c ∈ children (get ds d) -> covered ds indexes c) ->
  no_index_error (render_page levels ds indexes leaf level child_level d hp).
Proof.
  intros [j Hj] Hcs p. unfold render_page.
  assert (Hi : no_index_error (render_items ds indexes leaf child_level
                (sort_divisions ds (children (get ds d))) hp)).
  { apply render_items_no_index_error. intros c Hc. apply Hcs.
    unfold sort_divisions, sort_divisions_by in Hc. by apply elem_of_sorted in Hc. }
  specialize (Hi p).
  destruct (render_items _ _ _ _ _ _) as [[hp1 items]|e]; simpl; [|congruence].
  unfold index_of. rewrite Hj. done.
Qed.

Lemma render_pages_no_index_error levels leaf level child_level divisions : forall hp,
  (forall d, d ∈ divisions -> covered ds indexes d /\ forall c, c ∈ children (get ds d) -> covered ds indexes c) ->
  no_index_error (render_pages levels ds indexes leaf level child_level divisions hp).
Proof.
  induction divisions as [|d rest IH]; intros hp Hds p; simpl; [done|].
  destruct (Hds d ltac:(by left)) as [Hd Hc].
  pose proof (render_page_no_index_error levels leaf level child_level d hp Hd Hc p) as Hp.
  destruct (render_page _ _ _ _ _ _ _ _) as [[hp1 page]|e]; simpl; [|congruence].
  pose proof (IH hp1 (fun x Hx => Hds x ltac:(by right)) p) as Hr.
  destruct (render_pages _ _ _ _ _ _ _ _) as [[hp2 pages]|e]; simpl; [done|congruence].
Qed.

Lemma render_levels_no_index_error all_levels levels : forall i leaf child_levels dls hp,
  (forall l d, l ∈ dls -> d ∈ l ->
     covered ds indexes d /\ forall c, c ∈ children (get ds d) -> covered ds indexes c) ->
  no_index_error
    (render_levels all_levels ds indexes i leaf levels child_levels dls hp).
Proof.
  induction levels as [|level ls IH]; intros i leaf child_levels dls hp Hdls p;
    simpl; [done|].
  destruct child_levels as [|child_level cls]; [done|].
  destruct dls as [|divisions rest]; [done|].
  pose proof (render_pages_no_index_error all_levels
                (leaf || bool_decide (S (S i) = length all_levels))
                level child_level divisions hp
                (fun d Hd => Hdls divisions d ltac:(by left) Hd) p) as Hp.
  destruct (render_pages _ _ _ _ _ _ _ _) as [[hp1 pages]|e]; simpl; [|congruence].
  pose proof (IH (S i) (leaf || bool_decide (S (S i) = length all_levels)) cls rest hp1
                (fun l d Hl Hd => Hdls l d ltac:(by right) Hd) p) as Hr.
  destruct (render_levels _ _ _ _ _ _ _ _ _) as [[hp2 more]|e]; simpl; [done|congruence].
Qed.
End Render.

(** C10.  After [main] has built, sorted and numbered the divisions of any
    input: every division other than the root is on the list of its level;
    the rank index has an entry for the path of every such division; and
    the renderer, whatever else it does, never fails on a lookup in the
    rank index. *)
Theorem rank_index_total rows levels o :
  build rows levels = Ok o ->
  (forall id, 0 < id < length (divs (out_store o)) ->
     exists i l, length (path (get (divs (out_store o)) id)) = S i
                 /\ out_lists o !! i = Some l /\ id ∈ l)
  /\ (forall id, 0 < id < length (divs (out_store o)) ->
        is_Some (out_indexes o !! path (get (divs (out_store o)) id)))
  /\ (forall p, write_gazetteer (out_store o) levels (out_lists o) (out_indexes o)
                ≠ Raise (IndexKeyError p)).
Proof.
  unfold build, build_on.
  destruct (read_divisions initial_store rows levels) as [[st dl]|e] eqn:Hread;
    simpl; [|done].
  pose proof (read_divisions_wf _ _ _ _ Hread) as Hwf.
  unfold sort_and_number_divisions.
  destruct (sort_and_number_loop_spec (divs st) dl [] ∅) as (H1 & _ & H3).
  destruct (sort_and_number_loop (divs st) dl [] ∅) as [sl idx]. simpl in *.
  intros [= <-]. simpl. subst sl.
  assert (Hcov : forall id, 0 < id < length (divs st) ->
            is_Some (idx !! path (get (divs st) id))).
  { intros id Hid. destruct (wf_listed _ _ _ Hwf id Hid) as (i & l & _ & Hl & Hin).
    eapply H3; [|exact Hin]. by eapply list_elem_of_lookup_2. }
  split; [|split; [done|]].
  - intros id Hid. destruct (wf_listed _ _ _ Hwf id Hid) as (i & l & Hp & Hl & Hin).
    exists i, (sort_divisions (divs st) l). split; [done|]. split.
    + by rewrite list_lookup_fmap, Hl.
    + unfold sort_divisions, sort_divisions_by. by apply elem_of_sorted.
  - intros p. unfold write_gazetteer.
    assert (Hr : no_index_error (render_levels levels (divs st) idx 0 false levels
                  (tail levels) (sort_divisions (divs st) <$> dl) (heap st))).
    2: { specialize (Hr p).
         destruct (render_levels _ _ _ _ _ _ _ _ _) as [[hp pages]|e]; simpl;
           [done|congruence]. }
    apply render_levels_no_index_error. intros l d Hl Hd.
    apply list_elem_of_fmap in Hl as (l0 & -> & Hl0).
    unfold sort_divisions, sort_divisions_by in Hd. apply elem_of_sorted in Hd.
    apply list_elem_of_lookup in Hl0 as [i Hi].
    destruct (wf_lists _ _ _ Hwf _ _ _ Hi Hd) as [Hr' _].
    split; [by apply Hcov|].
    intros c Hc. apply Hcov. by apply (wf_child _ _ _ Hwf) in Hc as [? _].
Qed.

Lemma rank_index_total_witness :
  exists o,
    build [record "A" "X" "P" "v1"; record "A" "Y" "Q" "v2"] DEFAULT_LEVELS = Ok o
    /\ (forall id, 0 < id < length (divs (out_store o)) ->
          exists i l, length (path (get (divs (out_store o)) id)) = S i
                      /\ out_lists o !! i = Some l /\ id ∈ l)
    /\ (forall id, 0 < id < length (divs (out_store o)) ->
          is_Some (out_indexes o !! path (get (divs (out_store o)) id)))
    /\ (forall p, write_gazetteer (out_store o) DEFAULT_LEVELS (out_lists o) (out_indexes o)
                  ≠ Raise (IndexKeyError p)).
Proof.
  destruct (build [record "A" "X" "P" "v1"; record "A" "Y" "Q" "v2"] DEFAULT_LEVELS)
    as [o|e] eqn:H; [|vm_compute in H; discriminate].
  exists o. split; [done|].
  exact (rank_index_total _ _ _ H).
Defined.

(** ** Merging of non-leaf names *)

Lemma read_rows_app levels rows1 rows2 : forall st dl,
  read_rows levels (rows1 ++ rows2) st dl
  = '(st', dl') ← read_rows levels rows1 st dl; read_rows levels rows2 st' dl'.
Proof.
  induction rows1 as [|r rs IH]; intros st dl; simpl; [done|].
  destruct (read_row levels r st dl) as [[st1 dl1]|e]; simpl; [apply IH|done].
Qed.

Lemma descend_grows n names : forall i node ds dl rid,
  grows ds (descend n i names rid node ds dl).1.
Proof.
  induction names as [|nm rest IH]; intros i node ds dl rid; simpl.
  - apply grows_refl.
  - destruct (is_empty (normalize_name nm)); [apply grows_refl|].
    destruct (find_child _ _ _ _) as [c|]; [apply IH|].
    unfold create_child. simpl.
    eapply grows_trans; [|apply IH]. apply create_grows.
Qed.

Lemma grows_get ds ds' id :
  grows ds ds' -> id < length ds ->
  id < length ds' /\ path (get ds' id) = path (get ds id)
  /\ name (get ds' id) = name (get ds id).
Proof.
  intros Hg Hid. destruct (lookup_lt_is_Some_2 ds id Hid) as [d Hd].
  destruct (Hg id d Hd) as (d' & Hd' & Hn & Hp & _).
  split; [by eapply lookup_lt_Some|]. unfold get. by rewrite Hd, Hd'.
Qed.

(** The descent reaches a division at every level down to which the names
    are not empty. *)
Lemma descend_reaches n rid names : forall i node ds dl pre,
  wf n ds dl -> node < length ds -> length (path (get ds node)) = i ->
  i + length names = n ->
  path (get ds node) = normalize_name <$> pre ->
  forall j, j < length names -> "" ∉ normalize_name <$> take (S j) names ->
  exists id, 0 < id < length (descend n i names rid node ds dl).1
    /\ path (get (descend n i names rid node ds dl).1 id)
       = normalize_name <$> (pre ++ take (S j) names).
Proof.
  induction names as [|nm rest IH]; intros i node ds dl pre Hwf Hnode Hi Hn Hpre j Hj Hne;
    [simpl in Hj; lia|].
  simpl in Hn. cbn [descend].
  assert (Hnm : normalize_name nm ≠ "").
  { intros E. apply Hne. simpl. rewrite E. by left. }
  destruct (is_empty (normalize_name nm)) eqn:Hemp.
  { destruct (normalize_name nm); done. }
  assert (Hstep : forall c ds1 dl1,
            wf n ds1 dl1 -> 0 < c < length ds1 ->
            path (get ds1 c) = normalize_name <$> (pre ++ [nm]) ->
            exists id, 0 < id < length (descend n (S i) rest rid c ds1 dl1).1
              /\ path (get (descend n (S i) rest rid c ds1 dl1).1 id)
                 = normalize_name <$> (pre ++ take (S j) (nm :: rest))).
  { intros c ds1 dl1 Hwf1 Hc Hpc.
    assert (Hlen : length (path (get ds1 c)) = S i).
    { rewrite Hpc, length_fmap, length_app. simpl.
      rewrite Hpre, length_fmap in Hi. lia. }
    destruct j as [|j].
    - exists c. pose proof (descend_grows n rest (S i) c ds1 dl1 rid) as Hg.
      destruct (grows_get _ _ c Hg ltac:(lia)) as (Hlt & Hp & _).
      split; [lia|]. by rewrite Hp, Hpc.
    - destruct (IH (S i) c ds1 dl1 (pre ++ [nm]) Hwf1 ltac:(lia) Hlen ltac:(lia) Hpc j)
        as (id & Hid & Hpath).
      + simpl in Hj. lia.
      + intros Hin. apply Hne. simpl. by right.
      + exists id. split; [done|]. rewrite Hpath. by rewrite <- app_assoc. }
  destruct (find_child ds node (normalize_name nm) (bool_decide (S i = n)))
    as [c|] eqn:Hfind.
  - apply find_child_Some in Hfind as [Hc Hname].
    destruct (wf_child _ _ _ Hwf _ _ Hc) as [Hr Hp].
    apply Hstep; [done|done|]. by rewrite Hp, Hname, Hpre, fmap_app.
  - pose proof (create_child_wf n ds dl node i (normalize_name nm) rid
                  Hwf Hnode Hi ltac:(lia) Hfind) as Hwf'.
    unfold create_child in *. simpl in *.
    set (child := {| name := normalize_name nm;
                     path := path (get ds node) ++ [normalize_name nm];
                     children := []; row := rid |}) in *.
    set (ds' := alter (append_child (length ds)) node (ds ++ [child])) in *.
    assert (Hnew : get ds' (length ds) = child) by by apply create_get_new.
    apply Hstep; [done| |].
    + unfold ds'. rewrite length_alter, length_app. simpl.
      pose proof (proj1 (wf_root _ _ _ Hwf)). lia.
    + rewrite Hnew. simpl. by rewrite Hpre, fmap_app.
Qed.

Lemma reached_grows levels ds ds' r :
  grows ds ds' -> reached levels ds r -> reached levels ds' r.
Proof.
  intros Hg Hr names i Hnames Hi Hne.
  destruct (Hr names i Hnames Hi Hne) as (id & Hid & Hp).
  destruct (grows_get _ _ id Hg ltac:(lia)) as (Hlt & Hp' & _).
  exists id. split; [lia|]. by rewrite Hp'.
Qed.

Lemma read_row_reached levels r st dl st' dl' :
  wf (length levels) (divs st) dl ->
  read_row levels r st dl = Ok (st', dl') ->
  reached levels (divs st') r.
Proof.
  intros Hwf. unfold read_row.
  destruct (row_names levels r) as [names|e] eqn:Hnames; simpl; [|done].
  pose proof (descend_reaches (length levels) (length (heap st)) names 0 root_id
                (divs st) dl [] Hwf (proj1 (wf_root _ _ _ Hwf))
                ltac:(by rewrite (proj2 (wf_root _ _ _ Hwf)))
                ltac:(by rewrite (row_names_length _ _ _ Hnames))
                (proj2 (wf_root _ _ _ Hwf))) as Hd.
  destruct (descend _ _ _ _ _ _ _) as [ds1 dl1]. simpl in Hd.
  intros [= <- <-]. simpl. intros names' i Hn' Hi Hne.
  rewrite Hnames in Hn'. injection Hn' as <-.
  apply Hd; [|done]. by rewrite (row_names_length _ _ _ Hnames).
Qed.

Lemma read_rows_reached levels rows : forall st dl st' dl',
  wf (length levels) (divs st) dl ->
  read_rows levels rows st dl = Ok (st', dl') ->
  forall r, r ∈ rows -> reached levels (divs st') r.
Proof.
  induction rows as [|r rs IH]; intros st dl st' dl' Hwf; simpl.
  - intros _ r Hr. by apply elem_of_nil in Hr.
  - destruct (read_row levels r st dl) as [[st1 dl1]|e] eqn:Hrow; simpl; [|done].
    destruct (read_row_wf _ _ _ _ _ _ Hwf Hrow) as [Hwf1 Hg1].
    intros Hrest r' Hr'. apply elem_of_cons in Hr' as [->|Hr'].
    + destruct (read_rows_wf _ _ _ _ _ _ Hwf1 Hrest) as [_ Hg].
      eapply reached_grows; [exact Hg|]. exact (read_row_reached _ _ _ _ _ _ Hwf Hrow).
    + by eapply IH.
Qed.

(** In a well-formed store the divisions above the last level are told
    apart by their paths. *)
Lemma wf_path_inj n ds dl id id' :
  wf n ds dl -> 0 < id < length ds -> 0 < id' < length ds ->
  length (path (get ds id)) < n ->
  path (get ds id) = path (get ds id') -> id = id'.
Proof.
  intros Hwf Hid Hid' Hlen Hp.
  destruct (wf_listed _ _ _ Hwf id Hid) as (i & l & Hi & Hl & Hin).
  destruct (wf_listed _ _ _ Hwf id' Hid') as (i' & l' & Hi' & Hl' & Hin').
  assert (i' = i) as -> by (rewrite Hp in Hi; lia).
  assert (l' = l) as -> by congruence.
  pose proof (wf_paths _ _ _ Hwf i l Hl ltac:(lia)) as Hnd.
  apply list_elem_of_lookup in Hin as [k Hk].
  apply list_elem_of_lookup in Hin' as [k' Hk'].
  assert (k = k').
  { eapply NoDup_lookup; [exact Hnd| |].
    - by rewrite list_lookup_fmap, Hk.
    - by rewrite list_lookup_fmap, Hk', Hp. }
  subst. congruence.
Qed.

Lemma wf_parent_path n ds dl id p x :
  wf n ds dl -> 0 < id < length ds -> path (get ds id) = p ++ [x] ->
  exists q, id ∈ children (get ds q) /\ path (get ds q) = p.
Proof.
  intros Hwf Hid Hp. destruct (wf_parent _ _ _ Hwf id Hid) as [q Hq].
  exists q. split; [done|].
  destruct (wf_child _ _ _ Hwf _ _ Hq) as [_ Hpath]. rewrite Hp in Hpath.
  by apply app_inj_tail in Hpath as [-> _].
Qed.

(** C5.  After the builder has consumed any sequence of records: the
    children of a division whose children are not at the last level have
    pairwise distinct names; whatever followed the first [rows1] records, a
    division then present has kept its name, its path and its record, its
    children having only been appended to; every record has, at every level
    down to which its names are not empty, a division whose path is these
    names, and that division is a child of one whose path is the names
    above it; and above the last level there is one division per path.  So
    a record that carries the names of an existing division above the last
    level has created no sibling: its deeper names are placed under that
    division. *)
Theorem sibling_names_unique levels rows1 rows2 st1 dl1 st2 dl2 :
  read_divisions initial_store rows1 levels = Ok (st1, dl1) ->
  read_divisions initial_store (rows1 ++ rows2) levels = Ok (st2, dl2) ->
  (forall p i j c1 c2,
     S (length (path (get (divs st2) p))) < length levels ->
     children (get (divs st2) p) !! i = Some c1 ->
     children (get (divs st2) p) !! j = Some c2 ->
     name (get (divs st2) c1) = name (get (divs st2) c2) ->
     i = j)
  /\ grows (divs st1) (divs st2)
  /\ (forall r names i,
        r ∈ rows1 ++ rows2 -> row_names levels r = Ok names -> i < length levels ->
        "" ∉ level_path names i ->
        exists id q,
          0 < id < length (divs st2)
          /\ path (get (divs st2) id) = level_path names i
          /\ id ∈ children (get (divs st2) q)
          /\ path (get (divs st2) q) = normalize_name <$> take i names)
  /\ (forall id id',
        0 < id < length (divs st2) -> 0 < id' < length (divs st2) ->
        length (path (get (divs st2) id)) < length levels ->
        path (get (divs st2) id) = path (get (divs st2) id') -> id = id').
Proof.
  intros H1 H2. pose proof (read_divisions_wf _ _ _ _ H1) as Hwf1.
  pose proof (read_divisions_wf _ _ _ _ H2) as Hwf2.
  split; [|split; [|split]].
  - intros p i j c1 c2 Hp Hi Hj Hn.
    pose proof (wf_nodup _ _ _ Hwf2 p Hp) as Hnd.
    eapply NoDup_lookup; [exact Hnd| |].
    + by rewrite list_lookup_fmap, Hi.
    + by rewrite list_lookup_fmap, Hj, Hn.
  - unfold read_divisions in H1, H2. rewrite read_rows_app, H1 in H2. simpl in H2.
    by eapply read_rows_wf.
  - intros r names i Hr Hnames Hi Hne.
    destruct (read_rows_reached levels (rows1 ++ rows2) initial_store _ st2 dl2
                (initial_wf (length levels)) H2 r Hr names i Hnames Hi Hne)
      as (id & Hid & Hp).
    assert (Hlt : i < length names) by by rewrite (row_names_length _ _ _ Hnames).
    destruct (lookup_lt_is_Some_2 names i Hlt) as [x Hx].
    assert (Hsplit : level_path names i
                     = (normalize_name <$> take i names) ++ [normalize_name x]).
    { unfold level_path. by rewrite (take_S_r _ _ _ Hx), fmap_app. }
    destruct (wf_parent_path _ _ _ id _ _ Hwf2 Hid ltac:(by rewrite Hp, Hsplit))
      as (q & Hq & Hpq).
    by exists id, q.
  - intros id id'. by apply wf_path_inj with dl2.
Qed.

Lemma sibling_names_unique_witness :
  exists st1 dl1 st2 dl2,
    read_divisions initial_store [record "A" "X" "P" "v1"] DEFAULT_LEVELS = Ok (st1, dl1)
    /\ read_divisions initial_store
         ([record "A" "X" "P" "v1"] ++ [record "A" "X" "Q" "v2"]) DEFAULT_LEVELS
       = Ok (st2, dl2)
    /\ (forall p i j c1 c2,
          S (length (path (get (divs st2) p))) < length DEFAULT_LEVELS ->
          children (get (divs st2) p) !! i = Some c1 ->
          children (get (divs st2) p) !! j = Some c2 ->
          name (get (divs st2) c1) = name (get (divs st2) c2) ->
          i = j)
    /\ grows (divs st1) (divs st2)
    /\ (forall r names i,
          r ∈ [record "A" "X" "P" "v1"] ++ [record "A" "X" "Q" "v2"] ->
          row_names DEFAULT_LEVELS r = Ok names -> i < length DEFAULT_LEVELS ->
          "" ∉ level_path names i ->
          exists id q,
            0 < id < length (divs st2)
            /\ path (get (divs st2) id) = level_path names i
            /\ id ∈ children (get (divs st2) q)
            /\ path (get (divs st2) q) = normalize_name <$> take i names)
    /\ (forall id id',
          0 < id < length (divs st2) -> 0 < id' < length (divs st2) ->
          length (path (get (divs st2) id)) < length DEFAULT_LEVELS ->
          path (get (divs st2) id) = path (get (divs st2) id') -> id = id').
Proof.
  destruct (read_divisions initial_store [record "A" "X" "P" "v1"] DEFAULT_LEVELS)
    as [[st1 dl1]|e1] eqn:H1; [|vm_compute in H1; discriminate].
  destruct (read_divisions initial_store
              ([record "A" "X" "P" "v1"] ++ [record "A" "X" "Q" "v2"]) DEFAULT_LEVELS)
    as [[st2 dl2]|e2] eqn:H2; [|vm_compute in H2; discriminate].
  exists st1, dl1, st2, dl2. split; [done|]. split; [done|].
  exact (sibling_names_unique _ _ _ _ _ _ _ H1 H2).
Defined.

(** ** Records with an empty level *)

Lemma descend_stops n names : forall i node ds dl rid m x,
  names !! m = Some x -> normalize_name x = "" ->
  (forall j, i + m <= j -> (descend n i names rid node ds dl).2 !! j = dl !! j)
  /\ length (descend n i names rid node ds dl).1 <= length ds + m.
Proof.
  induction names as [|nm rest IH]; intros i node ds dl rid m x Hm Hx; [done|].
  simpl. destruct m as [|m]; simpl in Hm.
  - injection Hm as ->. rewrite Hx. simpl. split; [done|lia].
  - destruct (is_empty (normalize_name nm)); [simpl; split; [done|lia]|].
    destruct (find_child _ _ _ _) as [c|].
    + destruct (IH (S i) c ds dl rid m x Hm Hx) as [H1 H2].
      split; [|lia]. intros j Hj. apply H1. lia.
    + unfold create_child. simpl.
      destruct (IH (S i) (length ds)
                  (alter (append_child (length ds)) node
                     (ds ++ [{| name := normalize_name nm;
                                path := path (get ds node) ++ [normalize_name nm];
                                children := []; row := rid |}]))
                  (alter (fun l => l ++ [length ds]) i dl) rid m x Hm Hx) as [H1 H2].
      split.
      * intros j Hj. rewrite H1 by lia. apply list_lookup_alter_ne. lia.
      * rewrite length_alter, length_app in H2. simpl in H2. lia.
Qed.

Lemma row_names_lookup levels r :
  (forall lv, lv ∈ levels -> exists v, r !! level_key lv = Some (Some v)) ->
  exists names, row_names levels r = Ok names
    /\ forall k lv, levels !! k = Some lv ->
         exists x, level_value r lv = Ok x /\ names !! k = Some x.
Proof.
  induction levels as [|lv ls IH]; intros Hkeys; cbn [row_names].
  - exists []. split; [done|]. intros k lv Hk. done.
  - destruct IH as (names & Hnames & Hlook).
    { intros lv' Hlv'. apply Hkeys. by right. }
    destruct (Hkeys lv ltac:(by left)) as [v Hv].
    assert (Hlv : level_value r lv
                  = Ok (if is_empty (strip v) then None else Some (strip v))).
    { unfold level_value. by rewrite Hv. }
    rewrite Hlv. simpl. rewrite Hnames. simpl.
    eexists. split; [done|].
    intros [|k] lv' Hk; simpl in *.
    + injection Hk as <-. rewrite Hlv. eauto.
    + by apply Hlook.
Qed.

(** C7, as amended.  A record that has a string in the column of every
    level, and whose value at level [i + 1] is empty after normalization, is
    consumed without an error; the lists of the levels beyond [i] are left
    as they were, at most [i + 1] divisions are created, and the divisions
    that were there are only added to. *)
Theorem empty_level_stops_descent levels r st dl i lv x :
  (forall lv', lv' ∈ levels -> exists v, r !! level_key lv' = Some (Some v)) ->
  levels !! S i = Some lv ->
  level_value r lv = Ok x ->
  normalize_name x = "" ->
  exists st' dl',
    read_row levels r st dl = Ok (st', dl')
    /\ (forall j, i < j -> dl' !! j = dl !! j)
    /\ length (divs st') <= length (divs st) + S i
    /\ grows (divs st) (divs st').
Proof.
  intros Hkeys Hlv Hval Hx.
  destruct (row_names_lookup levels r Hkeys) as (names & Hnames & Hlook).
  destruct (Hlook _ _ Hlv) as (x' & Hval' & Hnm).
  assert (x' = x) as -> by congruence.
  unfold read_row. rewrite Hnames. simpl.
  pose proof (descend_stops (length levels) names 0 root_id (divs st) dl
                (length (heap st)) (S i) x Hnm Hx) as [H1 H2].
  pose proof (descend_grows (length levels) names 0 root_id (divs st) dl
                (length (heap st))) as Hg.
  destruct (descend _ _ _ _ _ _ _) as [ds1 dl1]. simpl in *.
  eexists _, _. split; [done|]. simpl. split; [|done].
  intros j Hj. apply H1. lia.
Qed.

(** C7, counterexample.  The line [A] of a file with the header
    [loc_adm1,loc_adm2] is too short for the second column: the record has a
    value at the first level and an absent one ([None]) at the second, and
    the builder raises [AttributeError]. *)
Lemma absent_value_raises :
  read_divisions initial_store
    [ <["loc_adm1" := Some "A"]> {[ "loc_adm2" := None ]} ] two_levels
  = Raise AttributeError.
Proof. vm_compute. reflexivity. Qed.

Lemma empty_level_stops_descent_witness :
  exists st' dl',
    read_row two_levels (<["loc_adm1" := Some "A"]> {[ "loc_adm2" := Some "  " ]})
      initial_store [[]; []]
      = Ok (st', dl')
    /\ (forall j, 0 < j -> dl' !! j = [[]; []] !! j)
    /\ length (divs st') <= length (divs initial_store) + 1
    /\ grows (divs initial_store) (divs st').
Proof.
  apply (empty_level_stops_descent two_levels _ initial_store [[]; []] 0
           (mkLevel "Chiefdom" "C" "loc_adm2") None).
  - intros lv Hlv. unfold two_levels in Hlv.
    apply elem_of_cons in Hlv as [->|Hlv]; [by vm_compute; eauto|].
    apply list_elem_of_singleton in Hlv as ->. by vm_compute; eauto.
  - reflexivity.
  - vm_compute. reflexivity.
  - vm_compute. reflexivity.
Defined.

(** ** The menu tree *)

Lemma concat_imap_lookup {A B} (L : list (list A)) : forall (g : nat -> A -> B) k l i d,
  L !! k = Some l -> l !! i = Some d ->
  concat (imap (fun k l => g k <$> l) L) !! (length (concat (take k L)) + i)
  = Some (g k d).
Proof.
  induction L as [|l0 L IH]; intros g k l i d Hk Hi; [done|].
  destruct k as [|k]; simpl in *.
  - injection Hk as ->. rewrite lookup_app_l.
    + by rewrite list_lookup_fmap, Hi.
    + rewrite length_fmap. by eapply lookup_lt_Some.
  - rewrite length_app, <- Nat.add_assoc.
    rewrite lookup_app_r by (rewrite length_fmap; lia).
    rewrite length_fmap.
    replace (length l0 + (length (concat (take k L)) + i) - length l0)
      with (length (concat (take k L)) + i) by lia.
    apply (IH (fun k => g (S k)) k l i d Hk Hi).
Qed.

Lemma max_list_ge (ns : list nat) (n : nat) : n ∈ ns -> n <= max_list ns.
Proof.
  induction ns as [|m ns IH]; intros Hn; [by apply elem_of_nil in Hn|].
  simpl. apply elem_of_cons in Hn as [->|Hn]; [lia|].
  specialize (IH Hn). lia.
Qed.

Lemma transpose_lookup (columns : list (list string)) j column k x :
  columns !! j = Some column -> column !! k = Some x ->
  exists r, transpose columns !! k = Some r /\ r !! j = Some (Some x).
Proof.
  intros Hj Hk. unfold transpose.
  assert (Hw : k < max_list (length <$> columns)).
  { apply Nat.lt_le_trans with (length column); [by eapply lookup_lt_Some|].
    apply max_list_ge. apply list_elem_of_fmap. exists column.
    split; [done|by eapply list_elem_of_lookup_2]. }
  eexists. split.
  - rewrite list_lookup_fmap, lookup_seq_lt by done. simpl. reflexivity.
  - by rewrite list_lookup_fmap, Hj; simpl; rewrite Hk.
Qed.

(** C8.  With at least two lists, the exporter succeeds; the column of
    the division at position [i] of the list before the last starts with
    the joined path of the division, continues with the names of its sorted
    children, to which "(other)" is appended when none of them is
    "(other)", so it contains "(other)"; and every cell of the column is in
    the rows handed to the CSV writer, in column [j]. *)
Theorem menu_tree_catch_all ds dls l i d :
  2 <= length dls ->
  dls !! (length dls - 2) = Some l ->
  l !! i = Some d ->
  let names := (fun c => name (get ds c)) <$> sort_divisions ds (children (get ds d)) in
  let column := join "/" (path (get ds d))
                :: (if bool_decide ("(other)" ∈ names) then names else names ++ ["(other)"]) in
  let j := S (length (concat (take (length dls - 2) dls)) + i) in
  "(other)" ∈ tail column
  /\ exists columns rows,
       menu_columns ds dls = Ok columns
       /\ columns !! j = Some column
       /\ write_csv_menu_tree ds dls = Ok rows
       /\ forall k x, column !! k = Some x ->
            exists r, rows !! k = Some r /\ r !! j = Some (Some x).
Proof.
  intros Hn Hl Hi names column j. split.
  - unfold column. simpl. case_bool_decide as Hin; [done|].
    apply elem_of_app. right. by apply list_elem_of_singleton.
  - unfold write_csv_menu_tree, menu_columns.
    destruct (Nat.ltb_spec (length dls) 2) as [Hlt|_]; [lia|].
    set (columns := concat (imap _ _)).
    assert (Hcol : columns !! j = Some column).
    { unfold columns.
      assert (Hm : length dls - 1 = S (length dls - 2)) by lia.
      rewrite Hm.
      pose proof (concat_imap_lookup ([root_id] :: take (S (length dls - 2)) dls)
                    (fun k => menu_column ds (bool_decide (S k = length dls)))
                    (S (length dls - 2)) l i d) as H.
      simpl in H. rewrite take_take, Nat.min_l in H by lia.
      unfold j. simpl. rewrite H; [|rewrite lookup_take_lt by lia; done|done].
      unfold menu_column, column, names. f_equal.
      rewrite bool_decide_eq_true_2 by lia. simpl.
      by destruct (bool_decide _). }
    exists columns, (transpose columns). repeat split; try done.
    intros k x Hk. by eapply transpose_lookup.
Qed.

Lemma menu_tree_catch_all_witness :
  2 <= length small_lists
  /\ "(other)" ∈ tail (menu_column small_divs true 1)
  /\ exists columns rows,
       menu_columns small_divs small_lists = Ok columns
       /\ columns !! 1 = Some (menu_column small_divs true 1)
       /\ write_csv_menu_tree small_divs small_lists = Ok rows
       /\ forall k x, menu_column small_divs true 1 !! k = Some x ->
            exists r, rows !! k = Some r /\ r !! 1 = Some (Some x).
Proof.
  split; [simpl; lia|].
  apply (menu_tree_catch_all small_divs small_lists [1] 0 1).
  - simpl. lia.
  - reflexivity.
  - reflexivity.
Defined.

(** ** The catch-all name *)

Lemma key_le_total key ds x y : key_le key ds x y = false -> key_le key ds y x = true.
Proof. apply seq_leb_total. Qed.

Lemma key_le_trans key ds x y z :
  key_le key ds x y = true -> key_le key ds y z = true -> key_le key ds x z = true.
Proof. apply seq_leb_trans. Qed.

Lemma sort_divisions_by_sorted key ds ids :
  StronglySorted (fun a b => key_le key ds a b = true) (sort_divisions_by key ds ids).
Proof.
  apply sorted_sorted; [apply key_le_total|apply key_le_trans].
Qed.

(** Where the sort puts a division whose key is strictly greater. *)
Lemma sort_divisions_by_strict key ds ids a b i j :
  seq_ltb (key (get ds b)) (key (get ds a)) = true ->
  sort_divisions_by key ds ids !! i = Some a ->
  sort_divisions_by key ds ids !! j = Some b ->
  j < i.
Proof.
  intros Hlt Hi Hj. apply seq_ltb_not_leb in Hlt.
  destruct (decide (j < i)) as [|Hge]; [done|]. exfalso.
  destruct (decide (i = j)) as [->|Hne].
  - assert (a = b) as -> by congruence.
    unfold seq_leb in Hlt. by rewrite seq_compare_refl in Hlt.
  - pose proof (strongly_sorted_lookup (key_le key ds) _ i j a b
                  (sort_divisions_by_sorted key ds ids) Hi Hj ltac:(lia)) as H.
    unfold key_le in H. congruence.
Qed.

Lemma other_last_id nm : nm ≠ "OTHER" -> nm ≠ "(other)" -> other_last nm = nm.
Proof.
  intros H1 H2. unfold other_last.
  by rewrite !bool_decide_eq_false_2.
Qed.

(** C6, as amended.  A division whose name is the normalization of a
    source value that reads OTHER once trimmed is named "(other)", and the
    site-specific sort puts it after every sibling whose name is neither
    "(other)" nor "OTHER" and is below "~" in the order of strings. *)
Theorem other_sorts_last (r : csv_row) (lv : Level) (v : string)
    (x : option string) (ds : list Division) (ids : list nat)
    (a b i j : nat) (pp : list string) :
  r !! level_key lv = Some (Some v) ->
  strip v = "OTHER" ->
  level_value r lv = Ok x ->
  name (get ds a) = normalize_name x ->
  path (get ds a) = pp ++ [name (get ds a)] ->
  path (get ds b) = pp ++ [name (get ds b)] ->
  name (get ds b) ≠ "(other)" ->
  name (get ds b) ≠ "OTHER" ->
  str_ltb (name (get ds b)) "~" = true ->
  sort_divisions ds ids !! i = Some a ->
  sort_divisions ds ids !! j = Some b ->
  name (get ds a) = "(other)" /\ j < i.
Proof.
  intros Hr Hv Hx Ha Hpa Hpb Hb1 Hb2 Hlt Hi Hj.
  assert (Hname : name (get ds a) = "(other)").
  { unfold level_value in Hx. rewrite Hr in Hx. simpl in Hx. rewrite Hv in Hx.
    simpl in Hx.
    injection Hx as <-. rewrite Ha. vm_compute. reflexivity. }
  split; [done|].
  eapply (sort_divisions_by_strict sort_key); [|exact Hi|exact Hj].
  unfold sort_key. rewrite Hpa, Hpb, Hname, !fmap_app. simpl.
  rewrite (other_last_id (name (get ds b))) by done.
  unfold seq_ltb. rewrite seq_compare_app. simpl.
  change (other_last "(other)") with "~".
  unfold str_ltb, String.ltb in Hlt.
  by destruct (String.compare (name (get ds b)) "~").
Qed.


Lemma other_sorts_last_witness :
  strip " OTHER " = "OTHER"
  /\ sort_divisions other_divs [1; 2] = [2; 1]
  /\ name (get other_divs 1) = "(other)" /\ 0 < 1.
Proof.
  split; [vm_compute; reflexivity|]. split; [vm_compute; reflexivity|].
  apply (other_sorts_last {[ "VILLAGE_NAME" := Some " OTHER " ]}
           (mkLevel "Village" "V" "VILLAGE_NAME") " OTHER " (Some "OTHER")
           other_divs [1; 2] 1 2 1 0 []).
  - vm_compute. reflexivity.
  - vm_compute. reflexivity.
  - vm_compute. reflexivity.
  - vm_compute. reflexivity.
  - reflexivity.
  - reflexivity.
  - discriminate.
  - discriminate.
  - vm_compute. reflexivity.
  - vm_compute. reflexivity.
  - vm_compute. reflexivity.
Defined.

(** C6, counterexample.  A village that reads OTHER and a village "~a"
    under the same section: the first is named "(other)", the second is a
    sibling that is not, and the site-specific sort puts "(other)" first. *)
Lemma other_sorts_before_tilde_name :
  match build [record "A" "X" "P" "~a"; record "A" "X" "P" "OTHER"] DEFAULT_LEVELS with
  | Raise _ => False
  | Ok o =>
      let ds := divs (out_store o) in
      children (get ds 3) = [4; 5]
      /\ name (get ds 4) = "~a"
      /\ name (get ds 5) = "(other)"
      /\ sort_divisions ds (children (get ds 3)) = [5; 4]
  end.
Proof. vm_compute. repeat split. Qed.

(** ** Two runs of the builder *)

Lemma same_shape_length ds ds' : same_shape ds ds' -> length ds = length ds'.
Proof. intros H. by rewrite <- (length_fmap shape ds), H, length_fmap. Qed.

Lemma same_shape_get ds ds' id : same_shape ds ds' -> shape (get ds id) = shape (get ds' id).
Proof.
  intros H. unfold get.
  assert (Hl : shape <$> ds !! id = shape <$> ds' !! id)
    by by rewrite <- !list_lookup_fmap, H.
  destruct (ds !! id), (ds' !! id); simpl in *; congruence.
Qed.

Lemma same_shape_name ds ds' id : same_shape ds ds' -> name (get ds id) = name (get ds' id).
Proof. intros H. by injection (same_shape_get ds ds' id H). Qed.

Lemma same_shape_path ds ds' id : same_shape ds ds' -> path (get ds id) = path (get ds' id).
Proof. intros H. by injection (same_shape_get ds ds' id H). Qed.

Lemma same_shape_children ds ds' id :
  same_shape ds ds' -> children (get ds id) = children (get ds' id).
Proof. intros H. by injection (same_shape_get ds ds' id H). Qed.

Lemma find_child_same_shape ds ds' node nm leaf :
  same_shape ds ds' -> find_child ds node nm leaf = find_child ds' node nm leaf.
Proof.
  intros H. unfold find_child. destruct leaf; [done|].
  rewrite (same_shape_children ds ds' node H).
  induction (children (get ds' node)) as [|c cs IH]; simpl; [done|].
  by rewrite (same_shape_name ds ds' c H), IH.
Qed.

Lemma create_child_same_shape ds ds' dl node i nm rid rid' :
  same_shape ds ds' ->
  (create_child ds dl node i nm rid).1.1 = (create_child ds' dl node i nm rid').1.1
  /\ same_shape (create_child ds dl node i nm rid).1.2 (create_child ds' dl node i nm rid').1.2
  /\ (create_child ds dl node i nm rid).2 = (create_child ds' dl node i nm rid').2.
Proof.
  intros H. unfold create_child. simpl.
  rewrite (same_shape_length ds ds' H), (same_shape_path ds ds' node H).
  repeat split. unfold same_shape.
  apply list_eq. intros k. rewrite !list_lookup_fmap, !list_lookup_alter.
  assert (Hk : shape <$> (ds ++ [{| name := nm; path := path (get ds' node) ++ [nm];
                                     children := []; row := rid |}]) !! k
             = shape <$> (ds' ++ [{| name := nm; path := path (get ds' node) ++ [nm];
                                      children := []; row := rid' |}]) !! k).
  { rewrite <- !list_lookup_fmap, !fmap_app, H. done. }
  destruct (decide (node = k)) as [->|Hne]; [|done].
  destruct (_ !! k) as [d|], (_ !! k) as [d'|]; simpl in *; try done.
  injection Hk as Hn Hp Hc. unfold shape. simpl. congruence.
Qed.

Lemma descend_same_shape n names : forall i node ds ds' dl rid rid',
  same_shape ds ds' ->
  same_shape (descend n i names rid node ds dl).1 (descend n i names rid' node ds' dl).1
  /\ (descend n i names rid node ds dl).2 = (descend n i names rid' node ds' dl).2.
Proof.
  induction names as [|nm rest IH]; intros i node ds ds' dl rid rid' H; simpl; [done|].
  destruct (is_empty (normalize_name nm)); [done|].
  rewrite (find_child_same_shape ds ds' node _ _ H).
  destruct (find_child ds' node _ _) as [c|]; [by apply IH|].
  pose proof (create_child_same_shape ds ds' dl node i (normalize_name nm) rid rid' H)
    as (_ & Hs & _).
  unfold create_child in *. simpl in *.
  rewrite (same_shape_length ds ds' H) in *. by apply IH.
Qed.

Lemma row_names_agree levels r r' :
  agree_on levels r r' -> row_names levels r = row_names levels r'.
Proof.
  induction levels as [|lv ls IH]; intros H; simpl; [done|].
  unfold level_value. rewrite (H lv) by by left.
  rewrite IH; [done|]. intros lv' Hlv'. apply H. by right.
Qed.

Lemma read_rows_agree levels rows rows' : forall st st' dl,
  Forall2 (agree_on levels) rows rows' ->
  same_shape (divs st) (divs st') ->
  match read_rows levels rows st dl, read_rows levels rows' st' dl with
  | Ok (st1, dl1), Ok (st1', dl1') => same_shape (divs st1) (divs st1') /\ dl1 = dl1'
  | Raise e, Raise e' => e = e'
  | _, _ => False
  end.
Proof.
  intros st st' dl Hrows. revert st st' dl.
  induction Hrows as [|r r' rows rows' Hr Hrows IH]; intros st st' dl Hs; simpl; [done|].
  unfold read_row. rewrite (row_names_agree levels r r' Hr).
  destruct (row_names levels r') as [names|e]; simpl; [|done].
  destruct (descend_same_shape (length levels) names 0 root_id (divs st) (divs st') dl
              (length (heap st)) (length (heap st')) Hs) as [Hs1 Hd1].
  destruct (descend _ _ _ _ _ (divs st) _) as [ds1 dl1].
  destruct (descend _ _ _ _ _ (divs st') _) as [ds1' dl1'].
  simpl in *. subst dl1'. by apply IH.
Qed.

Lemma insert_sorted_ext {A} (le le' : A -> A -> bool) x l :
  (forall a b, le a b = le' a b) -> insert_sorted le x l = insert_sorted le' x l.
Proof.
  intros H. induction l as [|y l IH]; simpl; [done|]. by rewrite H, IH.
Qed.

Lemma sorted_ext {A} (le le' : A -> A -> bool) l :
  (forall a b, le a b = le' a b) -> sorted le l = sorted le' l.
Proof.
  intros H. induction l as [|x l IH]; [done|].
  change (sorted le (x :: l)) with (insert_sorted le x (sorted le l)).
  change (sorted le' (x :: l)) with (insert_sorted le' x (sorted le' l)).
  rewrite IH. by apply insert_sorted_ext.
Qed.

Lemma sort_divisions_same_shape ds ds' ids :
  same_shape ds ds' -> sort_divisions ds ids = sort_divisions ds' ids.
Proof.
  intros H. unfold sort_divisions, sort_divisions_by.
  apply sorted_ext. intros a b. unfold key_le, sort_key.
  by rewrite !(same_shape_path ds ds' _ H).
Qed.

Lemma number_divisions_same_shape ds ds' ids : forall j idx,
  same_shape ds ds' -> number_divisions ds j ids idx = number_divisions ds' j ids idx.
Proof.
  induction ids as [|d rest IH]; intros j idx H; simpl; [done|].
  by rewrite (same_shape_path ds ds' d H), IH.
Qed.

Lemma sort_and_number_same_shape ds ds' dls : forall acc idx,
  same_shape ds ds' ->
  sort_and_number_loop ds dls acc idx = sort_and_number_loop ds' dls acc idx.
Proof.
  induction dls as [|l rest IH]; intros acc idx H; simpl; [done|].
  by rewrite (sort_divisions_same_shape ds ds' l H),
     (number_divisions_same_shape ds ds' _ _ _ H), IH.
Qed.

Lemma paths_of_same_shape ds ds' dls :
  same_shape ds ds' -> paths_of ds dls = paths_of ds' dls.
Proof.
  intros H. unfold paths_of. apply list_fmap_ext. intros _ l _.
  apply list_fmap_ext. intros _ id _. by apply same_shape_path.
Qed.

(** C2, as amended.  Two runs of the builder and the numberer that both
    start from the root as the module initialises it, on the same schema
    and on records that agree on the columns of the levels (as the same
    records do), produce the same lists of divisions, with the same paths,
    and the same rank index. *)
Theorem fresh_runs_agree rows rows' levels o o' :
  Forall2 (agree_on levels) rows rows' ->
  build rows levels = Ok o ->
  build rows' levels = Ok o' ->
  out_lists o = out_lists o'
  /\ paths_of (divs (out_store o)) (out_lists o)
     = paths_of (divs (out_store o')) (out_lists o')
  /\ out_indexes o = out_indexes o'.
Proof.
  intros Hrows. unfold build, build_on, read_divisions.
  pose proof (read_rows_agree levels rows rows' initial_store initial_store
                (replicate (length levels) []) Hrows eq_refl) as H.
  destruct (read_rows levels rows _ _) as [[st dl]|e];
    destruct (read_rows levels rows' _ _) as [[st' dl']|e']; simpl; try done.
  destruct H as [Hs ->]. unfold sort_and_number_divisions.
  rewrite (sort_and_number_same_shape (divs st) (divs st') dl' [] ∅ Hs).
  destruct (sort_and_number_loop (divs st') dl' [] ∅) as [sl idx].
  intros [= <-] [= <-]. simpl. repeat split.
  by apply paths_of_same_shape.
Qed.

Lemma fresh_runs_agree_witness :
  exists o o',
    build [record "A" "X" "P" "v1"] DEFAULT_LEVELS = Ok o
    /\ build [record "A" "X" "P" "v1"] DEFAULT_LEVELS = Ok o'
    /\ out_lists o = out_lists o'
    /\ paths_of (divs (out_store o)) (out_lists o)
       = paths_of (divs (out_store o')) (out_lists o')
    /\ out_indexes o = out_indexes o'.
Proof.
  destruct (build [record "A" "X" "P" "v1"] DEFAULT_LEVELS)
    as [o|e] eqn:H; [|vm_compute in H; discriminate].
  exists o, o. split; [done|]. split; [done|].
  apply (fresh_runs_agree [record "A" "X" "P" "v1"] [record "A" "X" "P" "v1"]
           DEFAULT_LEVELS o o); [|exact H|exact H].
  constructor; [|constructor]. intros lv _. reflexivity.
Defined.

(** C2, counterexample.  The second of two runs in one process starts from
    the root that the first run filled: it finds the district, the
    chiefdom and the section, lists none of them, and ranks only the
    village, so neither the paths nor the ranks are those of the first
    run. *)
Lemma second_run_differs :
  match build [record "A" "X" "P" "v1"] DEFAULT_LEVELS with
  | Raise _ => False
  | Ok o1 =>
      match build_on (out_store o1) [record "A" "X" "P" "v1"] DEFAULT_LEVELS with
      | Raise _ => False
      | Ok o2 =>
          paths_of (divs (out_store o1)) (out_lists o1)
          = [[["A"]]; [["A"; "X"]]; [["A"; "X"; "P"]]; [["A"; "X"; "P"; "v1"]]]
          /\ paths_of (divs (out_store o2)) (out_lists o2)
             = [[]; []; []; [["A"; "X"; "P"; "v1"]]]
          /\ out_indexes o1 !! ["A"] = Some 1
          /\ out_indexes o2 !! ["A"] = None
      end
  end.
Proof. vm_compute. repeat split. Qed.

(** ** Ranks within a level *)

(** The rank that numbering leaves for a path: that of the last division
    of the list with this path, if there is one. *)
Lemma number_divisions_value ds ids : forall j idx p r,
  number_divisions ds j ids idx !! p = Some r ->
  (idx !! p = Some r /\ forall d, d ∈ ids -> path (get ds d) ≠ p)
  \/ exists k d, ids !! k = Some d /\ path (get ds d) = p /\ r = S (j + k)
       /\ forall k' d', k < k' -> ids !! k' = Some d' -> path (get ds d') ≠ p.
Proof.
  induction ids as [|d0 rest IH]; intros j idx p r Hr; simpl in Hr.
  - left. split; [done|]. intros d Hd. by apply elem_of_nil in Hd.
  - apply IH in Hr as [[Hr Hno]|(k & d & Hk & Hp & -> & Hlast)].
    + destruct (decide (path (get ds d0) = p)) as [Hp|Hp].
      * right. exists 0, d0. rewrite Hp, lookup_insert_eq in Hr.
        injection Hr as <-. split; [done|]. split; [done|]. split; [lia|].
        intros [|k'] d' Hk' Hd'; [lia|]. simpl in Hd'.
        apply Hno. by eapply list_elem_of_lookup_2.
      * left. rewrite lookup_insert_ne in Hr by done. split; [done|].
        intros d Hd. apply elem_of_cons in Hd as [->|Hd]; [done|by apply Hno].
    + right. exists (S k), d. split; [done|]. split; [done|]. split; [lia|].
      intros [|k'] d' Hk' Hd'; [lia|]. simpl in Hd'. eapply Hlast; [|exact Hd']. lia.
Qed.

Lemma sort_and_number_loop_value ds dls : forall acc idx p r,
  (sort_and_number_loop ds dls acc idx).2 !! p = Some r ->
  idx !! p = Some r
  \/ exists l k d, l ∈ dls /\ sort_divisions ds l !! k = Some d
       /\ path (get ds d) = p /\ r = S k
       /\ forall k' d', k < k' -> sort_divisions ds l !! k' = Some d' ->
            path (get ds d') ≠ p.
Proof.
  induction dls as [|l0 rest IH]; intros acc idx p r Hr; simpl in Hr; [by left|].
  apply IH in Hr as [Hr|(l & k & d & Hl & Hrest)].
  - apply number_divisions_value in Hr as [[Hr _]|(k & d & Hk & Hp & -> & Hlast)];
      [by left|].
    right. exists l0, k, d. split; [by left|]. done.
  - right. exists l, k, d. split; [by right|done].
Qed.

Section Ranks.
Context (rows : list csv_row) (levels : list Level) (o : Output).
Hypothesis built : build rows levels = Ok o.

Let ds := divs (out_store o).

(** The rank of a listed division is the position, counted from 1, of the
    last division of its level's sorted list that has its path. *)
Lemma rank_is_last_position i sl a :
  out_lists o !! i = Some sl -> a ∈ sl ->
  exists k a', sl !! k = Some a' /\ path (get ds a') = path (get ds a)
    /\ out_indexes o !! path (get ds a) = Some (S k)
    /\ forall k' d', k < k' -> sl !! k' = Some d' -> path (get ds d') ≠ path (get ds a).
Proof.
  intros Hsl Ha. revert built. unfold build, build_on.
  destruct (read_divisions initial_store rows levels) as [[st dl]|e] eqn:Hread;
    simpl; [|done].
  pose proof (read_divisions_wf _ _ _ _ Hread) as Hwf.
  unfold sort_and_number_divisions.
  destruct (sort_and_number_loop_spec (divs st) dl [] ∅) as (H1 & _ & H3).
  pose proof (sort_and_number_loop_value (divs st) dl [] ∅) as Hval.
  destruct (sort_and_number_loop (divs st) dl [] ∅) as [sl0 idx]. simpl in *.
  intros [= Ho]. subst o sl0. simpl in *. subst ds. simpl in *.
  rewrite list_lookup_fmap in Hsl.
  destruct (dl !! i) as [l|] eqn:Hl; [|done]. simpl in Hsl. injection Hsl as <-.
  assert (Hal : a ∈ l).
  { unfold sort_divisions, sort_divisions_by in Ha. by apply elem_of_sorted in Ha. }
  destruct (H3 l a) as [r Hr]; [by eapply list_elem_of_lookup_2|done|].
  destruct (Hval _ _ Hr) as [Hr'|(l' & k & d & Hl' & Hk & Hp & -> & Hlast)];
    [by rewrite lookup_empty in Hr'|].
  assert (l' = l) as ->.
  { apply list_elem_of_lookup in Hl' as [m Hm].
    assert (Hdl : d ∈ l').
    { apply list_elem_of_lookup_2 in Hk.
      unfold sort_divisions, sort_divisions_by in Hk. by apply elem_of_sorted in Hk. }
    destruct (wf_lists _ _ _ Hwf _ _ _ Hm Hdl) as [_ Hd].
    destruct (wf_lists _ _ _ Hwf _ _ _ Hl Hal) as [_ Ha'].
    rewrite Hp, Ha' in Hd. assert (m = i) as -> by lia. congruence. }
  exists k, d. done.
Qed.

(** Ranks follow the order of the level: a division whose sort key is
    strictly smaller has a strictly smaller rank. *)
Lemma rank_monotone i sl a b :
  out_lists o !! i = Some sl -> a ∈ sl -> b ∈ sl ->
  seq_ltb (sort_key (get ds a)) (sort_key (get ds b)) = true ->
  exists ra rb, out_indexes o !! path (get ds a) = Some ra
    /\ out_indexes o !! path (get ds b) = Some rb /\ ra < rb.
Proof.
  intros Hsl Ha Hb Hlt.
  destruct (rank_is_last_position i sl a Hsl Ha) as (ka & a' & Hka & Hpa & Hra & _).
  destruct (rank_is_last_position i sl b Hsl Hb) as (kb & b' & Hkb & Hpb & Hrb & _).
  exists (S ka), (S kb). split; [done|]. split; [done|].
  assert (Hsorted : exists l, sl = sort_divisions ds l).
  { revert built Hsl. unfold build, build_on.
    destruct (read_divisions initial_store rows levels) as [[st dl]|e]; simpl; [|done].
    unfold sort_and_number_divisions.
    destruct (sort_and_number_loop_spec (divs st) dl [] ∅) as (H1 & _ & _).
    destruct (sort_and_number_loop (divs st) dl [] ∅) as [sl0 idx]. simpl in *.
    intros [= Ho]. subst o sl0. simpl. rewrite list_lookup_fmap.
    destruct (dl !! i) as [l|]; [|done]. simpl. intros [= <-]. by exists l. }
  destruct Hsorted as [l ->].
  assert (ka < kb); [|lia].
  eapply (sort_divisions_by_strict sort_key ds l b' a' kb ka); [|exact Hkb|exact Hka].
  unfold sort_key. by rewrite Hpa, Hpb.
Qed.

(** Where the paths of a level are pairwise distinct, the ranks are the
    positions in the sorted list, counted from 1. *)
Lemma ranks_contiguous i sl :
  out_lists o !! i = Some sl ->
  NoDup ((fun id => path (get ds id)) <$> sl) ->
  ranks_of ds (out_indexes o) sl = Some <$> seq 1 (length sl).
Proof.
  intros Hsl Hnd. unfold ranks_of. apply list_eq. intros k.
  rewrite !list_lookup_fmap.
  destruct (sl !! k) as [a|] eqn:Hk; simpl.
  - rewrite lookup_seq_lt by by eapply lookup_lt_Some. simpl. f_equal.
    destruct (rank_is_last_position i sl a Hsl ltac:(by eapply list_elem_of_lookup_2))
      as (k' & a' & Hk' & Hp & Hr & _).
    rewrite Hr. f_equal. f_equal.
    eapply NoDup_lookup; [exact Hnd| |].
    + by rewrite list_lookup_fmap, Hk'.
    + by rewrite list_lookup_fmap, Hk, Hp.
  - apply lookup_ge_None in Hk. by rewrite lookup_seq_ge.
Qed.

(** The divisions of a level before the last have pairwise distinct paths,
    so their ranks are 1, 2, ..., in the sorted order. *)
Lemma ranks_contiguous_above_leaves i sl :
  out_lists o !! i = Some sl -> S i < length levels ->
  ranks_of ds (out_indexes o) sl = Some <$> seq 1 (length sl).
Proof.
  intros Hsl Hi. apply (ranks_contiguous i sl Hsl).
  revert built Hsl. unfold build, build_on.
  destruct (read_divisions initial_store rows levels) as [[st dl]|e] eqn:Hread;
    simpl; [|done].
  pose proof (read_divisions_wf _ _ _ _ Hread) as Hwf.
  unfold sort_and_number_divisions.
  destruct (sort_and_number_loop_spec (divs st) dl [] ∅) as (H1 & _ & _).
  destruct (sort_and_number_loop (divs st) dl [] ∅) as [sl0 idx]. simpl in *.
  intros [= Ho]. subst o sl0 ds. simpl. rewrite list_lookup_fmap.
  destruct (dl !! i) as [l|] eqn:Hl; [|done]. simpl. intros [= <-].
  pose proof (wf_paths _ _ _ Hwf i l Hl Hi) as Hnd.
  unfold sort_divisions, sort_divisions_by. by rewrite sorted_perm.
Qed.
End Ranks.

(** ** Leaves that repeat *)

(** C1, on the code.  Two identical records (with the column for the
    meaning of the name, so that the page can be rendered) give two
    villages, divisions 4 and 5, both named "v1", with the same path, each
    with its own record, both children of section "P" and both on its
    page; but the rank index has one entry for their path, so both carry
    rank 2 and neither carries rank 1. *)
Theorem identical_rows_share_one_rank :
  let r := with_meaning "m" (record "A" "X" "P" "v1") in
  match build [r; r] DEFAULT_LEVELS with
  | Raise _ => False
  | Ok o =>
      let ds := divs (out_store o) in
      name (get ds 3) = "P"
      /\ children (get ds 3) = [4; 5]
      /\ get ds 4 = {| name := "v1"; path := ["A"; "X"; "P"; "v1"]; children := []; row := 1 |}
      /\ get ds 5 = {| name := "v1"; path := ["A"; "X"; "P"; "v1"]; children := []; row := 2 |}
      /\ level_values (heap (out_store o)) 1 = Some ["A"; "X"; "P"; "v1"]
      /\ level_values (heap (out_store o)) 2 = Some ["A"; "X"; "P"; "v1"]
      /\ out_lists o !! 3 = Some [4; 5]
      /\ ranks_of ds (out_indexes o) [4; 5] = [Some 2; Some 2]
      /\ match write_gazetteer (out_store o) DEFAULT_LEVELS (out_lists o) (out_indexes o) with
         | Raise _ => False
         | Ok (_, pages, _) => page_summary <$> pages !! 2 = Some (3, [4; 5], [2; 2])
         end
  end.
Proof. vm_compute. repeat split. Qed.

(** C4, on the code.  With two identical village records and a third
    village, the last level lists three divisions, and the ranks that the
    index gives them are 2, 2 and 3: rank 1 is assigned to none, so the
    ranks of the level are not 1, 2, 3. *)
Theorem duplicate_leaf_ranks_skip_one :
  match build [record "A" "X" "P" "v1"; record "A" "X" "P" "v1"; record "A" "X" "P" "v2"]
          DEFAULT_LEVELS with
  | Raise _ => False
  | Ok o =>
      let ds := divs (out_store o) in
      out_lists o !! 3 = Some [4; 5; 6]
      /\ paths_of ds [[4; 5; 6]]
         = [[ ["A"; "X"; "P"; "v1"]; ["A"; "X"; "P"; "v1"]; ["A"; "X"; "P"; "v2"] ]]
      /\ ranks_of ds (out_indexes o) [4; 5; 6] = [Some 2; Some 2; Some 3]
  end.
Proof. vm_compute. repeat split. Qed.

(** ** Optional columns of a leaf *)

(** What a fix-up that returns has read and written. *)
Lemma fix_up_row_inv r r' :
  fix_up_row r = Ok r' ->
  exists alt hist chief others words,
    row_get r "ALT_VILLAGE_NAME" = Some alt
    /\ row_get r "HISTORICAL_NAME" = Some hist
    /\ row_get r "CHIEF_NAME" = Some chief
    /\ r' = <["CHIEF_NAME" := Some words]> (<["VILLAGE_OTHER_NAMES" := Some others]> r).
Proof.
  unfold fix_up_row, cell_str.
  destruct (row_get r "ALT_VILLAGE_NAME") as [alt|] eqn:Ha; simpl; [|done].
  destruct (row_get r "HISTORICAL_NAME") as [hist|] eqn:Hh; simpl; [|done].
  destruct (row_get _ "CHIEF_NAME") as [chief|] eqn:Hc; simpl; [|done].
  unfold row_get in Hc.
  rewrite (lookup_insert_ne _ "VILLAGE_OTHER_NAMES" "CHIEF_NAME") in Hc by done.
  intros [= <-]. by eexists alt, hist, chief, _, _.
Qed.

Lemma fix_up_row_lookup r r' k :
  fix_up_row r = Ok r' ->
  k ≠ "VILLAGE_OTHER_NAMES" -> k ≠ "CHIEF_NAME" -> r' !! k = r !! k.
Proof.
  intros (alt & hist & chief & others & words & _ & _ & _ & ->)%fix_up_row_inv H1 H2.
  by rewrite !lookup_insert_ne.
Qed.

Lemma fix_up_row_cells r r' :
  fix_up_row r = Ok r' ->
  (exists c, r' !! "VILLAGE_OTHER_NAMES" = Some (Some c))
  /\ (exists c, r' !! "CHIEF_NAME" = Some (Some c)).
Proof.
  intros (alt & hist & chief & others & words & _ & _ & _ & ->)%fix_up_row_inv. split.
  - rewrite lookup_insert_ne by done. rewrite lookup_insert_eq. eauto.
  - rewrite lookup_insert_eq. eauto.
Qed.

(** Without the column for the meaning of the name the leaf row cannot be
    formatted, whatever else the record holds. *)
Lemma leaf_row_needs_meaning r r' :
  fix_up_row r = Ok r' ->
  is_Some (r !! "VILLAGE_NAME") ->
  r !! "VILLAGE_NAME_MEANING" = None ->
  LEAF_ITEM_TEMPLATE r' = Raise (KeyError "VILLAGE_NAME_MEANING").
Proof.
  intros Hfix [v Hv] Hm. unfold LEAF_ITEM_TEMPLATE, leaf_cells, row_index.
  destruct (fix_up_row_cells r r' Hfix) as [[c2 H2] [c3 H3]].
  rewrite (fix_up_row_lookup r r' "VILLAGE_NAME" Hfix), Hv by done. simpl.
  rewrite H2. simpl. rewrite H3. simpl.
  rewrite (fix_up_row_lookup r r' "VILLAGE_NAME_MEANING" Hfix), Hm by done. done.
Qed.

(** The three columns that [fix_up_division] reads may be missing: their
    cells are then empty. *)
Lemma leaf_row_defaults r v m :
  r !! "VILLAGE_NAME" = Some (Some v) ->
  r !! "VILLAGE_NAME_MEANING" = Some (Some m) ->
  r !! "ALT_VILLAGE_NAME" = None ->
  r !! "HISTORICAL_NAME" = None ->
  r !! "CHIEF_NAME" = None ->
  (r' ← fix_up_row r; leaf_cells r') = Ok (v, "", "", m).
Proof.
  intros Hv Hm Ha Hh Hc. unfold fix_up_row, row_get.
  rewrite Ha. simpl. rewrite Hh. simpl.
  rewrite (lookup_insert_ne _ "VILLAGE_OTHER_NAMES" "CHIEF_NAME") by done.
  rewrite Hc. simpl.
  unfold leaf_cells, row_index.
  rewrite (lookup_insert_ne _ "CHIEF_NAME" "VILLAGE_NAME") by done.
  rewrite (lookup_insert_ne _ "VILLAGE_OTHER_NAMES" "VILLAGE_NAME"), Hv by done. simpl.
  rewrite (lookup_insert_ne _ "CHIEF_NAME" "VILLAGE_OTHER_NAMES") by done.
  rewrite lookup_insert_eq. simpl. rewrite lookup_insert_eq. simpl.
  rewrite (lookup_insert_ne _ "CHIEF_NAME" "VILLAGE_NAME_MEANING") by done.
  rewrite (lookup_insert_ne _ "VILLAGE_OTHER_NAMES" "VILLAGE_NAME_MEANING"), Hm by done.
  done.
Qed.

(** C3, on the code.  For a record that lacks the column for the meaning
    of the name the renderer raises [KeyError]; a record that has it and
    lacks the alternate name, the historical name and the chief name
    renders with those cells empty. *)
Theorem missing_meaning_column_raises :
  match build [record "A" "X" "P" "v1"] DEFAULT_LEVELS with
  | Raise _ => False
  | Ok o =>
      write_gazetteer (out_store o) DEFAULT_LEVELS (out_lists o) (out_indexes o)
      = Raise (KeyError "VILLAGE_NAME_MEANING")
  end
  /\ (r' ← fix_up_row (with_meaning "m" (record "A" "X" "P" "v1")); leaf_cells r')
     = Ok ("v1", "", "", "m").
Proof. vm_compute. repeat split. Qed.

(** ** The name backfiller *)

Section BackfillFacts.
Import GeoNames.

Lemma rev_name_keys : rev name_keys = priority_order.
Proof. vm_compute. reflexivity. Qed.

Context {V : Type} (truthy : V -> bool).

Lemma first_hit_split (props : gmap string V) before k after :
  (forall k', k' ∈ before -> has_truthy truthy props k' = false) ->
  has_truthy truthy props k = true ->
  first_hit truthy (before ++ k :: after) props = Some k.
Proof.
  intros Hb Hk. induction before as [|b before IH]; simpl.
  - by rewrite Hk.
  - rewrite (Hb b) by by left. apply IH. intros k' Hk'. apply Hb. by right.
Qed.

Lemma add_name_highest (props : gmap string V) before after k v :
  has_truthy truthy props "name" = false ->
  priority_order = before ++ k :: after ->
  (forall k', k' ∈ before -> has_truthy truthy props k' = false) ->
  props !! k = Some v ->
  truthy v = true ->
  add_name truthy props = <["name" := v]> props.
Proof.
  intros Hname Hsplit Hbefore Hk Hv. unfold add_name.
  rewrite rev_name_keys, Hsplit.
  assert (Hne : props ≠ ∅).
  { intros ->. by rewrite lookup_empty in Hk. }
  rewrite bool_decide_eq_false_2 by done. rewrite Hname. simpl.
  rewrite (first_hit_split props before k after Hbefore).
  - by rewrite Hk.
  - unfold has_truthy. by rewrite Hk.
Qed.
End BackfillFacts.

(** C9.  The backfiller, run over a collection of features, returns as
    many features; and for the feature at any position whose property
    mapping has no truthy "name": if [k] is a key of the priority order
    "name" > "Name" > "NAME" > finest admin level > ... > coarsest, its
    value [v] is truthy, and no key before it in that order has a truthy
    value, the feature at that position of the result has "name" set to
    [v], and is otherwise as it was. *)
Theorem backfill_takes_highest_priority {V M : Type} (truthy : V -> bool)
    (features : list (GeoNames.Feature M)) (n : nat)
    (f : GeoNames.Feature M) (props : gmap string V)
    (before after : list string) (k : string) (v : V) :
  features !! n = Some f ->
  GeoNames.properties f = Some props ->
  GeoNames.has_truthy truthy props "name" = false ->
  GeoNames.priority_order = before ++ k :: after ->
  (forall k', k' ∈ before -> GeoNames.has_truthy truthy props k' = false) ->
  props !! k = Some v ->
  truthy v = true ->
  length (GeoNames.add_names truthy features) = length features
  /\ GeoNames.add_names truthy features !! n
     = Some (GeoNames.mkFeature (Some (<["name" := v]> props)) (GeoNames.members f)).
Proof.
  intros Hn Hf Hname Hsplit Hbefore Hk Hv. unfold GeoNames.add_names.
  split; [by rewrite length_fmap|].
  rewrite list_lookup_fmap, Hn. simpl. f_equal.
  unfold GeoNames.add_feature_name. rewrite Hf. f_equal. f_equal.
  by eapply add_name_highest.
Qed.

Lemma backfill_takes_highest_priority_witness :
  let props : gmap string GeoNames.json :=
    <["admin2Name" := GeoNames.JStr "X"]> {[ "Name" := GeoNames.JStr "Y" ]} in
  let features : list (GeoNames.Feature unit) :=
    [GeoNames.mkFeature None tt; GeoNames.mkFeature (Some props) tt] in
  GeoNames.has_truthy GeoNames.json_truthy props "name" = false
  /\ length (GeoNames.add_names GeoNames.json_truthy features) = length features
  /\ GeoNames.add_names GeoNames.json_truthy features !! 1
     = Some (GeoNames.mkFeature (Some (<["name" := GeoNames.JStr "Y"]> props)) tt).
Proof.
  intros props features. split; [vm_compute; reflexivity|].
  apply (backfill_takes_highest_priority GeoNames.json_truthy features 1
           (GeoNames.mkFeature (Some props) tt) props ["name"]
           (drop 2 GeoNames.priority_order) "Name" (GeoNames.JStr "Y")).
  - reflexivity.
  - reflexivity.
  - vm_compute. reflexivity.
  - reflexivity.
  - intros k' Hk'. apply list_elem_of_singleton in Hk' as ->. vm_compute. reflexivity.
  - vm_compute. reflexivity.
  - reflexivity.
Defined.

(** * Further properties of the code *)

Import Observe Args.

(** ** Names after normalization *)

Lemma app_cons c s t : String c s +:+ t = String c (s +:+ t).
Proof. reflexivity. Qed.

Lemma app_empty_l t : "" +:+ t = t.
Proof. reflexivity. Qed.

Lemma all_chars_app P s t : all_chars P (s +:+ t) = all_chars P s && all_chars P t.
Proof.
  induction s as [|c s IH]; [done|].
  rewrite app_cons. simpl. by rewrite IH, andb_assoc.
Qed.

Lemma all_chars_impl (P Q : ascii -> bool) s :
  (forall c, P c = true -> Q c = true) -> all_chars P s = true -> all_chars Q s = true.
Proof.
  intros H. induction s as [|c s IH]; simpl; [done|].
  rewrite !andb_true_iff. intros [? ?]. auto.
Qed.

Lemma all_chars_map P f s : all_chars P (map_chars f s) = all_chars (fun c => P (f c)) s.
Proof. induction s as [|c s IH]; simpl; [done|]. by rewrite IH. Qed.

Lemma all_chars_join P sep ws :
  all_chars P sep = true -> Forall (fun w => all_chars P w = true) ws ->
  all_chars P (join sep ws) = true.
Proof.
  intros Hsep Hws. unfold join. induction Hws as [|w ws Hw Hws IH]; simpl; [done|].
  destruct ws as [|w' ws]; [done|].
  rewrite !all_chars_app, Hw, Hsep. simpl. exact IH.
Qed.

Lemma split_scan_chars P s :
  all_chars P s = true -> Forall (fun w => all_chars P w = true) (split_scan s).1.
Proof.
  induction s as [|c s IH]; simpl; [constructor|].
  rewrite andb_true_iff. intros [Hc Hs]. specialize (IH Hs).
  unfold split_step. destruct (split_scan s) as [ws open]. simpl in *.
  destruct (is_space c); [done|].
  destruct open.
  - destruct ws as [|w r]; [repeat constructor; simpl; by rewrite Hc|].
    inversion IH; subst. constructor; [simpl; by rewrite Hc|done].
  - constructor; [simpl; by rewrite Hc|done].
Qed.

(** The words of [split] are not empty and hold no whitespace; the flag of
    the scan tells whether the string starts inside a word. *)
Lemma split_scan_words s :
  Forall (fun w => is_word w = true) (split_scan s).1
  /\ ((split_scan s).2 = true -> (split_scan s).1 ≠ []).
Proof.
  induction s as [|c s [IH1 IH2]]; simpl; [split; [constructor|done]|].
  unfold split_step. destruct (split_scan s) as [ws open]. simpl in *.
  destruct (is_space c) eqn:Hc; [split; [done|done]|].
  destruct open.
  - destruct ws as [|w r]; [by specialize (IH2 eq_refl)|].
    inversion IH1 as [|? ? Hw Hr]; subst. split; [|done].
    constructor; [|done]. unfold is_word in *. simpl. rewrite Hc. simpl.
    apply andb_true_iff in Hw as [_ Hw]. by rewrite Hw.
  - split; [|done]. constructor; [|done]. unfold is_word. simpl. by rewrite Hc.
Qed.

Lemma split_scan_word_then w rest :
  is_word w = true ->
  split_scan (w +:+ String " " rest) = (w :: (split_scan rest).1, true).
Proof.
  unfold is_word. induction w as [|c w IH]; [done|]. simpl.
  rewrite !andb_true_iff, negb_true_iff. intros [Hc Hw].
  destruct w as [|c' w].
  - rewrite ?app_empty_l. simpl. unfold split_step at 1.
    destruct (split_scan rest) as [ws open]. simpl. by rewrite Hc.
  - rewrite IH by exact Hw. unfold split_step. by rewrite Hc.
Qed.

Lemma split_scan_word w :
  is_word w = true -> split_scan w = ([w], true).
Proof.
  unfold is_word. induction w as [|c w IH]; [done|]. simpl.
  rewrite !andb_true_iff, negb_true_iff. intros [Hc Hw].
  destruct w as [|c' w].
  - simpl. by rewrite Hc.
  - rewrite IH by exact Hw. unfold split_step. by rewrite Hc.
Qed.

Lemma split_join ws :
  Forall (fun w => is_word w = true) ws -> split (join " " ws) = ws.
Proof.
  unfold split, join. induction 1 as [|w ws Hw Hws IH]; [done|].
  simpl. destruct ws as [|w' ws].
  - by rewrite split_scan_word.
  - change (" " +:+ ?s) with (String " " s).
    rewrite split_scan_word_then by done. cbn [fst]. f_equal. exact IH.
Qed.

Lemma lstrip_word_start c s : is_space c = false -> lstrip (String c s) = String c s.
Proof. intros H. simpl. by rewrite H. Qed.

Lemma rstrip_word w : is_word w = true -> rstrip w = w.
Proof.
  unfold is_word. induction w as [|c w IH]; [done|]. simpl.
  rewrite !andb_true_iff, negb_true_iff. intros [Hc Hw].
  rewrite Hc. simpl. destruct w as [|c' w]; [done|].
  by rewrite IH by exact Hw.
Qed.

Lemma rstrip_app_word s w :
  is_word w = true -> rstrip (s +:+ w) = s +:+ w.
Proof.
  intros Hw. induction s as [|c s IH]; [by apply rstrip_word|].
  rewrite app_cons. simpl. rewrite IH.
  destruct (s +:+ w) eqn:E; [|by rewrite andb_false_r].
  destruct s; [|done]. rewrite app_empty_l in E. subst. done.
Qed.

Lemma string_app_assoc (a b c : string) : (a +:+ b) +:+ c = a +:+ b +:+ c.
Proof. induction a as [|x a IH]; [done|]. rewrite !app_cons. by rewrite IH. Qed.

Lemma join_cons sep w ws :
  ws ≠ [] -> join sep (w :: ws) = w +:+ sep +:+ join sep ws.
Proof. unfold join. by destruct ws. Qed.

Lemma join_words_last ws w :
  exists s, join " " (ws ++ [w]) = s +:+ w.
Proof.
  induction ws as [|w0 ws [s IH]].
  - by exists "".
  - exists (w0 +:+ " " +:+ s).
    change ((w0 :: ws) ++ [w]) with (w0 :: (ws ++ [w])).
    rewrite join_cons by by destruct ws.
    by rewrite IH, !string_app_assoc.
Qed.

Lemma strip_join ws :
  Forall (fun w => is_word w = true) ws -> strip (join " " ws) = join " " ws.
Proof.
  intros Hws. unfold strip.
  assert (Hl : lstrip (join " " ws) = join " " ws).
  { destruct Hws as [|w ws Hw _]; [done|].
    unfold join. simpl. unfold is_word in Hw. destruct w as [|c w]; [done|].
    simpl in Hw. apply andb_true_iff in Hw as [Hc _]. apply negb_true_iff in Hc.
    destruct ws; [by apply lstrip_word_start|].
    rewrite app_cons. by apply lstrip_word_start. }
  rewrite Hl. destruct (decide (ws = [])) as [->|Hne]; [done|].
  destruct (exists_last Hne) as (ws' & w & ->).
  apply Forall_app in Hws as [_ Hw]. inversion Hw; subst.
  destruct (join_words_last ws' w) as [s ->]. by apply rstrip_app_word.
Qed.

Lemma sub_markup_id s :
  all_chars (fun c => negb (is_markup c)) s = true -> sub_markup s = s.
Proof.
  unfold sub_markup. induction s as [|c s IH]; simpl; [done|].
  rewrite andb_true_iff, negb_true_iff. intros [Hc Hs]. by rewrite Hc, IH.
Qed.

Lemma normalize_name_cases x :
  normalize_name x = "(other)"
  \/ exists ws, normalize_name x = join " " ws
       /\ Forall (fun w => is_word w = true) ws
       /\ Forall (fun w => all_chars (fun c => negb (is_markup c)) w = true) ws.
Proof.
  unfold normalize_name. case_bool_decide; [by left|]. right.
  exists (split (sub_markup (default "" x))). split; [done|]. split.
  - apply split_scan_words.
  - apply split_scan_chars. unfold sub_markup. rewrite all_chars_map.
    clear. induction (default "" x) as [|c s IH]; simpl; [done|].
    rewrite IH, andb_true_r. by destruct (is_markup c) eqn:E; [|rewrite E].
Qed.

(** X1.  Whatever the source value, the normalized name holds none of the
    characters [<], [>], [&] and [_], has no whitespace at either end, and
    is its own words joined by single spaces. *)
Theorem normalize_name_normal_form x :
  all_chars (fun c => negb (is_markup c)) (normalize_name x) = true
  /\ strip (normalize_name x) = normalize_name x
  /\ join " " (split (normalize_name x)) = normalize_name x.
Proof.
  destruct (normalize_name_cases x) as [->|(ws & -> & Hw & Hws)]; [done|].
  split; [by apply all_chars_join|]. split; [by apply strip_join|].
  by rewrite split_join.
Qed.

(** X2.  Normalizing a normalized name again gives the same name, unless
    the name is "OTHER" (which a source value such as "OTHER_" produces, and
    which a second normalization turns into "(other)"). *)
Theorem normalize_name_stable x :
  normalize_name x ≠ "OTHER" ->
  normalize_name (Some (normalize_name x)) = normalize_name x.
Proof.
  intros Hne.
  destruct (normalize_name_cases x) as [->|(ws & E & Hw & Hm)]; [done|].
  rewrite E in *. unfold normalize_name at 1. simpl.
  rewrite strip_join by done. rewrite bool_decide_eq_false_2 by done.
  rewrite sub_markup_id by by apply all_chars_join.
  by rewrite split_join.
Qed.

Lemma normalize_name_stable_witness :
  normalize_name (Some " Bo_Town <1> ") ≠ "OTHER"
  /\ normalize_name (Some (normalize_name (Some " Bo_Town <1> ")))
     = normalize_name (Some " Bo_Town <1> ").
Proof.
  assert (H : normalize_name (Some " Bo_Town <1> ") ≠ "OTHER")
    by (vm_compute; discriminate).
  split; [exact H|]. exact (normalize_name_stable _ H).
Defined.

(** ** What the builder reads, and when it raises *)

Lemma row_names_outcome levels r :
  match row_names levels r with
  | Ok _ => forall lv, lv ∈ levels -> exists v, r !! level_key lv = Some (Some v)
  | Raise e =>
      exists lv, lv ∈ levels
        /\ ((r !! level_key lv = None /\ e = KeyError (level_key lv))
            \/ (r !! level_key lv = Some None /\ e = AttributeError))
  end.
Proof.
  induction levels as [|lv ls IH]; simpl.
  - intros lv Hlv. by apply elem_of_nil in Hlv.
  - unfold level_value. destruct (r !! level_key lv) as [[v|]|] eqn:Hv; simpl.
    + destruct (row_names ls r) as [names|e]; simpl.
      * intros lv' Hlv'. apply elem_of_cons in Hlv' as [->|Hlv']; [by eauto|auto].
      * destruct IH as (lv' & Hin & Herr). exists lv'. split; [by right|done].
    + exists lv. split; [by left|]. by right.
    + exists lv. split; [by left|]. by left.
Qed.

Lemma read_rows_outcome levels rows : forall st dl,
  match read_rows levels rows st dl with
  | Ok _ =>
      forall r lv, r ∈ rows -> lv ∈ levels -> exists v, r !! level_key lv = Some (Some v)
  | Raise e =>
      exists r lv, r ∈ rows /\ lv ∈ levels
        /\ ((r !! level_key lv = None /\ e = KeyError (level_key lv))
            \/ (r !! level_key lv = Some None /\ e = AttributeError))
  end.
Proof.
  induction rows as [|r rs IH]; intros st dl; simpl.
  - intros r lv Hr. by apply elem_of_nil in Hr.
  - unfold read_row. pose proof (row_names_outcome levels r) as Hr.
    destruct (row_names levels r) as [names|e]; simpl.
    + destruct (descend _ _ _ _ _ _ _) as [ds1 dl1]. simpl.
      specialize (IH {| divs := ds1; heap := heap st ++ [r] |} dl1).
      destruct (read_rows levels rs _ _) as [[st2 dl2]|e].
      * intros r' lv Hr' Hlv. apply elem_of_cons in Hr' as [->|Hr']; eauto.
      * destruct IH as (r' & lv & Hr' & Hlv & Herr).
        exists r', lv. split; [by right|done].
    + destruct Hr as (lv & Hlv & Herr). exists r, lv. split; [by left|done].
Qed.

(** X3.  The tree builder returns exactly when every record has a string
    in the column of every level; otherwise it raises [KeyError] for a level
    column that some record lacks, or [AttributeError] for a level column in
    which some record has [None]. *)
Theorem read_divisions_outcome st rows levels :
  match read_divisions st rows levels with
  | Ok _ =>
      forall r lv, r ∈ rows -> lv ∈ levels -> exists v, r !! level_key lv = Some (Some v)
  | Raise e =>
      exists r lv, r ∈ rows /\ lv ∈ levels
        /\ ((r !! level_key lv = None /\ e = KeyError (level_key lv))
            \/ (r !! level_key lv = Some None /\ e = AttributeError))
  end.
Proof. apply read_rows_outcome. Qed.

(** ** Where the divisions come from *)

Section Provenance.
Context (levels : list Level) (hp : list csv_row).
Context (r : csv_row) (rid : nat) (all_names : list (option string)).
Hypothesis rid_pos : 0 < rid.
Hypothesis rid_record : hp !! rid = Some r.
Hypothesis r_names : row_names levels r = Ok all_names.

Lemma descend_from_records names : forall i node ds dl pre,
  wf (length levels) ds dl -> node < length ds ->
  all_names = pre ++ names -> length pre = i ->
  i + length names = length levels ->
  path (get ds node) = normalize_name <$> pre ->
  "" ∉ path (get ds node) ->
  all_from_records levels hp ds ->
  all_from_records levels hp (descend (length levels) i names rid node ds dl).1.
Proof.
  induction names as [|nm rest IH];
    intros i node ds dl pre Hwf Hnode Hall Hdone Hn Hpath Hne Hprov; simpl; [done|].
  destruct (is_empty (normalize_name nm)) eqn:Hnm; [done|].
  assert (Hi : length (path (get ds node)) = i) by by rewrite Hpath, length_fmap.
  assert (Hnm' : normalize_name nm ≠ "") by (intros E; by rewrite E in Hnm).
  simpl in Hn.
  destruct (find_child ds node (normalize_name nm) (bool_decide (S i = length levels)))
    as [c|] eqn:Hfind.
  - apply find_child_Some in Hfind as [Hc Hname].
    destruct (wf_child _ _ _ Hwf _ _ Hc) as [Hr Hp].
    apply (IH (S i) c ds dl (pre ++ [nm])); try done.
    + lia.
    + by rewrite <- app_assoc.
    + rewrite length_app. simpl. lia.
    + lia.
    + by rewrite Hp, Hname, Hpath, fmap_app.
    + rewrite Hp, Hname. intros [?|?%list_elem_of_singleton]%elem_of_app; done.
  - pose proof (create_child_wf (length levels) ds dl node i (normalize_name nm) rid
                  Hwf Hnode Hi ltac:(lia) Hfind) as Hwf'.
    unfold create_child in *. simpl in *.
    set (child := {| name := normalize_name nm;
                     path := path (get ds node) ++ [normalize_name nm];
                     children := []; row := rid |}) in *.
    set (ds' := alter (append_child (length ds)) node (ds ++ [child])) in *.
    assert (Hnew : get ds' (length ds) = child) by by apply create_get_new.
    assert (Hchild : from_record levels hp child).
    { split; [done|]. exists r, all_names. split; [done|]. split; [done|]. simpl.
      split.
      - assert (Hlen : length (path (get ds node) ++ [normalize_name nm]) = S i)
          by (rewrite length_app; simpl; lia).
        rewrite Hlen, Hall.
        replace (pre ++ nm :: rest) with ((pre ++ [nm]) ++ rest)
          by by rewrite <- app_assoc.
        rewrite take_app_length' by (rewrite length_app; simpl; lia).
        by rewrite fmap_app, Hpath.
      - intros [?|?%list_elem_of_singleton]%elem_of_app; done. }
    apply (IH (S i) (length ds) ds' _ (pre ++ [nm])); try done.
    + unfold ds'. rewrite length_alter, length_app. simpl. lia.
    + by rewrite <- app_assoc.
    + rewrite length_app. simpl. lia.
    + lia.
    + by rewrite Hnew; simpl; rewrite Hpath, fmap_app.
    + rewrite Hnew. simpl.
      intros [?|?%list_elem_of_singleton]%elem_of_app; done.
    + intros id d Hd Hid. unfold ds' in Hd.
      destruct (decide (id = node)) as [->|Hidn].
      * rewrite list_lookup_alter_eq, lookup_app_l in Hd by done.
        destruct (ds !! node) as [d0|] eqn:Hd0; [|done]. simpl in Hd.
        injection Hd as <-. exact (Hprov node d0 Hd0 Hid).
      * rewrite list_lookup_alter_ne in Hd by done.
        destruct (decide (id < length ds)) as [Hlt|Hge].
        -- rewrite lookup_app_l in Hd by done. by eapply Hprov.
        -- rewrite lookup_app_r in Hd by lia.
           destruct (id - length ds) as [|k] eqn:E; simpl in Hd; [|done].
           by injection Hd as <-.
Qed.
End Provenance.

Lemma all_from_records_grow levels hp r ds :
  all_from_records levels hp ds -> all_from_records levels (hp ++ [r]) ds.
Proof.
  intros H id d Hd Hid. destruct (H id d Hd Hid) as (Hpos & r0 & names & Hr0 & Hrest).
  split; [done|]. exists r0, names. split; [|done].
  rewrite lookup_app_l; [done|]. by eapply lookup_lt_Some.
Qed.

Lemma read_rows_from_records levels rows : forall st dl st' dl',
  wf (length levels) (divs st) dl ->
  0 < length (heap st) ->
  all_from_records levels (heap st) (divs st) ->
  read_rows levels rows st dl = Ok (st', dl') ->
  heap st' = heap st ++ rows
  /\ all_from_records levels (heap st') (divs st').
Proof.
  induction rows as [|r rs IH]; intros st dl st' dl' Hwf Hpos Hprov; simpl.
  - intros [= <- <-]. by rewrite app_nil_r.
  - destruct (read_row levels r st dl) as [[st1 dl1]|e] eqn:Hrow; simpl; [|done].
    intros Hrest.
    destruct (read_row_wf _ _ _ _ _ _ Hwf Hrow) as [Hwf1 _].
    unfold read_row in Hrow.
    destruct (row_names levels r) as [names|e] eqn:Hnames; simpl in Hrow; [|done].
    pose proof (descend_from_records levels (heap st ++ [r]) r (length (heap st)) names
                  Hpos ltac:(by rewrite lookup_app_r, Nat.sub_diag by lia) Hnames
                  names 0 root_id (divs st) dl [] Hwf) as Hd.
    destruct (descend _ _ _ _ _ _ _) as [ds1' dl1'] eqn:Hdesc. simpl in Hd.
    injection Hrow as <- <-.
    destruct (IH _ _ _ _ Hwf1 ltac:(simpl; rewrite length_app; simpl; lia)
                ltac:(simpl; apply Hd; try done;
                      [apply Hwf|by rewrite (row_names_length _ _ _ Hnames)
                      |by rewrite (proj2 (wf_root _ _ _ Hwf))
                      |rewrite (proj2 (wf_root _ _ _ Hwf)); apply not_elem_of_nil
                      |by apply all_from_records_grow]) Hrest) as [Hheap Hfinal].
    split; [|done]. simpl in Hheap. by rewrite Hheap, <- app_assoc.
Qed.

(** X4.  After a run from the initial root, every division other than the
    root carries the record of one of the input rows (record [S k] of the
    heap is row [k]), and its path is the normalized names of that row at
    the levels down to its own, none of them empty. *)
Theorem divisions_come_from_records rows levels st dl id :
  read_divisions initial_store rows levels = Ok (st, dl) ->
  0 < id < length (divs st) ->
  exists k r names,
    row (get (divs st) id) = S k
    /\ rows !! k = Some r
    /\ heap st !! S k = Some r
    /\ row_names levels r = Ok names
    /\ path (get (divs st) id)
       = normalize_name <$> take (length (path (get (divs st) id))) names
    /\ "" ∉ path (get (divs st) id).
Proof.
  intros Hread Hid.
  destruct (read_rows_from_records levels rows initial_store _ st dl
              (initial_wf (length levels)) ltac:(simpl; lia)) as [Hheap Hprov]; [|done|].
  { intros i d Hd Hi. destruct i as [|[|i]]; simpl in Hd; done. }
  destruct (lookup_lt_is_Some_2 (divs st) id ltac:(lia)) as [d Hd].
  destruct (Hprov id d Hd ltac:(lia)) as (Hpos & r & names & Hr & Hnames & Hpath & Hne).
  unfold get. rewrite Hd. simpl.
  destruct (row d) as [|k] eqn:Hrow; [lia|].
  exists k, r, names. split; [done|]. rewrite Hheap in *. simpl in *.
  repeat split; done.
Qed.

Lemma divisions_come_from_records_witness :
  exists st dl,
    read_divisions initial_store example_rows DEFAULT_LEVELS = Ok (st, dl)
    /\ 0 < 2 < length (divs st)
    /\ exists k r names,
         row (get (divs st) 2) = S k
         /\ example_rows !! k = Some r
         /\ heap st !! S k = Some r
         /\ row_names DEFAULT_LEVELS r = Ok names
         /\ path (get (divs st) 2)
            = normalize_name <$> take (length (path (get (divs st) 2))) names
         /\ "" ∉ path (get (divs st) 2).
Proof.
  assert (E : match read_divisions initial_store example_rows DEFAULT_LEVELS with
              | Ok (s, _) => Nat.ltb 2 (length (divs s))
              | Raise _ => false
              end = true) by (vm_compute; reflexivity).
  destruct (read_divisions initial_store example_rows DEFAULT_LEVELS)
    as [[st dl]|e] eqn:H; [|discriminate].
  apply Nat.ltb_lt in E.
  exists st, dl. split; [done|]. split; [lia|].
  exact (divisions_come_from_records _ _ _ _ 2 H ltac:(lia)).
Defined.

(** ** The lists of the levels *)

Lemma build_inv rows levels o :
  build rows levels = Ok o ->
  exists dl, wf (length levels) (divs (out_store o)) dl
    /\ out_lists o = sort_divisions (divs (out_store o)) <$> dl.
Proof.
  unfold build, build_on.
  destruct (read_divisions initial_store rows levels) as [[st dl]|e] eqn:Hread;
    simpl; [|done].
  pose proof (read_divisions_wf _ _ _ _ Hread) as Hwf.
  unfold sort_and_number_divisions.
  destruct (sort_and_number_loop_spec (divs st) dl [] ∅) as (H1 & _ & _).
  destruct (sort_and_number_loop (divs st) dl [] ∅) as [sl idx]. simpl in *.
  intros [= <-]. simpl. by exists dl.
Qed.

Lemma out_lists_lookup (ds : list Division) (dl : list (list nat)) (i : nat)
    (sl : list nat) (id : nat) :
  (sort_divisions ds <$> dl) !! i = Some sl -> id ∈ sl ->
  exists l, dl !! i = Some l /\ id ∈ l.
Proof.
  rewrite list_lookup_fmap. destruct (dl !! i) as [l|]; [|done]. simpl.
  intros [= <-] Hid. exists l. split; [done|].
  unfold sort_divisions, sort_divisions_by in Hid. by apply elem_of_sorted in Hid.
Qed.

(** X5.  After [main] has built and sorted the divisions there is one list
    per level, and a division on the list of level [i] has a path of [i + 1]
    names that ends in its own name and extends the path of its parent; the
    parent is the root for the first level and a division on the list of the
    level above otherwise. *)
Theorem listed_division_shape rows levels o i sl id :
  build rows levels = Ok o ->
  out_lists o !! i = Some sl ->
  id ∈ sl ->
  let ds := divs (out_store o) in
  length (out_lists o) = length levels
  /\ length (path (get ds id)) = S i
  /\ last (path (get ds id)) = Some (name (get ds id))
  /\ exists p, id ∈ children (get ds p)
       /\ path (get ds id) = path (get ds p) ++ [name (get ds id)]
       /\ match i with
          | 0 => p = root_id
          | S i' => exists sl', out_lists o !! i' = Some sl' /\ p ∈ sl'
          end.
Proof.
  intros Hb Hsl Hid ds. destruct (build_inv _ _ _ Hb) as (dl & Hwf & Hlists).
  subst ds. rewrite Hlists in *.
  destruct (out_lists_lookup _ _ _ _ _ Hsl Hid) as (l & Hl & Hidl).
  destruct (wf_lists _ _ _ Hwf _ _ _ Hl Hidl) as [Hr Hlen].
  destruct (wf_parent _ _ _ Hwf id Hr) as [p Hp].
  destruct (wf_child _ _ _ Hwf _ _ Hp) as [_ Hpath].
  split; [by rewrite length_fmap, (wf_length _ _ _ Hwf)|].
  split; [done|]. split; [by rewrite Hpath, last_snoc|].
  exists p. split; [done|]. split; [done|].
  assert (Hplt : p < length (divs (out_store o))).
  { destruct (decide (p < length (divs (out_store o)))) as [|Hge]; [done|].
    unfold get in Hp. rewrite lookup_ge_None_2 in Hp by lia.
    by apply elem_of_nil in Hp. }
  assert (Hplen : length (path (get (divs (out_store o)) p)) = i).
  { rewrite Hpath, length_app in Hlen. simpl in Hlen. lia. }
  destruct (decide (p = 0)) as [->|Hp0].
  - destruct i as [|i']; [done|].
    pose proof (f_equal length (proj2 (wf_root _ _ _ Hwf))) as Hroot.
    unfold root_id in Hroot. simpl in Hroot. lia.
  - destruct (wf_listed _ _ _ Hwf p ltac:(lia)) as (m & lp & Hm & Hlp & Hpin).
    destruct i as [|i']; [lia|]. assert (m = i') as -> by lia.
    exists (sort_divisions (divs (out_store o)) lp). split.
    + by rewrite list_lookup_fmap, Hlp.
    + unfold sort_divisions, sort_divisions_by. by apply elem_of_sorted.
Qed.

Lemma listed_division_shape_witness :
  exists o sl,
    build example_rows DEFAULT_LEVELS = Ok o
    /\ out_lists o !! 1 = Some sl
    /\ 2 ∈ sl
    /\ length (out_lists o) = length DEFAULT_LEVELS
    /\ length (path (get (divs (out_store o)) 2)) = 2
    /\ last (path (get (divs (out_store o)) 2)) = Some (name (get (divs (out_store o)) 2))
    /\ exists p, 2 ∈ children (get (divs (out_store o)) p)
         /\ path (get (divs (out_store o)) 2)
            = path (get (divs (out_store o)) p) ++ [name (get (divs (out_store o)) 2)]
         /\ exists sl', out_lists o !! 0 = Some sl' /\ p ∈ sl'.
Proof.
  assert (E : match build example_rows DEFAULT_LEVELS with
              | Ok o => out_lists o !! 1
              | Raise _ => None
              end = Some [2; 5]) by (vm_compute; reflexivity).
  destruct (build example_rows DEFAULT_LEVELS) as [o|e] eqn:H; [|discriminate].
  assert (Hin : 2 ∈ [2; 5]) by apply list_elem_of_here.
  exists o, [2; 5]. split; [done|]. split; [done|]. split; [done|].
  exact (listed_division_shape _ _ _ 1 _ 2 H E Hin).
Defined.

Lemma descend_leaf_count n names : forall i node ds dl rid,
  i + length names = n -> names ≠ [] -> length dl = n ->
  length (descend n i names rid node ds dl).2 = n
  /\ length (default [] ((descend n i names rid node ds dl).2 !! (n - 1)))
     = length (default [] (dl !! (n - 1)))
       + (if forallb (fun x => negb (is_empty (normalize_name x))) names then 1 else 0).
Proof.
  induction names as [|nm rest IH]; intros i node ds dl rid Hn Hne Hdl; [done|].
  simpl in Hn. simpl.
  destruct (is_empty (normalize_name nm)); simpl; [split; [done|lia]|].
  destruct (decide (rest = [])) as [->|Hrest].
  - assert (Hleaf : S i = n) by (simpl in Hn; lia).
    unfold find_child. rewrite bool_decide_eq_true_2 by done. simpl.
    rewrite length_alter. split; [done|].
    replace (n - 1) with i by lia. rewrite list_lookup_alter_eq.
    destruct (dl !! i) as [l|] eqn:Hl; simpl.
    + rewrite length_app. simpl. lia.
    + apply lookup_ge_None in Hl. lia.
  - assert (Hi : i ≠ n - 1).
    { destruct rest; [done|]. simpl in Hn. lia. }
    destruct (find_child _ _ _ _) as [c|].
    + apply IH; [lia|done|done].
    + unfold create_child. simpl.
      edestruct (IH (S i) (length ds)) as [H1 H2];
        [lia|done| |split; [exact H1|]].
      * by rewrite length_alter.
      * rewrite H2. by rewrite list_lookup_alter_ne.
Qed.

Lemma read_rows_leaf_count levels rows : forall st dl st' dl',
  0 < length levels -> length dl = length levels ->
  read_rows levels rows st dl = Ok (st', dl') ->
  length dl' = length levels
  /\ length (default [] (dl' !! (length levels - 1)))
     = length (default [] (dl !! (length levels - 1)))
       + length (filter (fun r => reaches_leaf levels r = true) rows).
Proof.
  induction rows as [|r rs IH]; intros st dl st' dl' Hpos Hdl; simpl.
  - intros [= <- <-]. split; [done|]. simpl. lia.
  - unfold read_row. destruct (row_names levels r) as [names|e] eqn:Hnames;
      simpl; [|done].
    pose proof (row_names_length _ _ _ Hnames) as Hlen.
    destruct (descend_leaf_count (length levels) names 0 root_id (divs st) dl
                (length (heap st))) as [H1 H2]; [lia|intros ->; simpl in Hlen; lia|done|].
    destruct (descend _ _ _ _ _ _ _) as [ds1 dl1]. simpl in *.
    intros Hrest. destruct (IH _ _ _ _ Hpos H1 Hrest) as [H3 H4].
    split; [done|]. rewrite H4, H2. rewrite filter_cons.
    assert (Hr : reaches_leaf levels r
                 = forallb (fun x => negb (is_empty (normalize_name x))) names)
      by (unfold reaches_leaf; by rewrite Hnames).
    destruct (forallb _ names); simpl.
    + rewrite decide_True by done. simpl. lia.
    + rewrite decide_False by (rewrite Hr; done). lia.
Qed.

(** X6.  With at least one level, the list of the last level gains one
    division for every record whose names are non-empty at every level, and
    none for any other record: leaves are never merged. *)
Theorem one_leaf_per_complete_record st rows levels st' dl :
  0 < length levels ->
  read_divisions st rows levels = Ok (st', dl) ->
  exists leaves, dl !! (length levels - 1) = Some leaves
    /\ length leaves = length (filter (fun r => reaches_leaf levels r = true) rows).
Proof.
  intros Hpos Hread.
  destruct (read_rows_leaf_count levels rows st _ st' dl Hpos
              ltac:(by rewrite length_replicate) Hread) as [Hlen Hcount].
  destruct (lookup_lt_is_Some_2 dl (length levels - 1) ltac:(lia)) as [leaves Hl].
  exists leaves. split; [done|]. rewrite Hl in Hcount. simpl in Hcount.
  rewrite Hcount, lookup_replicate_2 by lia. done.
Qed.

Lemma one_leaf_per_complete_record_witness :
  exists st' dl,
    0 < length DEFAULT_LEVELS
    /\ read_divisions initial_store example_rows DEFAULT_LEVELS = Ok (st', dl)
    /\ exists leaves, dl !! (length DEFAULT_LEVELS - 1) = Some leaves
         /\ length leaves
            = length (filter (fun r => reaches_leaf DEFAULT_LEVELS r = true) example_rows).
Proof.
  destruct (read_divisions initial_store example_rows DEFAULT_LEVELS)
    as [[st' dl]|e] eqn:H; [|vm_compute in H; discriminate].
  assert (Hpos : 0 < length DEFAULT_LEVELS) by (simpl; lia).
  exists st', dl. split; [done|]. split; [done|].
  exact (one_leaf_per_complete_record _ _ _ _ _ Hpos H).
Defined.

(** ** The sort *)

Lemma seq_leb_refl a : seq_leb a a = true.
Proof. unfold seq_leb. by rewrite seq_compare_refl. Qed.

Lemma insert_sorted_filter_same (ds : list Division) (key : Division -> list string)
    (k : list string) (x : nat) (l : list nat) :
  StronglySorted (fun a b => key_le key ds a b = true) l ->
  filter (fun y => key (get ds y) = k) (insert_sorted (key_le key ds) x l)
  = filter (fun y => key (get ds y) = k) (x :: l).
Proof.
  induction 1 as [|y l Hl IH Hy]; [done|]. simpl.
  destruct (key_le key ds x y) eqn:Hxy; [done|].
  rewrite !filter_cons in *. rewrite IH.
  destruct (decide (key (get ds y) = k)) as [Hk|Hk];
    destruct (decide (key (get ds x) = k)) as [Hx|Hx]; try done.
  unfold key_le in Hxy. rewrite Hk, Hx, seq_leb_refl in Hxy. done.
Qed.

(** X7.  [sort_divisions] returns a rearrangement of its argument that is
    ordered by the key (the path with the catch-all names replaced by "~"),
    and divisions with the same key keep the order they had. *)
Theorem sort_divisions_stable_sort (ds : list Division) (ids : list nat) :
  sort_divisions ds ids ≡ₚ ids
  /\ (forall i j a b, i < j ->
        sort_divisions ds ids !! i = Some a -> sort_divisions ds ids !! j = Some b ->
        seq_leb (sort_key (get ds a)) (sort_key (get ds b)) = true)
  /\ (forall k, filter (fun y => sort_key (get ds y) = k) (sort_divisions ds ids)
                = filter (fun y => sort_key (get ds y) = k) ids).
Proof.
  split; [apply sorted_perm|]. split.
  - intros i j a b Hij Hi Hj.
    exact (strongly_sorted_lookup (key_le sort_key ds) _ i j a b
             (sort_divisions_by_sorted sort_key ds ids) Hi Hj Hij).
  - intros k. unfold sort_divisions, sort_divisions_by.
    induction ids as [|x ids IH]; [done|].
    change (sorted (key_le sort_key ds) (x :: ids))
      with (insert_sorted (key_le sort_key ds) x (sorted (key_le sort_key ds) ids)).
    rewrite insert_sorted_filter_same by apply (sort_divisions_by_sorted sort_key).
    rewrite !filter_cons, IH. done.
Qed.

Lemma insert_sorted_ext_in {A} (le le' : A -> A -> bool) (x : A) (l : list A) :
  (forall b, b ∈ l -> le x b = le' x b) ->
  insert_sorted le x l = insert_sorted le' x l.
Proof.
  induction l as [|y l IH]; intros H; simpl; [done|].
  rewrite (H y) by by left. rewrite IH; [done|]. intros b Hb. apply H. by right.
Qed.

Lemma sorted_ext_in {A} (le le' : A -> A -> bool) (l : list A) :
  (forall a b, a ∈ l -> b ∈ l -> le a b = le' a b) ->
  sorted le l = sorted le' l.
Proof.
  induction l as [|x l IH]; intros H; [done|].
  change (sorted le (x :: l)) with (insert_sorted le x (sorted le l)).
  change (sorted le' (x :: l)) with (insert_sorted le' x (sorted le' l)).
  rewrite IH by (intros a b Ha Hb; apply H; by right).
  apply insert_sorted_ext_in. intros b Hb. apply elem_of_sorted in Hb.
  apply H; [by left|by right].
Qed.

Lemma sort_key_plain (d : Division) :
  (forall nm, nm ∈ path d -> nm ≠ "OTHER" /\ nm ≠ "(other)") ->
  sort_key d = path_key d.
Proof.
  unfold sort_key, path_key. induction (path d) as [|nm p IH]; intros H; [done|].
  rewrite fmap_cons. destruct (H nm ltac:(by left)) as [H1 H2].
  rewrite other_last_id by done. f_equal. apply IH. intros nm' Hnm'. apply H. by right.
Qed.

(** X27.  On divisions whose paths hold neither "OTHER" nor "(other)" the
    site-specific [sort_divisions] orders as the generic one that it
    replaces does, by the path itself. *)
Theorem sort_divisions_plain_order (ds : list Division) (ids : list nat) :
  (forall id nm, id ∈ ids -> nm ∈ path (get ds id) -> nm ≠ "OTHER" /\ nm ≠ "(other)") ->
  sort_divisions ds ids = sort_divisions_by path_key ds ids.
Proof.
  intros H. unfold sort_divisions, sort_divisions_by. apply sorted_ext_in.
  intros a b Ha Hb. unfold key_le.
  rewrite (sort_key_plain (get ds a)) by (intros nm Hnm; exact (H a nm Ha Hnm)).
  by rewrite (sort_key_plain (get ds b)) by (intros nm Hnm; exact (H b nm Hb Hnm)).
Qed.

Lemma sort_divisions_plain_order_witness :
  (forall id nm, id ∈ [2; 1] -> nm ∈ path (get small_divs id) ->
     nm ≠ "OTHER" /\ nm ≠ "(other)")
  /\ sort_divisions small_divs [2; 1] = sort_divisions_by path_key small_divs [2; 1].
Proof.
  assert (H : forall id nm, id ∈ [2; 1] -> nm ∈ path (get small_divs id) ->
                nm ≠ "OTHER" /\ nm ≠ "(other)").
  { intros id nm Hid Hnm.
    repeat (apply elem_of_cons in Hid as [->|Hid]); [| |by apply elem_of_nil in Hid];
      simpl in Hnm;
      repeat (apply elem_of_cons in Hnm as [->|Hnm]);
      try (by apply elem_of_nil in Hnm); split; discriminate. }
  split; [exact H|]. exact (sort_divisions_plain_order small_divs [2; 1] H).
Defined.

(** ** Ranks *)

(** X8.  Every division on the list of a level has a rank between 1 and
    the length of the list, and a division whose key is strictly smaller
    has a strictly smaller rank. *)
Theorem ranks_ordered_and_bounded rows levels o i sl a b :
  build rows levels = Ok o ->
  out_lists o !! i = Some sl ->
  a ∈ sl -> b ∈ sl ->
  let ds := divs (out_store o) in
  exists ra rb,
    out_indexes o !! path (get ds a) = Some ra
    /\ out_indexes o !! path (get ds b) = Some rb
    /\ 1 <= ra <= length sl /\ 1 <= rb <= length sl
    /\ (seq_ltb (sort_key (get ds a)) (sort_key (get ds b)) = true -> ra < rb).
Proof.
  intros Hb Hsl Ha Hbin ds.
  destruct (rank_is_last_position rows levels o Hb i sl a Hsl Ha)
    as (ka & a' & Hka & _ & Hra & _).
  destruct (rank_is_last_position rows levels o Hb i sl b Hsl Hbin)
    as (kb & b' & Hkb & _ & Hrb & _).
  exists (S ka), (S kb). split; [done|]. split; [done|].
  apply lookup_lt_Some in Hka, Hkb. split; [lia|]. split; [lia|].
  intros Hlt.
  destruct (rank_monotone rows levels o Hb i sl a b Hsl Ha Hbin Hlt)
    as (ra & rb & Hra' & Hrb' & Hlt').
  subst ds. rewrite Hra in Hra'. rewrite Hrb in Hrb'. by simplify_eq.
Qed.

Lemma ranks_ordered_and_bounded_witness :
  exists o sl,
    build example_rows DEFAULT_LEVELS = Ok o
    /\ out_lists o !! 1 = Some sl
    /\ 2 ∈ sl /\ 5 ∈ sl
    /\ exists ra rb,
         out_indexes o !! path (get (divs (out_store o)) 2) = Some ra
         /\ out_indexes o !! path (get (divs (out_store o)) 5) = Some rb
         /\ 1 <= ra <= length sl /\ 1 <= rb <= length sl
         /\ (seq_ltb (sort_key (get (divs (out_store o)) 2))
                     (sort_key (get (divs (out_store o)) 5)) = true -> ra < rb).
Proof.
  assert (E : match build example_rows DEFAULT_LEVELS with
              | Ok o => out_lists o !! 1
              | Raise _ => None
              end = Some [2; 5]) by (vm_compute; reflexivity).
  destruct (build example_rows DEFAULT_LEVELS) as [o|e] eqn:H; [|discriminate].
  assert (Ha : 2 ∈ [2; 5]) by apply list_elem_of_here.
  assert (Hb : 5 ∈ [2; 5]) by apply list_elem_of_further, list_elem_of_here.
  exists o, [2; 5]. split; [done|]. split; [done|]. split; [done|]. split; [done|].
  exact (ranks_ordered_and_bounded _ _ _ 1 _ 2 5 H E Ha Hb).
Defined.

(** X9.  At a level above the last, the rank of a division is its position
    in the sorted list of the level, counted from 1. *)
Theorem upper_level_ranks_are_positions rows levels o i sl k d :
  build rows levels = Ok o ->
  out_lists o !! i = Some sl ->
  S i < length levels ->
  sl !! k = Some d ->
  out_indexes o !! path (get (divs (out_store o)) d) = Some (S k).
Proof.
  intros Hb Hsl Hi Hk.
  pose proof (ranks_contiguous_above_leaves rows levels o Hb i sl Hsl Hi) as H.
  apply (f_equal (fun l => l !! k)) in H. unfold ranks_of in H.
  rewrite !list_lookup_fmap, Hk in H. simpl in H.
  rewrite lookup_seq_lt in H by by eapply lookup_lt_Some. simpl in H. congruence.
Qed.

Lemma upper_level_ranks_are_positions_witness :
  exists o sl,
    build example_rows DEFAULT_LEVELS = Ok o
    /\ out_lists o !! 1 = Some sl
    /\ 2 < length DEFAULT_LEVELS
    /\ sl !! 1 = Some 5
    /\ out_indexes o !! path (get (divs (out_store o)) 5) = Some 2.
Proof.
  assert (E : match build example_rows DEFAULT_LEVELS with
              | Ok o => out_lists o !! 1
              | Raise _ => None
              end = Some [2; 5]) by (vm_compute; reflexivity).
  destruct (build example_rows DEFAULT_LEVELS) as [o|e] eqn:H; [|discriminate].
  assert (Hi : 2 < length DEFAULT_LEVELS) by (simpl; lia).
  assert (Hk : [2; 5] !! 1 = Some 5) by reflexivity.
  exists o, [2; 5]. split; [done|]. split; [done|]. split; [done|]. split; [done|].
  exact (upper_level_ranks_are_positions _ _ _ 1 _ 1 5 H E Hi Hk).
Defined.

(** ** The pages of the gazetteer *)

Section RenderShape.
Context (ds : list Division) (indexes : gmap (list string) nat).

Lemma render_item_shape leaf child_level c hp hp' it :
  render_item ds indexes leaf child_level c hp = Ok (hp', it) ->
  item_child it = c /\ item_ranked ds indexes it.
Proof.
  unfold render_item, index_of, item_ranked.
  destruct (fix_up_division (get ds c) hp) as [hp1|e]; simpl; [|done].
  destruct (indexes !! path (get ds c)) as [j|] eqn:Hj; simpl; [|done].
  destruct leaf.
  - destruct (LEAF_ITEM_TEMPLATE _) as [text|e]; simpl; [|done].
    intros [= <- <-]. simpl. done.
  - simpl. intros [= <- <-]. simpl. done.
Qed.

Lemma render_items_shape leaf child_level cs : forall hp hp' items,
  render_items ds indexes leaf child_level cs hp = Ok (hp', items) ->
  item_child <$> items = cs /\ Forall (item_ranked ds indexes) items.
Proof.
  induction cs as [|c rest IH]; intros hp hp' items; simpl.
  - intros [= <- <-]. done.
  - destruct (render_item ds indexes leaf child_level c hp) as [[hp1 it]|e] eqn:Hit;
      simpl; [|done].
    destruct (render_items ds indexes leaf child_level rest hp1) as [[hp2 its]|e] eqn:Hits;
      simpl; [|done].
    intros [= <- <-].
    destruct (render_item_shape _ _ _ _ _ _ Hit) as (Hc & Hr).
    destruct (IH _ _ _ Hits) as (Hcs & Hrs).
    split; [by rewrite fmap_cons, Hc, Hcs|]. by constructor.
Qed.

Lemma render_page_shape levels leaf level child_level d hp hp' pg :
  render_page levels ds indexes leaf level child_level d hp = Ok (hp', pg) ->
  page_division pg = d /\ page_faithful ds indexes pg.
Proof.
  unfold render_page, index_of, page_faithful.
  destruct (render_items _ _ _ _ _ _) as [[hp1 items]|e] eqn:Hits; simpl; [|done].
  destruct (indexes !! path (get ds d)) as [j|] eqn:Hj; simpl; [|done].
  intros [= <- <-]. simpl.
  destruct (render_items_shape _ _ _ _ _ _ Hits) as (Hcs & Hrs). done.
Qed.

Lemma render_pages_shape levels leaf level child_level divisions : forall hp hp' pages,
  render_pages levels ds indexes leaf level child_level divisions hp = Ok (hp', pages) ->
  page_division <$> pages = divisions /\ Forall (page_faithful ds indexes) pages.
Proof.
  induction divisions as [|d rest IH]; intros hp hp' pages; simpl.
  - intros [= <- <-]. done.
  - destruct (render_page _ _ _ _ _ _ _ _) as [[hp1 pg]|e] eqn:Hpg; simpl; [|done].
    destruct (render_pages _ _ _ _ _ _ _ _) as [[hp2 pgs]|e] eqn:Hpgs; simpl; [|done].
    intros [= <- <-].
    destruct (render_page_shape _ _ _ _ _ _ _ _ Hpg) as (Hd & Hf).
    destruct (IH _ _ _ Hpgs) as (Hds & Hfs).
    split; [by rewrite fmap_cons, Hd, Hds|]. by constructor.
Qed.

Lemma render_levels_shape all_levels levels : forall i leaf child_levels dls hp hp' pages,
  render_levels all_levels ds indexes i leaf levels child_levels dls hp = Ok (hp', pages) ->
  page_division <$> pages
  = concat (take (length levels `min` length child_levels) dls)
  /\ Forall (page_faithful ds indexes) pages.
Proof.
  induction levels as [|level ls IH]; intros i leaf child_levels dls hp hp' pages; simpl.
  - intros [= <- <-]. done.
  - destruct child_levels as [|child_level cls]; [intros [= <- <-]; done|].
    destruct dls as [|divisions rest]; [intros [= <- <-]; done|].
    destruct (render_pages _ _ _ _ _ _ _ _) as [[hp1 pgs]|e] eqn:Hpgs; simpl; [|done].
    destruct (render_levels _ _ _ _ _ _ _ _ _) as [[hp2 more]|e] eqn:Hmore; simpl; [|done].
    intros [= <- <-].
    destruct (render_pages_shape _ _ _ _ _ _ _ _ Hpgs) as (Hd & Hf).
    destruct (IH _ _ _ _ _ _ _ Hmore) as (Hds & Hfs).
    split; [by rewrite fmap_app, Hd, Hds|]. by apply Forall_app.
Qed.
End RenderShape.

Lemma write_gazetteer_shape st levels dls indexes hp pages contents :
  write_gazetteer st levels dls indexes = Ok (hp, pages, contents) ->
  page_division <$> pages = concat (take (length levels - 1) dls)
  /\ Forall (page_faithful (divs st) indexes) pages.
Proof.
  unfold write_gazetteer.
  destruct (render_levels _ _ _ _ _ _ _ _ _) as [[hp1 pgs]|e] eqn:Hr; simpl; [|done].
  intros [= <- <- _].
  destruct (render_levels_shape _ _ _ _ _ _ _ _ _ _ _ Hr) as (H1 & H2).
  split; [|done]. rewrite H1. f_equal. f_equal.
  destruct levels as [|l ls]; [done|].
  change (tail (l :: ls)) with ls. change (length (l :: ls)) with (S (length ls)). lia.
Qed.

(** X11.  The gazetteer has exactly one page for every division of every
    level above the last, level by level in sorted order, and the page
    numbers within a level run 1, 2, 3, ... without a gap. *)
Theorem one_page_per_upper_division rows levels o hp pages contents :
  build rows levels = Ok o ->
  write_gazetteer (out_store o) levels (out_lists o) (out_indexes o)
  = Ok (hp, pages, contents) ->
  page_division <$> pages = concat (take (length levels - 1) (out_lists o))
  /\ page_index <$> pages
     = concat ((fun l : list nat => seq 1 (length l)) <$> take (length levels - 1) (out_lists o)).
Proof.
  intros Hb Hw. destruct (write_gazetteer_shape _ _ _ _ _ _ _ Hw) as (Hd & Hf).
  split; [done|].
  set (ds := divs (out_store o)) in *.
  set (rk := fun d => default 0 (out_indexes o !! path (get ds d))).
  assert (Hidx : page_index <$> pages = rk <$> (page_division <$> pages)).
  { rewrite <- list_fmap_compose. apply Forall_fmap_ext_1.
    eapply Forall_impl; [exact Hf|]. intros pg (Hpg & _). simpl.
    unfold rk. by rewrite Hpg. }
  rewrite Hidx, Hd. clear Hidx Hd Hf Hw.
  assert (Hall : forall i l, take (length levels - 1) (out_lists o) !! i = Some l ->
            rk <$> l = seq 1 (length l)).
  { intros i l Hl. apply lookup_take_Some in Hl as [Hl Hi].
    pose proof (ranks_contiguous_above_leaves rows levels o Hb i l Hl ltac:(lia)) as H.
    unfold ranks_of in H. apply (f_equal (fmap (default 0))) in H.
    rewrite <- !list_fmap_compose in H. etrans; [exact H|].
    clear. induction (seq 1 (length l)) as [|x xs IH]; simpl; [done|]. by f_equal. }
  revert Hall. generalize (take (length levels - 1) (out_lists o)).
  intros L HL. induction L as [|l L IH]; [done|]. simpl.
  rewrite fmap_app, (HL 0 l eq_refl). f_equal.
  apply IH. intros i l' Hl'. apply (HL (S i)). done.
Qed.

Lemma one_page_per_upper_division_witness :
  exists o hp pages contents,
    build example_rows DEFAULT_LEVELS = Ok o
    /\ write_gazetteer (out_store o) DEFAULT_LEVELS (out_lists o) (out_indexes o)
       = Ok (hp, pages, contents)
    /\ page_division <$> pages
       = concat (take (length DEFAULT_LEVELS - 1) (out_lists o))
    /\ page_index <$> pages
       = concat ((fun l : list nat => seq 1 (length l))
                   <$> take (length DEFAULT_LEVELS - 1) (out_lists o)).
Proof.
  assert (E : match build example_rows DEFAULT_LEVELS with
              | Ok o =>
                  match write_gazetteer (out_store o) DEFAULT_LEVELS (out_lists o)
                          (out_indexes o) with
                  | Ok _ => true
                  | Raise _ => false
                  end
              | Raise _ => false
              end = true) by (vm_compute; reflexivity).
  destruct (build example_rows DEFAULT_LEVELS) as [o|e] eqn:H; [|discriminate].
  destruct (write_gazetteer (out_store o) DEFAULT_LEVELS (out_lists o) (out_indexes o))
    as [[[hp pages] contents]|e] eqn:Hw; [|discriminate].
  exists o, hp, pages, contents. split; [done|]. split; [done|].
  exact (one_page_per_upper_division _ _ _ _ _ _ H Hw).
Defined.

(** ** The fix-up of a record *)

Lemma string_length_app (a b : string) :
  String.length (a +:+ b) = String.length a + String.length b.
Proof. induction a as [|c a IH]; [done|]. simpl. by rewrite IH. Qed.

Lemma take_chars_length k s : String.length (take_chars k s) = k `min` String.length s.
Proof.
  revert s. induction k as [|k IH]; intros [|c s]; simpl; try done.
  by rewrite IH.
Qed.

(** X13.  For a limit of at least 3, [fit_length] returns a text within
    the limit: the text itself when it fits, and otherwise its first
    [max_length - 3] characters followed by three dots, which is exactly
    [max_length] characters long. *)
Theorem fit_length_bound (text : string) (max_length : nat) :
  3 <= max_length ->
  String.length (fit_length text max_length) <= max_length
  /\ (String.length text <= max_length -> fit_length text max_length = text)
  /\ (max_length < String.length text ->
        fit_length text max_length = take_chars (max_length - 3) text +:+ "..."
        /\ String.length (fit_length text max_length) = max_length).
Proof.
  intros Hmax. unfold fit_length.
  destruct (Nat.ltb_spec max_length (String.length text)) as [Hlt|Hge].
  - rewrite string_length_app, take_chars_length. simpl.
    split; [lia|]. split; [lia|]. intros _. split; [done|lia].
  - split; [done|]. split; [done|]. lia.
Qed.

Lemma fit_length_bound_witness :
  3 <= 24
  /\ String.length (fit_length "Kpetema Junction New Site" 24) <= 24
  /\ (String.length "Kpetema Junction New Site" <= 24 ->
        fit_length "Kpetema Junction New Site" 24 = "Kpetema Junction New Site")
  /\ (24 < String.length "Kpetema Junction New Site" ->
        fit_length "Kpetema Junction New Site" 24
        = take_chars (24 - 3) "Kpetema Junction New Site" +:+ "..."
        /\ String.length (fit_length "Kpetema Junction New Site" 24) = 24).
Proof.
  assert (H : 3 <= 24) by lia.
  split; [exact H|]. exact (fit_length_bound "Kpetema Junction New Site" 24 H).
Defined.

Lemma row_get_text r k : text_cell r k -> row_get r k = Some (row_text r k).
Proof.
  unfold text_cell, row_text, row_get. by destruct (r !! k) as [[v|]|].
Qed.

Lemma row_get_None r k : row_get r k = None -> r !! k = Some None.
Proof. unfold row_get. by destruct (r !! k) as [[v|]|]. Qed.

(** The fix-up returns exactly on the records whose three cells are
    strings, and then leaves [fixed_up]. *)
Lemma fix_up_row_spec r : fixable r -> fix_up_row r = Ok (fixed_up r).
Proof.
  intros (Ha & Hh & Hc). unfold fix_up_row.
  rewrite (row_get_text r "ALT_VILLAGE_NAME" Ha). simpl.
  rewrite (row_get_text r "HISTORICAL_NAME" Hh). simpl.
  assert (Hg : row_get (<["VILLAGE_OTHER_NAMES" := Some (join "<br>" (other_names r))]> r)
                 "CHIEF_NAME" = Some (row_text r "CHIEF_NAME")).
  { rewrite <- (row_get_text r "CHIEF_NAME" Hc). unfold row_get.
    by rewrite (lookup_insert_ne _ "VILLAGE_OTHER_NAMES" "CHIEF_NAME"). }
  unfold other_names in Hg. rewrite Hg. simpl. done.
Qed.

Lemma fix_up_row_fixable r r' : fix_up_row r = Ok r' -> fixable r.
Proof.
  intros (alt & hist & chief & others & words & Ha & Hh & Hc & _)%fix_up_row_inv.
  unfold fixable, text_cell, row_get in *.
  repeat split; intros E; rewrite E in *; done.
Qed.

Lemma fix_up_row_unfixable r : ~ fixable r -> fix_up_row r = Raise AttributeError.
Proof.
  intros Hn. destruct (fix_up_row r) as [r'|e] eqn:E.
  - by apply fix_up_row_fixable in E.
  - by apply fix_up_row_error in E as ->.
Qed.

Lemma fixed_up_lookup r k :
  k ≠ "VILLAGE_OTHER_NAMES" -> k ≠ "CHIEF_NAME" -> fixed_up r !! k = r !! k.
Proof. intros H1 H2. unfold fixed_up. by rewrite !lookup_insert_ne. Qed.

Lemma fixed_up_chief r :
  fixed_up r !! "CHIEF_NAME" = Some (Some (join " " (break_long (chief_words r)))).
Proof. unfold fixed_up. by rewrite lookup_insert_eq. Qed.

Lemma fixed_up_others r :
  fixed_up r !! "VILLAGE_OTHER_NAMES" = Some (Some (join "<br>" (other_names r))).
Proof.
  unfold fixed_up.
  rewrite (lookup_insert_ne _ "CHIEF_NAME" "VILLAGE_OTHER_NAMES") by done.
  by rewrite lookup_insert_eq.
Qed.

Lemma fixed_up_fixable r : fixable r -> fixable (fixed_up r).
Proof.
  intros (Ha & Hh & Hc). unfold fixable, text_cell.
  rewrite !fixed_up_lookup by done. rewrite fixed_up_chief. done.
Qed.

Lemma fixed_up_leaf_columns r : has_leaf_columns r -> has_leaf_columns (fixed_up r).
Proof. intros [H1 H2]. split; by rewrite fixed_up_lookup. Qed.

(** X14.  [fix_up_division] either returns, and then it has changed the
    record of its division only, and in that record only the cells
    VILLAGE_OTHER_NAMES and CHIEF_NAME, both of which are strings
    afterwards; or it raises [AttributeError], and then one of the three
    cells it reads in the record of its division is [None]. *)
Theorem fix_up_division_frame (d : Division) (hp : list csv_row) :
  match fix_up_division d hp with
  | Ok hp' =>
      length hp' = length hp
      /\ (forall k, k ≠ row d -> hp' !! k = hp !! k)
      /\ (forall r, hp !! row d = Some r ->
            exists r' c1 c2, hp' !! row d = Some r'
              /\ r' !! "VILLAGE_OTHER_NAMES" = Some (Some c1)
              /\ r' !! "CHIEF_NAME" = Some (Some c2)
              /\ forall col, col ≠ "VILLAGE_OTHER_NAMES" -> col ≠ "CHIEF_NAME" ->
                   r' !! col = r !! col)
  | Raise e =>
      e = AttributeError /\ exists r, hp !! row d = Some r /\ ~ fixable r
  end.
Proof.
  unfold fix_up_division. destruct (hp !! row d) as [r|] eqn:Hr.
  - destruct (fix_up_row r) as [r'|e] eqn:Hfix; simpl.
    + pose proof (fix_up_row_fixable _ _ Hfix) as Hok.
      rewrite (fix_up_row_spec r Hok) in Hfix. injection Hfix as <-.
      split; [by rewrite length_insert|]. split.
      * intros k Hk. by rewrite list_lookup_insert_ne.
      * intros r0 [= <-]. eexists (fixed_up r), _, _.
        rewrite list_lookup_insert_eq by by eapply lookup_lt_Some.
        split; [done|]. split; [apply fixed_up_others|].
        split; [apply fixed_up_chief|]. intros col. apply fixed_up_lookup.
    + split; [by eapply fix_up_row_error|]. exists r. split; [done|].
      intros Hok. by rewrite (fix_up_row_spec r Hok) in Hfix.
  - simpl. split; [done|]. split; [done|]. intros r0 Hr0. done.
Qed.

Lemma chief_words_words r : Forall (fun w => is_word w = true) (chief_words r).
Proof.
  unfold chief_words, drop_chief, split.
  pose proof (proj1 (split_scan_words (row_text r "CHIEF_NAME"))) as H.
  destruct (split_scan _).1 as [|w rest]; [done|].
  case_bool_decide; [by inversion H|done].
Qed.

Lemma drop_chief_id ws : head ws ≠ Some "Chief" -> drop_chief ws = ws.
Proof.
  destruct ws as [|w rest]; [done|]. simpl. intros H.
  rewrite bool_decide_eq_false_2; [done|]. by intros ->.
Qed.

Lemma row_text_fixed_up_chief r :
  row_text (fixed_up r) "CHIEF_NAME" = join " " (break_long (chief_words r)).
Proof. unfold row_text, row_get. by rewrite fixed_up_chief. Qed.

Lemma other_names_fixed_up r : other_names (fixed_up r) = other_names r.
Proof. unfold other_names, row_text, row_get. by rewrite !fixed_up_lookup. Qed.

(** X15.  The fix-up is not idempotent on a long name of a chief: when the
    cells that the fix-up reads are strings and the name, without a leading
    "Chief", does not start with "Chief" again and has more than two words
    and more than 20 characters, the first fix-up inserts a line break after
    the second word, and a second fix-up of the same record inserts another
    one next to it. *)
Theorem fix_up_row_repeated_break r :
  fixable r ->
  head (chief_words r) ≠ Some "Chief" ->
  2 < length (chief_words r) ->
  20 < String.length (join " " (chief_words r)) ->
  exists r1 r2,
    fix_up_row r = Ok r1 /\ fix_up_row r1 = Ok r2
    /\ r1 !! "CHIEF_NAME"
       = Some (Some (join " " (take 2 (chief_words r) ++ [line_break]
                                ++ drop 2 (chief_words r))))
    /\ r2 !! "CHIEF_NAME"
       = Some (Some (join " " (take 2 (chief_words r) ++ [line_break; line_break]
                                ++ drop 2 (chief_words r)))).
Proof.
  intros Hok Hhead Hlen Hlong.
  assert (Hcond : Nat.ltb 2 (length (chief_words r))
                  && Nat.ltb 20 (String.length (join " " (chief_words r))) = true).
  { apply andb_true_iff. split; by apply Nat.ltb_lt. }
  pose proof (chief_words_words r) as Hw.
  exists (fixed_up r), (fixed_up (fixed_up r)).
  split; [by apply fix_up_row_spec|].
  split; [by apply fix_up_row_spec, fixed_up_fixable|].
  assert (Hbreak : break_long (chief_words r)
                   = take 2 (chief_words r) ++ [line_break] ++ drop 2 (chief_words r)).
  { unfold break_long. by rewrite Hcond. }
  rewrite !fixed_up_chief. unfold chief_words at 4.
  rewrite row_text_fixed_up_chief, Hbreak. split; [done|]. do 3 f_equal.
  destruct (chief_words r) as [|w1 [|w2 [|w3 rest]]] eqn:E; simpl in Hlen; try lia.
  simpl in Hhead.
  inversion Hw as [|? ? Hw1 Hw']; subst. inversion Hw' as [|? ? Hw2 Hw'']; subst.
  change (take 2 (w1 :: w2 :: w3 :: rest) ++ [line_break] ++ drop 2 (w1 :: w2 :: w3 :: rest))
    with (w1 :: w2 :: line_break :: w3 :: rest).
  rewrite split_join by (constructor; [done|constructor; [done|by constructor]]).
  rewrite drop_chief_id by done.
  unfold break_long.
  assert (Hcond' : Nat.ltb 2 (length (w1 :: w2 :: line_break :: w3 :: rest))
            && Nat.ltb 20 (String.length (join " " (w1 :: w2 :: line_break :: w3 :: rest)))
            = true).
  { apply andb_true_iff. split; [apply Nat.ltb_lt; simpl; lia|]. apply Nat.ltb_lt.
    rewrite (join_cons " " w1), (join_cons " " w2), (join_cons " " line_break) by done.
    rewrite (join_cons " " w1), (join_cons " " w2) in Hlong by done.
    rewrite !string_length_app in *. lia. }
  rewrite Hcond'. done.
Qed.

Lemma fix_up_row_repeated_break_witness :
  let r : csv_row := {[ "CHIEF_NAME" := Some "Chief Alpha Bravo Charlie Delta" ]} in
  fixable r
  /\ head (chief_words r) ≠ Some "Chief"
  /\ 2 < length (chief_words r)
  /\ 20 < String.length (join " " (chief_words r))
  /\ exists r1 r2,
       fix_up_row r = Ok r1 /\ fix_up_row r1 = Ok r2
       /\ r1 !! "CHIEF_NAME"
          = Some (Some (join " " (take 2 (chief_words r) ++ [line_break]
                                   ++ drop 2 (chief_words r))))
       /\ r2 !! "CHIEF_NAME"
          = Some (Some (join " " (take 2 (chief_words r) ++ [line_break; line_break]
                                   ++ drop 2 (chief_words r)))).
Proof.
  intros r.
  assert (H0 : fixable r) by (repeat split; vm_compute; discriminate).
  assert (H1 : head (chief_words r) ≠ Some "Chief") by (vm_compute; discriminate).
  assert (H2 : 2 < length (chief_words r)) by (vm_compute; lia).
  assert (H3 : 20 < String.length (join " " (chief_words r))) by (vm_compute; lia).
  split; [exact H0|]. split; [exact H1|]. split; [exact H2|]. split; [exact H3|].
  exact (fix_up_row_repeated_break r H0 H1 H2 H3).
Defined.

(** X16.  When the cells that the fix-up reads are strings and the name of
    the chief, without a leading "Chief", does not start with "Chief" again
    and has at most two words or at most 20 characters, a second fix-up of
    the record changes nothing. *)
Theorem fix_up_row_stable r :
  fixable r ->
  head (chief_words r) ≠ Some "Chief" ->
  length (chief_words r) <= 2 \/ String.length (join " " (chief_words r)) <= 20 ->
  exists r1, fix_up_row r = Ok r1 /\ fix_up_row r1 = Ok r1.
Proof.
  intros Hok Hhead Hshort.
  assert (Hcond : Nat.ltb 2 (length (chief_words r))
                  && Nat.ltb 20 (String.length (join " " (chief_words r))) = false).
  { apply andb_false_iff. destruct Hshort; [left|right]; apply Nat.ltb_ge; lia. }
  assert (Hlong : break_long (chief_words r) = chief_words r).
  { unfold break_long. by rewrite Hcond. }
  assert (Hchief : chief_words (fixed_up r) = chief_words r).
  { unfold chief_words at 1. rewrite row_text_fixed_up_chief, Hlong.
    rewrite split_join by apply chief_words_words. by apply drop_chief_id. }
  exists (fixed_up r). split; [by apply fix_up_row_spec|].
  rewrite (fix_up_row_spec (fixed_up r)) by by apply fixed_up_fixable.
  f_equal. apply map_eq. intros k.
  destruct (decide (k = "CHIEF_NAME")) as [->|Hk1].
  { by rewrite !fixed_up_chief, Hchief. }
  destruct (decide (k = "VILLAGE_OTHER_NAMES")) as [->|Hk2].
  { by rewrite !fixed_up_others, other_names_fixed_up. }
  by rewrite !fixed_up_lookup.
Qed.

Lemma fix_up_row_stable_witness :
  let r : csv_row := {[ "CHIEF_NAME" := Some "Chief Bo Kamara" ]} in
  fixable r
  /\ head (chief_words r) ≠ Some "Chief"
  /\ (length (chief_words r) <= 2 \/ String.length (join " " (chief_words r)) <= 20)
  /\ exists r1, fix_up_row r = Ok r1 /\ fix_up_row r1 = Ok r1.
Proof.
  intros r.
  assert (H0 : fixable r) by (repeat split; vm_compute; discriminate).
  assert (H1 : head (chief_words r) ≠ Some "Chief") by (vm_compute; discriminate).
  assert (H2 : length (chief_words r) <= 2
               \/ String.length (join " " (chief_words r)) <= 20)
    by (left; vm_compute; lia).
  split; [exact H0|]. split; [exact H1|]. split; [exact H2|].
  exact (fix_up_row_stable r H0 H1 H2).
Defined.

(** ** When the pages render *)

Lemma leaf_template_ok r :
  has_leaf_columns r -> exists text, LEAF_ITEM_TEMPLATE (fixed_up r) = Ok text.
Proof.
  intros [[v Hv] [m Hm]]. unfold LEAF_ITEM_TEMPLATE, leaf_cells, row_index.
  rewrite (fixed_up_lookup r "VILLAGE_NAME"), Hv by done. simpl.
  rewrite fixed_up_others. simpl. rewrite fixed_up_chief. simpl.
  rewrite (fixed_up_lookup r "VILLAGE_NAME_MEANING"), Hm by done. simpl. eauto.
Qed.

Section RenderSucceeds.
Context (ds : list Division) (indexes : gmap (list string) nat).

Lemma fix_up_division_ok d hp :
  records_ok hp -> 0 < row d < length hp ->
  exists r, hp !! row d = Some r /\ has_leaf_columns r
    /\ fix_up_division d hp = Ok (<[row d := fixed_up r]> hp)
    /\ records_ok (<[row d := fixed_up r]> hp).
Proof.
  intros Hok Hrow.
  destruct (lookup_lt_is_Some_2 hp (row d) ltac:(lia)) as [r Hr].
  destruct (Hok _ _ Hr ltac:(lia)) as [Hcols Hfix].
  exists r. split; [done|]. split; [done|]. split.
  - unfold fix_up_division. rewrite Hr, (fix_up_row_spec r Hfix). done.
  - intros k r0 Hk Hpos. destruct (decide (row d = k)) as [<-|Hne].
    + rewrite list_lookup_insert_eq in Hk by lia. injection Hk as <-.
      split; [by apply fixed_up_leaf_columns|by apply fixed_up_fixable].
    + rewrite list_lookup_insert_ne in Hk by done. by eapply Hok.
Qed.

Lemma render_item_succeeds leaf child_level c hp :
  renderable ds indexes (length hp) c -> records_ok hp ->
  exists hp' it, render_item ds indexes leaf child_level c hp = Ok (hp', it)
    /\ records_ok hp' /\ length hp' = length hp.
Proof.
  intros [[j Hj] Hrow] Hok. unfold render_item.
  destruct (fix_up_division_ok (get ds c) hp Hok Hrow) as (r & Hr & Hcols & -> & Hok').
  simpl. unfold index_of. rewrite Hj. simpl.
  destruct leaf.
  - rewrite list_lookup_insert_eq by lia. simpl.
    destruct (leaf_template_ok r Hcols) as [text ->]. simpl.
    eexists _, _. split; [done|]. split; [done|]. by rewrite length_insert.
  - simpl. eexists _, _. split; [done|]. split; [done|]. by rewrite length_insert.
Qed.

Lemma render_items_succeeds leaf child_level cs : forall hp,
  (forall c, c ∈ cs -> renderable ds indexes (length hp) c) -> records_ok hp ->
  exists hp' items, render_items ds indexes leaf child_level cs hp = Ok (hp', items)
    /\ records_ok hp' /\ length hp' = length hp.
Proof.
  induction cs as [|c rest IH]; intros hp Hcs Hok; simpl; [by eexists _, _|].
  destruct (render_item_succeeds leaf child_level c hp (Hcs c ltac:(by left)) Hok)
    as (hp1 & it & -> & Hok1 & Hlen1). simpl.
  destruct (IH hp1) as (hp2 & its & -> & Hok2 & Hlen2); [|done|].
  { intros c' Hc'. rewrite Hlen1. apply Hcs. by right. }
  simpl. eexists _, _. split; [done|]. split; [done|]. lia.
Qed.

Lemma render_page_succeeds levels leaf level child_level d hp :
  covered ds indexes d ->
  (forall c, c ∈ children (get ds d) -> renderable ds indexes (length hp) c) ->
  records_ok hp ->
  exists hp' pg, render_page levels ds indexes leaf level child_level d hp = Ok (hp', pg)
    /\ records_ok hp' /\ length hp' = length hp.
Proof.
  intros [j Hj] Hcs Hok. unfold render_page.
  destruct (render_items_succeeds leaf child_level
              (sort_divisions ds (children (get ds d))) hp)
    as (hp1 & its & -> & Hok1 & Hlen1); [|done|].
  { intros c Hc. apply Hcs. unfold sort_divisions, sort_divisions_by in Hc.
    by apply elem_of_sorted in Hc. }
  simpl. unfold index_of. rewrite Hj. simpl. by eexists _, _.
Qed.

Lemma render_pages_succeeds levels leaf level child_level divisions : forall hp,
  (forall d, d ∈ divisions ->
     covered ds indexes d
     /\ forall c, c ∈ children (get ds d) -> renderable ds indexes (length hp) c) ->
  records_ok hp ->
  exists hp' pages,
    render_pages levels ds indexes leaf level child_level divisions hp = Ok (hp', pages)
    /\ records_ok hp' /\ length hp' = length hp.
Proof.
  induction divisions as [|d rest IH]; intros hp Hds Hok; simpl; [by eexists _, _|].
  destruct (Hds d ltac:(by left)) as [Hd Hcs].
  destruct (render_page_succeeds levels leaf level child_level d hp Hd Hcs Hok)
    as (hp1 & pg & -> & Hok1 & Hlen1). simpl.
  destruct (IH hp1) as (hp2 & pgs & -> & Hok2 & Hlen2); [|done|].
  { intros d' Hd'. rewrite Hlen1. apply Hds. by right. }
  simpl. eexists _, _. split; [done|]. split; [done|]. lia.
Qed.

Lemma render_levels_succeeds all_levels levels : forall i leaf child_levels dls hp,
  (forall l d, l ∈ dls -> d ∈ l ->
     covered ds indexes d
     /\ forall c, c ∈ children (get ds d) -> renderable ds indexes (length hp) c) ->
  records_ok hp ->
  exists hp' pages,
    render_levels all_levels ds indexes i leaf levels child_levels dls hp = Ok (hp', pages)
    /\ records_ok hp' /\ length hp' = length hp.
Proof.
  induction levels as [|level ls IH]; intros i leaf child_levels dls hp Hdls Hok;
    simpl; [by eexists _, _|].
  destruct child_levels as [|child_level cls]; [by eexists _, _|].
  destruct dls as [|divisions rest]; [by eexists _, _|].
  destruct (render_pages_succeeds all_levels
              (leaf || bool_decide (S (S i) = length all_levels))
              level child_level divisions hp) as (hp1 & pgs & -> & Hok1 & Hlen1);
    [|done|].
  { intros d Hd. apply (Hdls divisions); [by left|done]. }
  simpl.
  destruct (IH (S i) (leaf || bool_decide (S (S i) = length all_levels)) cls rest hp1)
    as (hp2 & more & -> & Hok2 & Hlen2); [|done|].
  { intros l d Hl Hd. rewrite Hlen1. apply (Hdls l); [by right|done]. }
  simpl. eexists _, _. split; [done|]. split; [done|]. lia.
Qed.
End RenderSucceeds.

(** X12.  If every input record has the columns VILLAGE_NAME and
    VILLAGE_NAME_MEANING, and a string wherever it has one of the columns
    ALT_VILLAGE_NAME, HISTORICAL_NAME and CHIEF_NAME, then after a
    successful build the renderer formats every page and the contents
    without raising, whatever the levels are.  What is left of
    [write_gazetteer] after that is its last statement, which reads the
    modification time of the source file and writes the document. *)
Theorem pages_render_with_leaf_columns rows levels o :
  build rows levels = Ok o ->
  (forall r, r ∈ rows -> has_leaf_columns r /\ fixable r) ->
  exists hp pages contents,
    write_gazetteer (out_store o) levels (out_lists o) (out_indexes o)
    = Ok (hp, pages, contents).
Proof.
  unfold build, build_on.
  destruct (read_divisions initial_store rows levels) as [[st dl]|e] eqn:Hread;
    simpl; [|done].
  pose proof (read_divisions_wf _ _ _ _ Hread) as Hwf.
  destruct (read_rows_from_records levels rows initial_store _ st dl
              (initial_wf (length levels)) ltac:(simpl; lia)) as [Hheap Hprov]; [|done|].
  { intros i d Hd Hi. destruct i as [|[|i]]; simpl in Hd; done. }
  unfold sort_and_number_divisions.
  destruct (sort_and_number_loop_spec (divs st) dl [] ∅) as (H1 & _ & H3).
  destruct (sort_and_number_loop (divs st) dl [] ∅) as [sl idx]. simpl in *.
  intros [= <-] Hrows. simpl. subst sl.
  assert (Hren : forall c, 0 < c < length (divs st) ->
            renderable (divs st) idx (length (heap st)) c).
  { intros c Hc. split.
    - destruct (wf_listed _ _ _ Hwf c Hc) as (i & l & _ & Hl & Hin).
      eapply H3; [|exact Hin]. by eapply list_elem_of_lookup_2.
    - destruct (lookup_lt_is_Some_2 (divs st) c ltac:(lia)) as [d Hd].
      destruct (Hprov c d Hd ltac:(lia)) as (Hpos & r & names & Hr & _).
      unfold get. rewrite Hd. simpl. split; [done|]. by eapply lookup_lt_Some. }
  assert (Hok : records_ok (heap st)).
  { intros k r Hk Hpos. rewrite Hheap in Hk. simpl in Hk.
    destruct k as [|k]; [lia|]. simpl in Hk. apply Hrows.
    by eapply list_elem_of_lookup_2. }
  unfold write_gazetteer.
  destruct (render_levels_succeeds (divs st) idx levels levels 0 false (tail levels)
              (sort_divisions (divs st) <$> dl) (heap st)) as (hp & pages & -> & _);
    [|done|simpl; by eexists _, _, _].
  intros l d Hl Hd. apply list_elem_of_fmap in Hl as (l0 & -> & Hl0).
  unfold sort_divisions, sort_divisions_by in Hd. apply elem_of_sorted in Hd.
  apply list_elem_of_lookup in Hl0 as [i Hi].
  destruct (wf_lists _ _ _ Hwf _ _ _ Hi Hd) as [Hr _].
  split; [by apply Hren|].
  intros c Hc. apply Hren. by apply (wf_child _ _ _ Hwf) in Hc as [? _].
Qed.

Lemma pages_render_with_leaf_columns_witness :
  exists o,
    build example_rows DEFAULT_LEVELS = Ok o
    /\ (forall r, r ∈ example_rows -> has_leaf_columns r /\ fixable r)
    /\ exists hp pages contents,
         write_gazetteer (out_store o) DEFAULT_LEVELS (out_lists o) (out_indexes o)
         = Ok (hp, pages, contents).
Proof.
  destruct (build example_rows DEFAULT_LEVELS) as [o|e] eqn:H;
    [|vm_compute in H; discriminate].
  assert (Hrows : forall r, r ∈ example_rows -> has_leaf_columns r /\ fixable r).
  { intros r Hr. unfold example_rows in Hr.
    repeat (apply elem_of_cons in Hr as [->|Hr]);
      [| | |by apply elem_of_nil in Hr];
      (split; [split; vm_compute; eauto|repeat split; vm_compute; discriminate]). }
  exists o. split; [done|]. split; [done|].
  exact (pages_render_with_leaf_columns _ _ _ H Hrows).
Defined.

(** ** More on the menu tree *)

(** X17.  For at least one column, [transpose] returns as many rows as
    the longest column has cells, every row has one cell per column, and
    cell [j] of row [k] is cell [k] of column [j], or [None] where the
    column is shorter. *)
Theorem transpose_rectangular (columns : list (list string)) :
  columns ≠ [] ->
  length (transpose columns) = max_list (length <$> columns)
  /\ Forall (fun r => length r = length columns) (transpose columns)
  /\ (forall k j r column,
        transpose columns !! k = Some r -> columns !! j = Some column ->
        r !! j = Some (column !! k)).
Proof.
  intros _. unfold transpose. split; [by rewrite length_fmap, length_seq|]. split.
  - apply Forall_fmap, Forall_forall. intros k _. simpl. by rewrite length_fmap.
  - intros k j r column Hr Hc. rewrite list_lookup_fmap in Hr.
    destruct (seq 0 _ !! k) as [k'|] eqn:Hk; [|done]. simpl in Hr. injection Hr as <-.
    apply lookup_seq in Hk as [-> _]. by rewrite list_lookup_fmap, Hc.
Qed.

Lemma transpose_rectangular_witness :
  [["A"; "X"; "Y"]; ["A/X"]] ≠ []
  /\ length (transpose [["A"; "X"; "Y"]; ["A/X"]])
     = max_list (length <$> [["A"; "X"; "Y"]; ["A/X"]])
  /\ Forall (fun r => length r = length [["A"; "X"; "Y"]; ["A/X"]])
       (transpose [["A"; "X"; "Y"]; ["A/X"]])
  /\ (forall k j r column,
        transpose [["A"; "X"; "Y"]; ["A/X"]] !! k = Some r ->
        [["A"; "X"; "Y"]; ["A/X"]] !! j = Some column ->
        r !! j = Some (column !! k)).
Proof.
  assert (H : [["A"; "X"; "Y"]; ["A/X"]] ≠ @nil (list string)) by discriminate.
  split; [exact H|]. exact (transpose_rectangular _ H).
Defined.

Lemma build_lists_length rows levels o :
  build rows levels = Ok o -> length (out_lists o) = length levels.
Proof.
  unfold build, build_on.
  destruct (read_divisions initial_store rows levels) as [[st dl]|e] eqn:Hread;
    simpl; [|done].
  pose proof (read_divisions_wf _ _ _ _ Hread) as Hwf.
  unfold sort_and_number_divisions.
  destruct (sort_and_number_loop_spec (divs st) dl [] ∅) as (H1 & _ & _).
  destruct (sort_and_number_loop (divs st) dl [] ∅) as [sl idx]. simpl in *.
  intros [= <-]. simpl. subst sl. by rewrite length_fmap, (wf_length _ _ _ Hwf).
Qed.

(** X18.  With fewer than two levels the menu-tree exporter raises
    [IndexError] (from [division_lists[-2]]), whatever the input. *)
Theorem menu_tree_needs_two_levels rows levels o :
  build rows levels = Ok o ->
  length levels < 2 ->
  write_csv_menu_tree (divs (out_store o)) (out_lists o) = Raise IndexError.
Proof.
  intros Hb Hn. unfold write_csv_menu_tree, menu_columns.
  rewrite (build_lists_length _ _ _ Hb).
  by destruct (Nat.ltb_spec (length levels) 2) as [|]; [|lia].
Qed.

Lemma menu_tree_needs_two_levels_witness :
  exists o,
    build example_rows [mkLevel "District" "D" "loc_adm1"] = Ok o
    /\ length [mkLevel "District" "D" "loc_adm1"] < 2
    /\ write_csv_menu_tree (divs (out_store o)) (out_lists o) = Raise IndexError.
Proof.
  destruct (build example_rows [mkLevel "District" "D" "loc_adm1"]) as [o|e] eqn:H;
    [|vm_compute in H; discriminate].
  assert (Hn : length [mkLevel "District" "D" "loc_adm1"] < 2) by (simpl; lia).
  exists o. split; [done|]. split; [done|].
  exact (menu_tree_needs_two_levels _ _ _ H Hn).
Defined.

Lemma length_concat_imap {A B} (g : nat -> A -> B) (L : list (list A)) :
  length (concat (imap (fun k l => g k <$> l) L)) = length (concat L).
Proof.
  revert g. induction L as [|l L IH]; intros g; simpl; [done|].
  rewrite !length_app, length_fmap. f_equal. apply (IH (fun k => g (S k))).
Qed.

(** X19.  When the exporter returns its columns there are at least two
    lists; there is one column for the root and one for every division of
    every level but the last; and the first column is the root's: its
    joined path and the names of its sorted children, with no catch-all
    added. *)
Theorem menu_tree_root_column (ds : list Division) (dls : list (list nat))
    (columns : list (list string)) :
  menu_columns ds dls = Ok columns ->
  2 <= length dls
  /\ length columns = S (length (concat (take (length dls - 1) dls)))
  /\ columns !! 0
     = Some (join "/" (path (get ds root_id))
             :: ((fun c => name (get ds c)) <$> sort_divisions ds (children (get ds root_id)))).
Proof.
  unfold menu_columns.
  destruct (Nat.ltb_spec (length dls) 2) as [|Hn]; [done|]. intros [= <-].
  split; [done|]. split.
  - exact (length_concat_imap
             (fun k => menu_column ds (bool_decide (S k = length dls)))
             ([root_id] :: take (length dls - 1) dls)).
  - simpl. unfold menu_column. rewrite bool_decide_eq_false_2 by lia. done.
Qed.

Lemma menu_tree_root_column_witness :
  exists columns,
    menu_columns small_divs small_lists = Ok columns
    /\ 2 <= length small_lists
    /\ length columns = S (length (concat (take (length small_lists - 1) small_lists)))
    /\ columns !! 0
       = Some (join "/" (path (get small_divs root_id))
               :: ((fun c => name (get small_divs c))
                     <$> sort_divisions small_divs (children (get small_divs root_id)))).
Proof.
  destruct (menu_columns small_divs small_lists) as [columns|e] eqn:H;
    [|vm_compute in H; discriminate].
  exists columns. split; [done|].
  exact (menu_tree_root_column _ _ _ H).
Defined.

(** X20.  For the division at position [i] of the list of level [k], with
    at least two more levels below [k], the column at index 1 + (the number
    of divisions of the levels before [k]) + [i] is its joined path
    followed by the names of its sorted children and nothing else: no
    catch-all is added there. *)
Theorem menu_tree_inner_columns ds dls k l i d :
  S (S k) < length dls ->
  dls !! k = Some l ->
  l !! i = Some d ->
  exists columns,
    menu_columns ds dls = Ok columns
    /\ columns !! S (length (concat (take k dls)) + i)
       = Some (join "/" (path (get ds d))
               :: ((fun c => name (get ds c)) <$> sort_divisions ds (children (get ds d)))).
Proof.
  intros Hk Hl Hi. unfold menu_columns.
  destruct (Nat.ltb_spec (length dls) 2) as [Hlt|_]; [lia|].
  eexists. split; [done|].
  pose proof (concat_imap_lookup ([root_id] :: take (length dls - 1) dls)
                (fun k => menu_column ds (bool_decide (S k = length dls)))
                (S k) l i d) as H.
  simpl in H. rewrite take_take, Nat.min_l in H by lia.
  simpl. rewrite H; [|rewrite lookup_take_lt by lia; done|done].
  unfold menu_column. rewrite bool_decide_eq_false_2 by lia. done.
Qed.

Lemma menu_tree_inner_columns_witness :
  2 < length [[1]; [2]; []]
  /\ exists columns,
       menu_columns small_divs [[1]; [2]; []] = Ok columns
       /\ columns !! S (length (concat (take 0 [[1]; [2]; []])) + 0)
          = Some (join "/" (path (get small_divs 1))
                  :: ((fun c => name (get small_divs c))
                        <$> sort_divisions small_divs (children (get small_divs 1)))).
Proof.
  assert (Hk : 2 < length [[1]; [2]; []]) by (simpl; lia).
  split; [exact Hk|].
  exact (menu_tree_inner_columns small_divs [[1]; [2]; []] 0 [1] 0 1 Hk eq_refl eq_refl).
Defined.


(** ** The level specifications of [main] *)

Lemma split_on_nonempty sep s : split_on sep s ≠ [].
Proof.
  destruct s as [|c s]; simpl; [done|].
  case_bool_decide; [done|]. by destruct (split_on sep s).
Qed.

Lemma split_on_no_sep sep s :
  all_chars (fun c => negb (bool_decide (c = sep))) s = true -> split_on sep s = [s].
Proof.
  induction s as [|c s IH]; simpl; [done|].
  rewrite andb_true_iff, negb_true_iff. intros [Hc Hs].
  by rewrite Hc, IH.
Qed.

Lemma split_on_app sep a b :
  all_chars (fun c => negb (bool_decide (c = sep))) a = true ->
  split_on sep (a +:+ String sep b) = a :: split_on sep b.
Proof.
  induction a as [|c a IH]; simpl.
  - intros _. by rewrite bool_decide_eq_true_2.
  - rewrite andb_true_iff, negb_true_iff. intros [Hc Ha].
    by rewrite Hc, IH.
Qed.

Lemma split_on_pieces sep s :
  Forall (fun w => all_chars (fun c => negb (bool_decide (c = sep))) w = true)
    (split_on sep s).
Proof.
  induction s as [|c s IH]; simpl; [by repeat constructor|].
  case_bool_decide as Hc; [by constructor|].
  destruct (split_on sep s) as [|w ws]; simpl.
  - repeat constructor. simpl. by rewrite bool_decide_eq_false_2.
  - inversion IH; subst. constructor; [|done]. simpl.
    by rewrite bool_decide_eq_false_2.
Qed.

Lemma join_split_on sep s :
  join (String sep EmptyString) (split_on sep s) = s.
Proof.
  unfold join. induction s as [|c s IH]; simpl; [done|].
  case_bool_decide as Hc.
  - subst. pose proof (split_on_nonempty sep s) as Hne.
    destruct (split_on sep s) as [|w ws] eqn:E; [done|].
    change (String.concat (String sep "") ("" :: w :: ws))
      with (String sep (String.concat (String sep "") (w :: ws))).
    by rewrite IH.
  - pose proof (split_on_nonempty sep s) as Hne.
    destruct (split_on sep s) as [|w ws] eqn:E; [done|].
    rewrite <- IH. by destruct ws.
Qed.

(** X21.  An element of [args.levels] that is made of an abbreviation, a
    name and a column heading without a slash in them, joined by slashes,
    is turned into the level with these three fields. *)
Theorem parse_level_unparse (lv : Level) :
  no_slash (level_abbr lv) = true ->
  no_slash (level_name lv) = true ->
  no_slash (level_key lv) = true ->
  parse_level (unparse_level lv) = Some lv.
Proof.
  intros Ha Hn Hk. unfold parse_level, unparse_level.
  change (level_abbr lv +:+ "/" +:+ level_name lv +:+ "/" +:+ level_key lv)
    with (level_abbr lv +:+ String "/" (level_name lv +:+ String "/" (level_key lv))).
  rewrite (split_on_app "/" _ _ Ha), (split_on_app "/" _ _ Hn), (split_on_no_sep "/" _ Hk).
  by destruct lv.
Qed.

Lemma parse_level_unparse_witness :
  no_slash "D" = true /\ no_slash "District" = true /\ no_slash "loc_adm1" = true
  /\ parse_level (unparse_level (mkLevel "District" "D" "loc_adm1"))
     = Some (mkLevel "District" "D" "loc_adm1").
Proof.
  split; [reflexivity|]. split; [reflexivity|]. split; [reflexivity|].
  exact (parse_level_unparse (mkLevel "District" "D" "loc_adm1")
           eq_refl eq_refl eq_refl).
Defined.


Lemma parse_level_Some spec lv :
  parse_level spec = Some lv ->
  spec = unparse_level lv
  /\ no_slash (level_abbr lv) = true
  /\ no_slash (level_name lv) = true
  /\ no_slash (level_key lv) = true.
Proof.
  unfold parse_level. intros H.
  pose proof (join_split_on "/" spec) as Hj.
  pose proof (split_on_pieces "/" spec) as Hp.
  destruct (split_on "/" spec) as [|a [|n [|k [|? ?]]]]; try done.
  injection H as <-. simpl.
  inversion Hp as [|? ? Ha Hp1]; subst. inversion Hp1 as [|? ? Hn Hp2]; subst.
  inversion Hp2 as [|? ? Hk _]; subst.
  split; [reflexivity|done].
Qed.

Lemma parse_level_None spec :
  parse_level spec = None -> length (split_on "/" spec) ≠ 3.
Proof.
  unfold parse_level.
  by destruct (split_on "/" spec) as [|a [|n [|k [|? ?]]]].
Qed.

Lemma parse_level_Some_length spec lv :
  parse_level spec = Some lv -> length (split_on "/" spec) = 3.
Proof.
  unfold parse_level.
  by destruct (split_on "/" spec) as [|a [|n [|k [|? ?]]]].
Qed.

Lemma mapM_parse_level specs :
  match mapM parse_level specs with
  | Some levels =>
      specs = unparse_level <$> levels
      /\ Forall (fun spec => length (split_on "/" spec) = 3) specs
  | None => exists spec, spec ∈ specs /\ length (split_on "/" spec) ≠ 3
  end.
Proof.
  induction specs as [|spec specs IH]; [done|].
  cbn [mapM]. destruct (parse_level spec) as [lv|] eqn:Hlv; simpl.
  - destruct (mapM parse_level specs) as [lvs|]; simpl.
    + destruct IH as [IH1 IH2]. split.
      * apply parse_level_Some in Hlv as [-> _]. by rewrite IH1 at 1.
      * constructor; [by eapply parse_level_Some_length|done].
    + destruct IH as (s & Hs & Hn). exists s. split; [by right|done].
  - exists spec. split; [by left|by apply parse_level_None].
Qed.

(** X22.  An argument parses only if it is an abbreviation, a name and a
    column heading joined by two slashes, none of the three with a slash in
    it; the three may be empty. *)
Theorem parse_level_inverse (spec : string) (lv : Level) :
  parse_level spec = Some lv ->
  spec = unparse_level lv
  /\ no_slash (level_abbr lv) = true
  /\ no_slash (level_name lv) = true
  /\ no_slash (level_key lv) = true.
Proof. apply parse_level_Some. Qed.

Lemma parse_level_inverse_witness :
  parse_level "D/District/loc_adm1" = Some (mkLevel "District" "D" "loc_adm1")
  /\ "D/District/loc_adm1" = unparse_level (mkLevel "District" "D" "loc_adm1")
  /\ no_slash "D" = true /\ no_slash "District" = true /\ no_slash "loc_adm1" = true.
Proof.
  split; [reflexivity|].
  exact (parse_level_inverse "D/District/loc_adm1"
           (mkLevel "District" "D" "loc_adm1") eq_refl).
Defined.

(** X23.  When [args.levels] is empty the levels are [DEFAULT_LEVELS];
    otherwise, when each of its elements splits into three pieces at its
    slashes, they are the levels that the elements spell, one per element
    and in their order; and the comprehension fails (on the unpacking)
    exactly when some element does not split into three pieces. *)
Theorem levels_of_args_outcome specs :
  match levels_of_args specs with
  | Some levels =>
      (specs = [] /\ levels = DEFAULT_LEVELS)
      \/ (specs ≠ [] /\ specs = unparse_level <$> levels
          /\ Forall (fun spec => length (split_on "/" spec) = 3) specs)
  | None => exists spec, spec ∈ specs /\ length (split_on "/" spec) ≠ 3
  end.
Proof.
  destruct specs as [|spec specs]; [by left|].
  unfold levels_of_args.
  pose proof (mapM_parse_level (spec :: specs)) as H.
  destruct (mapM parse_level (spec :: specs)) as [lvs|]; [by right|done].
Qed.


(** ** More on the name backfiller *)

Lemma elem_of_rev_iff {A} (x : A) (l : list A) : x ∈ rev l <-> x ∈ l.
Proof. rewrite !list_elem_of_In. symmetry. apply in_rev. Qed.

Section BackfillMore.
Import GeoNames.
Context {V : Type} (truthy : V -> bool).

Lemma first_hit_Some keys (props : gmap string V) k :
  first_hit truthy keys props = Some k -> k ∈ keys /\ has_truthy truthy props k = true.
Proof.
  induction keys as [|k0 ks IH]; simpl; [done|].
  destruct (has_truthy truthy props k0) eqn:Hk0.
  - intros [= <-]. split; [by left|done].
  - intros H. destruct (IH H). split; [by right|done].
Qed.

Lemma first_hit_None keys (props : gmap string V) :
  first_hit truthy keys props = None ->
  forall k, k ∈ keys -> has_truthy truthy props k = false.
Proof.
  induction keys as [|k0 ks IH]; simpl; intros H k Hk.
  - by apply elem_of_nil in Hk.
  - destruct (has_truthy truthy props k0) eqn:Hk0; [done|].
    apply elem_of_cons in Hk as [->|Hk]; auto.
Qed.

Lemma add_name_cases (props : gmap string V) :
  (add_name truthy props = props
   /\ (has_truthy truthy props "name" = true
       \/ forall k, k ∈ name_keys -> has_truthy truthy props k = false))
  \/ exists k v, k ∈ name_keys /\ props !! k = Some v /\ truthy v = true
       /\ has_truthy truthy props "name" = false
       /\ add_name truthy props = <["name" := v]> props.
Proof.
  unfold add_name.
  destruct (has_truthy truthy props "name") eqn:Hn;
    [left; rewrite andb_false_r; auto|].
  destruct (decide (props = ∅)) as [->|Hne].
  { left. rewrite bool_decide_eq_true_2 by done. split; [done|]. right.
    intros k _. unfold has_truthy. by rewrite lookup_empty. }
  rewrite bool_decide_eq_false_2 by done. cbn [negb andb].
  destruct (first_hit truthy (rev name_keys) props) as [k|] eqn:Hk.
  - apply first_hit_Some in Hk as [Hin Ht].
    unfold has_truthy in Ht. destruct (props !! k) as [v|] eqn:Hv; [|done].
    right. exists k, v. split; [by apply elem_of_rev_iff in Hin|done].
  - left. split; [done|]. right. intros k Hin.
    apply (first_hit_None _ _ Hk). by apply elem_of_rev_iff.
Qed.
End BackfillMore.

(** X24.  The backfiller changes no property other than "name"; it leaves
    a property mapping with a truthy "name" as it is; and a "name" that is
    there afterwards was there before or is the truthy value of one of the
    fallback keys. *)
Theorem add_name_frame {V : Type} (truthy : V -> bool) (props : gmap string V) :
  (forall k, k ≠ "name" -> GeoNames.add_name truthy props !! k = props !! k)
  /\ (GeoNames.has_truthy truthy props "name" = true ->
        GeoNames.add_name truthy props = props)
  /\ (forall v, GeoNames.add_name truthy props !! "name" = Some v ->
        props !! "name" = Some v
        \/ exists k, k ∈ GeoNames.name_keys /\ props !! k = Some v /\ truthy v = true).
Proof.
  destruct (add_name_cases truthy props) as [[-> _]|(k & v & Hk & Hv & Ht & Hn & ->)].
  - split; [done|]. split; [done|]. intros v Hv. by left.
  - split; [intros k' Hk'; by rewrite lookup_insert_ne|].
    split; [intros H; by rewrite H in Hn|].
    intros v'. rewrite lookup_insert_eq. intros [= <-]. right. by exists k.
Qed.

Lemma add_name_idempotent {V : Type} (truthy : V -> bool) (props : gmap string V) :
  GeoNames.add_name truthy (GeoNames.add_name truthy props)
  = GeoNames.add_name truthy props.
Proof.
  destruct (add_name_cases truthy props) as [[E _]|(k & v & Hk & Hv & Ht & Hn & E)].
  - by rewrite !E.
  - rewrite E. unfold GeoNames.add_name at 1.
    assert (GeoNames.has_truthy truthy (<["name" := v]> props) "name" = true) as ->.
    { unfold GeoNames.has_truthy. by rewrite lookup_insert_eq. }
    by rewrite andb_false_r.
Qed.

(** X25.  Running the backfiller on its own output changes nothing. *)
Theorem add_names_idempotent {V M : Type} (truthy : V -> bool)
    (features : list (GeoNames.Feature M)) :
  GeoNames.add_names truthy (GeoNames.add_names truthy features)
  = GeoNames.add_names truthy features.
Proof.
  unfold GeoNames.add_names. rewrite <- list_fmap_compose.
  apply list_fmap_ext. intros i f _. simpl.
  unfold GeoNames.add_feature_name.
  destruct (GeoNames.properties f) as [props|] eqn:Hp; simpl.
  - by rewrite add_name_idempotent.
  - by rewrite Hp.
Qed.


(** X26.  After the backfiller the "name" is truthy if any of the keys has
    a truthy value, and otherwise the property mapping is unchanged. *)
Theorem add_name_fills {V : Type} (truthy : V -> bool) (props : gmap string V) :
  if bool_decide (Exists (fun k => GeoNames.has_truthy truthy props k = true)
                    GeoNames.name_keys)
  then GeoNames.has_truthy truthy (GeoNames.add_name truthy props) "name" = true
  else GeoNames.add_name truthy props = props.
Proof.
  destruct (add_name_cases truthy props)
    as [[E [Hn|Hnone]]|(k & v & Hk & Hv & Ht & Hn & E)]; rewrite E; case_bool_decide as Hex;
    try done.
  - apply Exists_exists in Hex as (k & Hk & Ht). by rewrite Hnone in Ht.
  - unfold GeoNames.has_truthy. by rewrite lookup_insert_eq.
  - exfalso. apply Hex, Exists_exists. exists k. split; [done|].
    unfold GeoNames.has_truthy. by rewrite Hv.
Qed.
